(** * AirVoice overlay: state machine, presentation timer and voice segmenter

    A shallow embedding of [src/overlay/state_machine.py],
    [src/overlay/overlay_window.py] (auto-hide timer, geometry, mouse
    presses), [src/overlay/voice_input.py] (level meter, voice activity
    loop, speech hand-off, start and stop), [src/overlay/config.py],
    [src/overlay/animations.py], [src/overlay/phase_renderer.py] (key
    rectangles, hit test, processing ring), [src/overlay/commands.py] and
    [src/overlay/main.py], followed by the properties established about
    them.

    Conventions of the embedding:
    - a Python [float] is a real number or NaN ([pyfloat]); rounding is not
      modelled, NaN is, because it decides the branches taken;
    - a mutable object is a record and a method is a function returning the
      updated record;
    - in [StateMachine] a listener is a callback acting on a store outside
      the state machine (it does not call back into the machine while it
      is being notified); it returns normally or raises an [Exception]
      carrying a message, the class that [except Exception] catches;
    - in [LiveMachine] a listener is any callable: it may change the
      machine it is registered on, the list of listeners included, and it
      may raise what [except Exception] does not catch; the notification
      loop reads the list as the callbacks leave it, and takes a bound on
      its steps because it need not end. The statements about
      notification itself are made there; [Notification] shows that the
      two embeddings agree on listeners that leave the machine alone;
    - [print] appends a line to [stdout]; every listener invocation is also
      recorded in [calls], which is how "was notified" is observed. *)

From Stdlib Require Import List String Ascii Bool ZArith Reals Lra Lia.
Import ListNotations.

Set Implicit Arguments.

(* ------------------------------------------------------------------ *)
(** * Python floats                                                    *)
(* ------------------------------------------------------------------ *)

Module PyFloat.

Inductive pyfloat : Type :=
| NaN : pyfloat
| Fin : R -> pyfloat.

(** [a < b] and [a > b] on floats: false as soon as one side is NaN. *)
Definition ltb (a b : pyfloat) : bool :=
  match a, b with
  | Fin x, Fin y => if Rlt_dec x y then true else false
  | _, _ => false
  end.

Definition gtb (a b : pyfloat) : bool := ltb b a.

(** The builtin [min(a, b)]: [b] replaces [a] only when [b < a]. *)
Definition py_min (a b : pyfloat) : pyfloat := if ltb b a then b else a.

(** The builtin [max(a, b)]: [b] replaces [a] only when [b > a]. *)
Definition py_max (a b : pyfloat) : pyfloat := if gtb b a then b else a.

Definition mul (a b : pyfloat) : pyfloat :=
  match a, b with
  | Fin x, Fin y => Fin (x * y)
  | _, _ => NaN
  end.

(** [numpy.sqrt]: NaN on NaN and on negative input. *)
Definition np_sqrt (a : pyfloat) : pyfloat :=
  match a with
  | NaN => NaN
  | Fin x => if Rlt_dec x 0 then NaN else Fin (sqrt x)
  end.

(** The mathematical clamp the specification refers to. *)
Definition clamp (x lo hi : R) : R :=
  if Rlt_dec x lo then lo else if Rlt_dec hi x then hi else x.

Definition in_unit (a : pyfloat) : Prop :=
  match a with
  | NaN => False
  | Fin x => (0 <= x <= 1)%R
  end.

End PyFloat.
Import PyFloat.

(* ------------------------------------------------------------------ *)
(** * state_machine.py                                                 *)
(* ------------------------------------------------------------------ *)

Module StateMachine.

Inductive OverlayState : Type :=
| IDLE | LISTENING | PROCESSING | ACTION | GESTURE | KEYPAD.

Definition OverlayState_eq_dec (a b : OverlayState) : {a = b} + {a <> b}.
Proof. decide equality. Defined.

Definition state_eqb (a b : OverlayState) : bool :=
  if OverlayState_eq_dec a b then true else false.

Record ActionData : Type := mkActionData {
  message : string;
  icon : option string
}.

(** [ActionData()] *)
Definition ActionData_default : ActionData :=
  {| message := EmptyString; icon := None |}.

Record KeyData : Type := mkKeyData {
  label : string;
  code : string;
  width : R;
  is_action : bool
}.

(** [KeyData(label, code)] with the defaults [width=1.0], [is_action=False]. *)
Definition KeyData2 (l c : string) : KeyData :=
  {| label := l; code := c; width := 1; is_action := false |}.

(** [[KeyData(k, k) for k in s]] *)
Definition keys_of (s : string) : list KeyData :=
  map (fun k => KeyData2 (String k EmptyString) (String k EmptyString))
      (list_ascii_of_string s).

Definition Rows : Type := list (list KeyData).

Record KeypadData : Type := mkKeypadData {
  active_key : option string;
  rows : Rows
}.

(** The [default_factory] lambda of the field [rows]. *)
Definition rows_default_factory : Rows :=
  [ keys_of "`1234567890-=" ++ [mkKeyData "Back" "backspace" 2 true];
    [mkKeyData "Tab" "tab" 1.5 true] ++ keys_of "mwertyuiop[]\" ].

(** [KeypadData._init_layout]: the assignment to [self.rows]. *)
Definition layout : Rows :=
  [ keys_of "`1234567890-=" ++ [mkKeyData "⌫" "backspace" 2 true];
    [mkKeyData "Tab" "tab" 1.5 true] ++ keys_of "qwertyuiop[]\";
    [mkKeyData "Caps" "capslock" 1.8 true] ++ keys_of "asdfghjkl;'"
      ++ [mkKeyData "Enter" "enter" 2.2 true];
    [mkKeyData "Shift" "shift" 2.3 true] ++ keys_of "zxcvbnm,./"
      ++ [mkKeyData "Shift" "shift" 2.3 true];
    [ mkKeyData "Ctrl" "ctrl" 1.5 true; mkKeyData "Win" "win" 1.5 true;
      mkKeyData "Alt" "alt" 1.5 true;
      mkKeyData "SPACE" "space" 6 false;
      mkKeyData "Alt" "alt" 1.5 true; mkKeyData "Fn" "fn" 1.5 true;
      mkKeyData "Ctrl" "ctrl" 1.5 true ] ].

Definition _init_layout (self : KeypadData) : KeypadData :=
  {| active_key := active_key self; rows := layout |}.

(** [not self.rows] *)
Definition rows_empty (r : Rows) : bool :=
  match r with [] => true | _ :: _ => false end.

Definition __post_init__ (self : KeypadData) : KeypadData :=
  if rows_empty (rows self) then _init_layout self else self.

(** The generated [__init__] of the dataclass: an argument left out takes
    its default, then [__post_init__] runs. *)
Definition KeypadData_new (active_key_arg : option (option string))
                          (rows_arg : option Rows) : KeypadData :=
  __post_init__
    {| active_key := match active_key_arg with Some k => k | None => None end;
       rows := match rows_arg with Some r => r | None => rows_default_factory end |}.

(** [KeypadData()] *)
Definition KeypadData_default : KeypadData := KeypadData_new None None.

Section Machine.

(** The elements of [hand_landmarks] (an untyped [List] in the source)
    and the store the listeners act on. *)
Variable Landmark : Type.
Variable World : Type.

Record GestureData : Type := mkGestureData {
  hand_landmarks : list Landmark;
  active_finger : option Z;
  hover_key : option string
}.

(** [GestureData()] *)
Definition GestureData_default : GestureData :=
  {| hand_landmarks := []; active_finger := None; hover_key := None |}.

(** The outcome of one callback: the store it leaves behind and, when it
    raised, the text of the exception. *)
Record Listener : Type := mkListener {
  listener_id : nat;
  call : OverlayState -> OverlayState -> World -> World * option string
}.

Definition Call : Type := (nat * OverlayState * OverlayState)%type.

Record OverlayStateMachine : Type := mkMachine {
  _state : OverlayState;
  _previous_state : OverlayState;
  _listeners : list Listener;
  action_data : ActionData;
  gesture_data : GestureData;
  keypad_data : KeypadData;
  audio_level : pyfloat
}.

(** The machine together with what its listeners can touch. *)
Record Sys : Type := mkSys {
  sm : OverlayStateMachine;
  world : World;
  stdout : list string;
  calls : list Call
}.

(** [OverlayStateMachine.__init__] *)
Definition init : OverlayStateMachine :=
  {| _state := IDLE;
     _previous_state := IDLE;
     _listeners := [];
     action_data := ActionData_default;
     gesture_data := GestureData_default;
     keypad_data := KeypadData_default;
     audio_level := Fin 0 |}.

Definition state (self : OverlayStateMachine) : OverlayState := _state self.
Definition previous_state (self : OverlayStateMachine) : OverlayState :=
  _previous_state self.

Definition with_sm (s : Sys) (m : OverlayStateMachine) : Sys :=
  {| sm := m; world := world s; stdout := stdout s; calls := calls s |}.

Definition add_listener (callback : Listener) (s : Sys) : Sys :=
  let m := sm s in
  with_sm s
    {| _state := _state m; _previous_state := _previous_state m;
       _listeners := _listeners m ++ [callback];
       action_data := action_data m; gesture_data := gesture_data m;
       keypad_data := keypad_data m; audio_level := audio_level m |}.

(** [list.remove]: the first equal element goes. *)
Fixpoint remove_first (i : nat) (ls : list Listener) : list Listener :=
  match ls with
  | [] => []
  | l :: rest =>
      if Nat.eqb (listener_id l) i then rest else l :: remove_first i rest
  end.

Definition remove_listener (callback : Listener) (s : Sys) : Sys :=
  let m := sm s in
  with_sm s
    {| _state := _state m; _previous_state := _previous_state m;
       _listeners := remove_first (listener_id callback) (_listeners m);
       action_data := action_data m; gesture_data := gesture_data m;
       keypad_data := keypad_data m; audio_level := audio_level m |}.

(** One iteration of the loop of [_notify_listeners]: the [try] body and
    its [except Exception] handler. *)
Definition notify_one (old_state new_state : OverlayState)
                      (s : Sys) (listener : Listener) : Sys :=
  let (w, outcome) := call listener old_state new_state (world s) in
  {| sm := sm s;
     world := w;
     stdout := match outcome with
               | Some e => stdout s ++ [("Error in state listener: " ++ e)%string]
               | None => stdout s
               end;
     calls := calls s ++ [(listener_id listener, old_state, new_state)] |}.

Definition _notify_listeners (old_state new_state : OverlayState)
                             (s : Sys) : Sys :=
  fold_left (notify_one old_state new_state) (_listeners (sm s)) s.

Definition transition_to (new_state : OverlayState) (s : Sys) : Sys :=
  let m := sm s in
  if state_eqb new_state (_state m) then s
  else
    let m' :=
      {| _state := new_state; _previous_state := _state m;
         _listeners := _listeners m;
         action_data := action_data m; gesture_data := gesture_data m;
         keypad_data := keypad_data m; audio_level := audio_level m |} in
    _notify_listeners (_previous_state m') (_state m') (with_sm s m').

Definition set_idle (s : Sys) : Sys := transition_to IDLE s.

Definition set_audio_level (v : pyfloat) (s : Sys) : Sys :=
  let m := sm s in
  with_sm s
    {| _state := _state m; _previous_state := _previous_state m;
       _listeners := _listeners m;
       action_data := action_data m; gesture_data := gesture_data m;
       keypad_data := keypad_data m; audio_level := v |}.

Definition set_listening (level : pyfloat) (s : Sys) : Sys :=
  transition_to LISTENING (set_audio_level level s).

Definition update_audio_level (level : pyfloat) (s : Sys) : Sys :=
  set_audio_level (py_max (Fin 0) (py_min (Fin 1) level)) s.

Definition set_processing (s : Sys) : Sys := transition_to PROCESSING s.

Definition set_action_data (d : ActionData) (s : Sys) : Sys :=
  let m := sm s in
  with_sm s
    {| _state := _state m; _previous_state := _previous_state m;
       _listeners := _listeners m;
       action_data := d; gesture_data := gesture_data m;
       keypad_data := keypad_data m; audio_level := audio_level m |}.

Definition set_action (msg : string) (icon_arg : option string) (s : Sys) : Sys :=
  transition_to ACTION
    (set_action_data {| message := msg; icon := icon_arg |} s).

Definition set_gesture_data (d : GestureData) (s : Sys) : Sys :=
  let m := sm s in
  with_sm s
    {| _state := _state m; _previous_state := _previous_state m;
       _listeners := _listeners m;
       action_data := action_data m; gesture_data := d;
       keypad_data := keypad_data m; audio_level := audio_level m |}.

(** [landmarks or []] *)
Definition or_empty (landmarks : option (list Landmark)) : list Landmark :=
  match landmarks with
  | Some (x :: l) => x :: l
  | _ => []
  end.

Definition set_gesture (landmarks : option (list Landmark))
                       (finger : option Z) (hover : option string)
                       (s : Sys) : Sys :=
  transition_to GESTURE
    (set_gesture_data
       {| hand_landmarks := or_empty landmarks;
          active_finger := finger;
          hover_key := hover |} s).

Definition update_gesture (landmarks : option (list Landmark))
                          (finger : option Z) (hover : option string)
                          (s : Sys) : Sys :=
  let g := gesture_data (sm s) in
  set_gesture_data
    {| hand_landmarks :=
         match landmarks with Some l => l | None => hand_landmarks g end;
       active_finger :=
         match finger with Some f => Some f | None => active_finger g end;
       hover_key :=
         match hover with Some k => Some k | None => hover_key g end |} s.

Definition set_active_key (k : option string) (s : Sys) : Sys :=
  let m := sm s in
  with_sm s
    {| _state := _state m; _previous_state := _previous_state m;
       _listeners := _listeners m;
       action_data := action_data m; gesture_data := gesture_data m;
       keypad_data := {| active_key := k; rows := rows (keypad_data m) |};
       audio_level := audio_level m |}.

Definition set_keypad (k : option string) (s : Sys) : Sys :=
  transition_to KEYPAD (set_active_key k s).

Definition update_keypad (k : option string) (s : Sys) : Sys :=
  set_active_key k s.

(** The public operations, as requests. *)
Inductive Op : Type :=
| OpAddListener (l : Listener)
| OpRemoveListener (l : Listener)
| OpSetIdle
| OpSetListening (level : pyfloat)
| OpUpdateAudioLevel (level : pyfloat)
| OpSetProcessing
| OpSetAction (msg : string) (icon_arg : option string)
| OpSetGesture (landmarks : option (list Landmark))
               (finger : option Z) (hover : option string)
| OpUpdateGesture (landmarks : option (list Landmark))
                  (finger : option Z) (hover : option string)
| OpSetKeypad (k : option string)
| OpUpdateKeypad (k : option string).

Definition exec (o : Op) (s : Sys) : Sys :=
  match o with
  | OpAddListener l => add_listener l s
  | OpRemoveListener l => remove_listener l s
  | OpSetIdle => set_idle s
  | OpSetListening level => set_listening level s
  | OpUpdateAudioLevel level => update_audio_level level s
  | OpSetProcessing => set_processing s
  | OpSetAction msg i => set_action msg i s
  | OpSetGesture l f h => set_gesture l f h s
  | OpUpdateGesture l f h => update_gesture l f h s
  | OpSetKeypad k => set_keypad k s
  | OpUpdateKeypad k => update_keypad k s
  end.

(** The state a [set_*] operation asks for. *)
Definition target (o : Op) : option OverlayState :=
  match o with
  | OpSetIdle => Some IDLE
  | OpSetListening _ => Some LISTENING
  | OpSetProcessing => Some PROCESSING
  | OpSetAction _ _ => Some ACTION
  | OpSetGesture _ _ _ => Some GESTURE
  | OpSetKeypad _ => Some KEYPAD
  | _ => None
  end.

Definition exec_all (ops : list Op) (s : Sys) : Sys :=
  fold_left (fun acc o => exec o acc) ops s.

End Machine.

Arguments OpAddListener {Landmark World}.
Arguments OpRemoveListener {Landmark World}.
Arguments OpSetIdle {Landmark World}.
Arguments OpSetListening {Landmark World}.
Arguments OpUpdateAudioLevel {Landmark World}.
Arguments OpSetProcessing {Landmark World}.
Arguments OpSetAction {Landmark World}.
Arguments OpSetGesture {Landmark World}.
Arguments OpUpdateGesture {Landmark World}.
Arguments OpSetKeypad {Landmark World}.
Arguments OpUpdateKeypad {Landmark World}.

End StateMachine.

Import StateMachine.

(* ------------------------------------------------------------------ *)
(** * overlay_window.py: the auto-hide timer                           *)
(* ------------------------------------------------------------------ *)

Module Window.

Inductive AccessibilityMode : Type := NORMAL | MINIMAL | AUDIO_ONLY.

Definition mode_eqb (a b : AccessibilityMode) : bool :=
  match a, b with
  | NORMAL, NORMAL | MINIMAL, MINIMAL | AUDIO_ONLY, AUDIO_ONLY => true
  | _, _ => false
  end.

(** The fields of [OverlayConfig] that [_on_state_changed] reads. *)
Record OverlayConfig : Type := mkConfig {
  accessibility_mode : AccessibilityMode;
  idle_opacity : R;
  listening_opacity : R;
  processing_opacity : R;
  action_opacity : R;
  fade_duration_ms : Z;
  toast_display_ms : Z
}.

(** [OverlayConfig()] *)
Definition OverlayConfig_default : OverlayConfig :=
  {| accessibility_mode := NORMAL;
     idle_opacity := 0.4;
     listening_opacity := 0.85;
     processing_opacity := 0.9;
     action_opacity := 0.95;
     fade_duration_ms := 300;
     toast_display_ms := 2000 |}.

Inductive Geometry : Type := Indicator | Keyboard.

(** What the window owns besides its state machine. A single-shot
    [QTimer] is [Some ms] while it is active and [None] otherwise. The
    primary screen is taken to exist, so both geometry updates apply. *)
Record WindowState : Type := mkWindow {
  config : OverlayConfig;
  _target_opacity : R;
  fade_to : option (R * Z);
  action_timer : option Z;
  state_changed : list (OverlayState * OverlayState);
  geometry : Geometry;
  transparent_for_mouse : bool
}.

(** [opacity_map.get(new_state, self.config.idle_opacity)] *)
Definition opacity_map (c : OverlayConfig) (st : OverlayState) : R :=
  match st with
  | IDLE => idle_opacity c
  | LISTENING => listening_opacity c
  | PROCESSING => processing_opacity c
  | ACTION => action_opacity c
  | GESTURE => listening_opacity c
  | KEYPAD => action_opacity c
  end.

(** [OverlayWindow._on_state_changed]. When it runs, the machine has
    already stored [new_state], which is what
    [_update_input_passthrough] reads back. *)
Definition _on_state_changed (old_state new_state : OverlayState)
                             (w : WindowState) : WindowState :=
  let emitted := state_changed w ++ [(old_state, new_state)] in
  if mode_eqb (accessibility_mode (config w)) AUDIO_ONLY then
    {| config := config w;
       _target_opacity := _target_opacity w;
       fade_to := fade_to w;
       action_timer := action_timer w;
       state_changed := emitted;
       geometry := geometry w;
       transparent_for_mouse := transparent_for_mouse w |}
  else
    let target_opacity := opacity_map (config w) new_state in
    {| config := config w;
       _target_opacity := target_opacity;
       fade_to := Some (target_opacity, fade_duration_ms (config w));
       action_timer :=
         if state_eqb new_state ACTION
         then Some (toast_display_ms (config w))
         else action_timer w;
       state_changed := emitted;
       geometry :=
         if state_eqb new_state KEYPAD then Keyboard
         else if state_eqb old_state KEYPAD then Indicator
         else geometry w;
       transparent_for_mouse := negb (state_eqb new_state KEYPAD) |}.

Section Window.

Variable Landmark : Type.

Definition OverlayWindow : Type := Sys Landmark WindowState.

(** The bound method handed to [add_listener]; it does not raise. *)
Definition window_listener : Listener WindowState :=
  {| listener_id := 0;
     call := fun old_state new_state w =>
               (_on_state_changed old_state new_state w, None) |}.

(** [OverlayWindow.__init__] *)
Definition OverlayWindow_new (c : OverlayConfig) : OverlayWindow :=
  add_listener window_listener
    {| sm := init Landmark WindowState;
       world := {| config := c;
                   _target_opacity := idle_opacity c;
                   fade_to := None;
                   action_timer := None;
                   state_changed := [];
                   geometry := Indicator;
                   transparent_for_mouse := true |};
       stdout := [];
       calls := [] |}.

Definition _hide_action (self : OverlayWindow) : OverlayWindow :=
  if state_eqb (state (sm self)) ACTION then set_idle self else self.

Definition stop_timer (w : WindowState) : WindowState :=
  {| config := config w;
     _target_opacity := _target_opacity w;
     fade_to := fade_to w;
     action_timer := None;
     state_changed := state_changed w;
     geometry := geometry w;
     transparent_for_mouse := transparent_for_mouse w |}.

(** The [timeout] of the single-shot [action_timer]: the timer becomes
    inactive and the connected slot [_hide_action] runs. An inactive
    timer does not fire. *)
Definition action_timer_timeout (self : OverlayWindow) : OverlayWindow :=
  match action_timer (world self) with
  | None => self
  | Some _ =>
      _hide_action
        {| sm := sm self; world := stop_timer (world self);
           stdout := stdout self; calls := calls self |}
  end.

Definition set_accessibility_mode (mode : AccessibilityMode)
                                  (self : OverlayWindow) : OverlayWindow :=
  let w := world self in
  let c := config w in
  {| sm := sm self;
     world := {| config := {| accessibility_mode := mode;
                              idle_opacity := idle_opacity c;
                              listening_opacity := listening_opacity c;
                              processing_opacity := processing_opacity c;
                              action_opacity := action_opacity c;
                              fade_duration_ms := fade_duration_ms c;
                              toast_display_ms := toast_display_ms c |};
                 _target_opacity := _target_opacity w;
                 fade_to := fade_to w;
                 action_timer := action_timer w;
                 state_changed := state_changed w;
                 geometry := geometry w;
                 transparent_for_mouse := transparent_for_mouse w |};
     stdout := stdout self; calls := calls self |}.

Definition show_action (msg : string) (icon_arg : option string)
                       (self : OverlayWindow) : OverlayWindow :=
  set_action msg icon_arg self.

End Window.

End Window.

(* ------------------------------------------------------------------ *)
(** * voice_input.py                                                   *)
(* ------------------------------------------------------------------ *)

Module VoiceInput.

(** One block of mono [int16] samples. *)
Definition Frame : Type := list Z.

Definition int16 (x : Z) : Prop := (-32768 <= x <= 32767)%Z.

(** [data.astype(np.float32) / 32768.0] *)
Definition floats (data : Frame) : list R :=
  map (fun x => (IZR x / 32768)%R) data.

Definition sum (xs : list R) : R := fold_right Rplus 0%R xs.

(** [np.mean]: NaN (with a warning, not an exception) on no elements. *)
Definition np_mean (xs : list R) : pyfloat :=
  match xs with
  | [] => NaN
  | _ :: _ => Fin (sum xs / INR (List.length xs))
  end.

(** [rms = np.sqrt(np.mean(floats**2))] *)
Definition rms_of (data : Frame) : pyfloat :=
  np_sqrt (np_mean (map (fun f => (f ^ 2)%R) (floats data))).

(** The argument of [audio_level_changed.emit]: [float(rms * 10.0)]. *)
Definition level_of (data : Frame) : pyfloat := mul (rms_of data) (Fin 10).

Inductive Signal : Type :=
| text_recognized (text : string)
| error_occurred (msg : string)
| audio_level_changed (level : pyfloat).

(** [sr.AudioData(frame_data, sample_rate, sample_width)] *)
Record AudioData : Type := mkAudioData {
  frame_data : list Z;
  sample_rate : Z;
  sample_width : Z
}.

(** What [recognize_google] does with one request. *)
Inductive Recognition : Type :=
| Returns (text : string)
| UnknownValueError
| RequestError (e : string)
| OtherException (e : string).

(** [ndarray.tobytes] of [int16] samples, low byte first. *)
Definition tobytes (samples : list Z) : list Z :=
  flat_map (fun x => [x mod 256; (x / 256) mod 256]%Z) samples.

(** The VAD variables of [_run_loop]. *)
Record Vad : Type := mkVad {
  speech_buffer : list Frame;
  is_speaking : bool;
  silence_start_time : option R
}.

Definition vad_init : Vad :=
  {| speech_buffer := []; is_speaking := false; silence_start_time := None |}.

(** Lines 77-97 of [_run_loop] for one dequeued block: [rms] is the level
    just computed and [now] is what [time.time()] returns in this
    iteration. The two VAD constants of [_run_loop] are arguments here, and
    [loop_body] below passes the values the source fixes. The second
    component is the buffer passed to [_process_speech], if the call is
    made. The debugging [print]s are left out. *)
Definition vad_step (silence_threshold silence_duration : R)
                    (st : Vad) (data : Frame) (rms : pyfloat) (now : R)
  : Vad * option (list Frame) :=
  if gtb rms (Fin silence_threshold) then
    ({| speech_buffer := speech_buffer st ++ [data];
        is_speaking := true;
        silence_start_time := None |}, None)
  else if is_speaking st then
    let buffer := speech_buffer st ++ [data] in
    match silence_start_time st with
    | None =>
        ({| speech_buffer := buffer;
            is_speaking := true;
            silence_start_time := Some now |}, None)
    | Some started =>
        if Rgt_dec (now - started) silence_duration then
          ({| speech_buffer := [];
              is_speaking := false;
              silence_start_time := None |}, Some buffer)
        else
          ({| speech_buffer := buffer;
              is_speaking := true;
              silence_start_time := Some started |}, None)
    end
  else (st, None).

(** One input of the segmenter: the block, its level, the clock. *)
Definition Tick : Type := (Frame * pyfloat * R)%type.

(** The segmenter over a stream: final variables and the buffers handed to
    [_process_speech], in order. *)
Fixpoint vad_run (silence_threshold silence_duration : R)
                 (st : Vad) (stream : list Tick) : Vad * list (list Frame) :=
  match stream with
  | [] => (st, [])
  | (data, rms, now) :: rest =>
      let (st1, handed) := vad_step silence_threshold silence_duration st data rms now in
      let (st2, later) := vad_run silence_threshold silence_duration st1 rest in
      (st2, match handed with Some u => u :: later | None => later end)
  end.

Section Worker.

(** [self.sample_rate] and the remote recogniser. *)
Variable self_sample_rate : Z.
Variable recognize_google : AudioData -> Recognition.

(** What one call of [_process_speech] does: the requests sent to the
    recogniser and the signals emitted. *)
Record Speech : Type := mkSpeech {
  attempts : list AudioData;
  signals : list Signal
}.

Definition _process_speech (valid_frames : list Frame) : Speech :=
  match valid_frames with
  | [] => {| attempts := []; signals := [] |}
  | _ :: _ =>
      let audio_data := List.concat valid_frames in
      let audio_bytes := tobytes audio_data in
      let sr_audio := {| frame_data := audio_bytes;
                         sample_rate := self_sample_rate;
                         sample_width := 2 |} in
      {| attempts := [sr_audio];
         signals :=
           match recognize_google sr_audio with
           | Returns text =>
               match text with
               | EmptyString => []
               | String _ _ => [text_recognized text]
               end
           | UnknownValueError => []
           | RequestError e => [error_occurred ("API Error: " ++ e)%string]
           | OtherException e => [error_occurred ("Recognition Error: " ++ e)%string]
           end |}
  end.

(** The constants at the top of [_run_loop]. *)
Definition silence_threshold : R := 0.01.
Definition silence_duration : R := 3.

(** The body of the [while] loop for one dequeued block (an iteration
    whose [get] times out does nothing): the signals emitted and the
    requests sent to the recogniser. *)
Definition loop_body (st : Vad) (data : Frame) (now : R)
  : Vad * list Signal * list AudioData :=
  let rms := rms_of data in
  let level := audio_level_changed (mul rms (Fin 10)) in
  match vad_step silence_threshold silence_duration st data rms now with
  | (st', None) => (st', [level], [])
  | (st', Some buffer) =>
      let r := _process_speech buffer in
      (st', level :: signals r, attempts r)
  end.

(** [_run_loop] over the blocks that arrive before the stop request,
    each with the clock reading of its iteration. *)
Fixpoint _run_loop (st : Vad) (blocks : list (Frame * R))
  : Vad * list Signal * list AudioData :=
  match blocks with
  | [] => (st, [], [])
  | (data, now) :: rest =>
      match loop_body st data now with
      | (st1, sigs1, reqs1) =>
          match _run_loop st1 rest with
          | (st2, sigs2, reqs2) => (st2, sigs1 ++ sigs2, reqs1 ++ reqs2)
          end
      end
  end.

End Worker.

End VoiceInput.

(* ------------------------------------------------------------------ *)
(** * phase_renderer.py: the layout check of the keypad renderer       *)
(* ------------------------------------------------------------------ *)

Module Renderer.

(** The first statement of [KeypadRenderer.render]:
    [if not keypad_data.rows or len(keypad_data.rows) < 2: _init_layout()]. *)
Definition ensure_layout (keypad_data : KeypadData) : KeypadData :=
  if rows_empty (rows keypad_data) || (List.length (rows keypad_data) <? 2)%nat
  then _init_layout keypad_data
  else keypad_data.

End Renderer.

(* ------------------------------------------------------------------ *)
(** * config.py and the window geometry of overlay_window.py           *)
(* ------------------------------------------------------------------ *)

Module Config.

Inductive Position : Type :=
| BOTTOM_RIGHT | BOTTOM_LEFT | BOTTOM_CENTER
| TOP_RIGHT | TOP_LEFT | CENTER | FOLLOW_HAND.

(** The fields of [OverlayConfig] that place the overlay. *)
Record Placement : Type := mkPlacement {
  position : Position;
  indicator_size : Z;
  margin : Z
}.

(** The defaults of [OverlayConfig]: centre, 80 px, margin 30 px. *)
Definition Placement_default : Placement :=
  {| position := CENTER; indicator_size := 80; margin := 30 |}.

(** [OverlayConfig.get_screen_position]. Every [Position] is a key of the
    dictionary, so the default of [positions.get] is never taken. [//] is
    floor division, which is [Z.div]. *)
Definition get_screen_position (self : Placement)
                               (screen_width screen_height : Z) : Z * Z :=
  let margin := margin self in
  let size := indicator_size self in
  match position self with
  | BOTTOM_RIGHT => (screen_width - size - margin, screen_height - size - margin)
  | BOTTOM_LEFT => (margin, screen_height - size - margin)
  | BOTTOM_CENTER => ((screen_width - size) / 2, screen_height - size - margin)
  | TOP_RIGHT => (screen_width - size - margin, margin)
  | TOP_LEFT => (margin, margin)
  | CENTER => ((screen_width - size) / 2, (screen_height - size) / 2)
  | FOLLOW_HAND => (screen_width - size - margin, screen_height - size - margin)
  end%Z.

(** Size and position of the window, as set by [setFixedSize] and [move]. *)
Record WindowGeometry : Type := mkGeometry {
  win_width : Z;
  win_height : Z;
  win_x : Z;
  win_y : Z
}.

(** [OverlayWindow._update_geometry]; [screen] is the size of the primary
    screen, [None] when there is none. *)
Definition _update_geometry (cfg : Placement) (screen : option (Z * Z))
                            (g : WindowGeometry) : WindowGeometry :=
  match screen with
  | None => g
  | Some (screen_width, screen_height) =>
      let size := (indicator_size cfg * 4)%Z in
      let (x, y) := get_screen_position cfg screen_width screen_height in
      {| win_width := size;
         win_height := size;
         win_x := (x - size / 2 + indicator_size cfg / 2)%Z;
         win_y := (y - size / 2 + indicator_size cfg / 2)%Z |}
  end.

(** [OverlayWindow._expand_for_keypad] *)
Definition _expand_for_keypad (screen : option (Z * Z))
                              (g : WindowGeometry) : WindowGeometry :=
  match screen with
  | None => g
  | Some (screen_width, screen_height) =>
      let width := 1000%Z in
      let height := 400%Z in
      {| win_width := width;
         win_height := height;
         win_x := ((screen_width - width) / 2)%Z;
         win_y := ((screen_height - height) / 2)%Z |}
  end.

(** [OverlayWindow.set_position]: the new position, then the geometry. *)
Definition set_position (p : Position) (cfg : Placement)
                        (screen : option (Z * Z)) (g : WindowGeometry)
  : Placement * WindowGeometry :=
  let cfg' := {| position := p;
                 indicator_size := indicator_size cfg;
                 margin := margin cfg |} in
  (cfg', _update_geometry cfg' screen g).

End Config.

(* ------------------------------------------------------------------ *)
(** * animations.py: the calculators                                   *)
(* ------------------------------------------------------------------ *)

Module Animations.

(** [ease_in_out_quad] *)
Definition ease_in_out_quad (t : R) : R :=
  if Rlt_dec t 0.5 then 2 * t * t else 1 - (-2 * t + 2) ^ 2 / 2.

(** A call that returns or raises [ZeroDivisionError]. *)
Inductive Result (A : Type) : Type :=
| Returns (a : A)
| ZeroDivisionError.

Arguments Returns {A}.
Arguments ZeroDivisionError {A}.

Record BreathingAnimation : Type := mkBreathing {
  min_value : R;
  max_value : R;
  duration_ms : Z;
  _elapsed : Z
}.

(** [BreathingAnimation.__init__] *)
Definition BreathingAnimation_new (min_v max_v : R) (duration : Z)
  : BreathingAnimation :=
  {| min_value := min_v; max_value := max_v;
     duration_ms := duration; _elapsed := 0 |}.

(** [BreathingAnimation.update]: the integer [%] raises on a zero duration
    before anything is stored; [/] is true division. *)
Definition breathing_update (self : BreathingAnimation) (delta_ms : Z)
  : Result (BreathingAnimation * R) :=
  if (duration_ms self =? 0)%Z then ZeroDivisionError
  else
    let elapsed := ((_elapsed self + delta_ms) mod duration_ms self)%Z in
    let t := (IZR elapsed / IZR (duration_ms self))%R in
    let value := (sin (t * 2 * PI) * 0.5 + 0.5)%R in
    Returns ({| min_value := min_value self; max_value := max_value self;
                duration_ms := duration_ms self; _elapsed := elapsed |},
             (min_value self + value * (max_value self - min_value self))%R).

(** [BreathingAnimation.reset] *)
Definition breathing_reset (self : BreathingAnimation) : BreathingAnimation :=
  {| min_value := min_value self; max_value := max_value self;
     duration_ms := duration_ms self; _elapsed := 0 |}.

(** [WaveformAnimation]; [_phases] is never read after construction and is
    left out. *)
Record WaveformAnimation : Type := mkWaveform {
  num_bars : Z;
  wave_elapsed : Z
}.

(** [range(n)] *)
Definition range (n : Z) : list Z := map Z.of_nat (seq 0 (Z.to_nat n)).

(** One bar of [WaveformAnimation.update]; [jitter] is the value drawn by
    [random.uniform(0.8, 1.2)] for this bar. *)
Definition bar_height (self : WaveformAnimation) (audio_level : pyfloat)
                      (jitter : R) (i : Z) : pyfloat :=
  let center_idx := (num_bars self / 2)%Z in
  let dist := Z.abs (center_idx - i) in
  let scale := (1 - IZR dist * 0.2)%R in
  let height := mul (mul audio_level (Fin scale)) (Fin jitter) in
  py_max (Fin 0.1) (py_min (Fin 1) height).

(** [WaveformAnimation.update]; [jitter i] is the draw made for bar [i]. *)
Definition waveform_update (self : WaveformAnimation) (delta_ms : Z)
                           (audio_level : pyfloat) (jitter : Z -> R)
  : WaveformAnimation * list pyfloat :=
  ({| num_bars := num_bars self;
      wave_elapsed := (wave_elapsed self + delta_ms)%Z |},
   map (fun i => bar_height self audio_level (jitter i) i)
       (range (num_bars self))).

(** The level [ListeningRenderer.render] passes: [max(0.3, audio_level)]. *)
Definition listening_level (audio_level : pyfloat) : pyfloat :=
  py_max (Fin 0.3) audio_level.

(** The four channels of a [QColor]. *)
Record QColor : Type := mkColor {
  red : Z;
  green : Z;
  blue : Z;
  alpha : Z
}.

(** [int(x)] on a float: truncation towards zero. *)
Definition py_int (x : R) : Z :=
  if Rle_dec 0 x then Int_part x else (- Int_part (- x))%Z.

(** [int(c1 + (c2 - c1) * t)] *)
Definition mix (c1 c2 : Z) (t : R) : Z :=
  py_int (IZR c1 + (IZR c2 - IZR c1) * t).

(** [interpolate_color]; [None] stands for the [ValueError] that [int]
    raises on NaN. *)
Definition interpolate_color (color1 color2 : QColor) (t : pyfloat)
  : option QColor :=
  match py_max (Fin 0) (py_min (Fin 1) t) with
  | NaN => None
  | Fin t' =>
      Some {| red := mix (red color1) (red color2) t';
              green := mix (green color1) (green color2) t';
              blue := mix (blue color1) (blue color2) t';
              alpha := mix (alpha color1) (alpha color2) t' |}
  end.

End Animations.

(* ------------------------------------------------------------------ *)
(** * phase_renderer.py: key rectangles and hit testing                *)
(* ------------------------------------------------------------------ *)

Module Keyboard.

Local Open Scope R_scope.

Record QPointF : Type := mkPoint {
  px : R;
  py : R
}.

Record QRectF : Type := mkRect {
  rx : R;
  ry : R;
  rwidth : R;
  rheight : R
}.

(** Qt's [QRectF.center]. *)
Definition center (r : QRectF) : QPointF :=
  {| px := rx r + rwidth r / 2; py := ry r + rheight r / 2 |}.

(** Qt's [QRectF.contains(QPointF)], as Qt defines it: the edges belong to
    the rectangle, a negative extent is taken backwards, and a rectangle
    of zero width or height contains nothing. *)
Definition contains (r : QRectF) (p : QPointF) : bool :=
  let l := if Rlt_dec (rwidth r) 0 then rx r + rwidth r else rx r in
  let r' := if Rlt_dec (rwidth r) 0 then rx r else rx r + rwidth r in
  let t := if Rlt_dec (rheight r) 0 then ry r + rheight r else ry r in
  let b := if Rlt_dec (rheight r) 0 then ry r else ry r + rheight r in
  if Req_dec_T l r' then false
  else if Rlt_dec (px p) l then false
  else if Rlt_dec r' (px p) then false
  else if Req_dec_T t b then false
  else if Rlt_dec (py p) t then false
  else if Rlt_dec b (py p) then false
  else true.

(** [self._key_rects]: a [dict] from key code to rectangle, in insertion
    order. *)
Definition Dict : Type := list (string * QRectF).

(** [d[k] = v]: an existing key keeps its place and takes the new value,
    a new key goes last. *)
Fixpoint dict_set (d : Dict) (k : string) (v : QRectF) : Dict :=
  match d with
  | [] => [(k, v)]
  | (k', v') :: rest =>
      if String.eqb k' k then (k, v) :: rest
      else (k', v') :: dict_set rest k v
  end.

Fixpoint dict_get (d : Dict) (k : string) : option QRectF :=
  match d with
  | [] => None
  | (k', v') :: rest => if String.eqb k' k then Some v' else dict_get rest k
  end.

Definition base_key_size : R := 50.
Definition gap : R := 6.

(** Python's [sum] of a sequence of floats. *)
Definition py_sum (xs : list R) : R := fold_left Rplus xs 0%R.

(** [sum(key.width * base_key_size for key in row) + (len(row) - 1) * gap] *)
Definition row_width (row : list KeyData) : R :=
  py_sum (map (fun key => width key * base_key_size) row)
  + (INR (List.length row) - 1) * gap.

(** What the renderer has produced so far: the dictionary of rectangles
    and, in drawing order, every key with the rectangle it was drawn in. *)
Record Drawn : Type := mkDrawn {
  key_rects : Dict;
  painted : list (KeyData * QRectF)
}.

(** The inner loop of [KeypadRenderer.render] over the keys of one row. *)
Fixpoint place_row (row : list KeyData) (current_x current_y : R)
                   (acc : Drawn) : Drawn :=
  match row with
  | [] => acc
  | key_data :: rest =>
      let w := width key_data * base_key_size in
      let h := base_key_size in
      let key_rect := {| rx := current_x; ry := current_y;
                         rwidth := w; rheight := h |} in
      place_row rest (current_x + (w + gap)) current_y
        {| key_rects := dict_set (key_rects acc) (code key_data) key_rect;
           painted := painted acc ++ [(key_data, key_rect)] |}
  end.

(** The outer loop over the rows; [cx] is [rect.center().x()]. *)
Fixpoint place_rows (rows : Rows) (cx current_y : R) (acc : Drawn) : Drawn :=
  match rows with
  | [] => acc
  | row :: rest =>
      place_rows rest cx (current_y + (base_key_size + gap))
        (place_row row (cx - row_width row / 2) current_y acc)
  end.

(** The geometry part of [KeypadRenderer.render]: the layout check, then
    the rectangles, starting from a cleared dictionary. The first component
    is the keypad record as the check leaves it. *)
Definition render (keypad_data : KeypadData) (rect : QRectF)
  : KeypadData * Drawn :=
  let keypad_data := Renderer.ensure_layout keypad_data in
  let rows := rows keypad_data in
  let total_height :=
    INR (List.length rows) * (base_key_size + gap) - gap in
  let start_y := py (center rect) - total_height / 2 in
  (keypad_data,
   place_rows rows (px (center rect)) start_y
     {| key_rects := []; painted := [] |}).

(** [KeypadRenderer.hit_test]: the first entry of the dictionary whose
    rectangle contains the point. *)
Fixpoint hit_test (_key_rects : Dict) (pos : QPointF) : option string :=
  match _key_rects with
  | [] => None
  | (code, rect) :: rest =>
      if contains rect pos then Some code else hit_test rest pos
  end.

End Keyboard.

(** Reference descriptions for the keyboard geometry. *)
Module KeyboardDescribed.

Import Keyboard.

Local Open Scope R_scope.

(** The point lies in the closed rectangle. *)
Definition inside (r : QRectF) (p : QPointF) : Prop :=
  rx r <= px p <= rx r + rwidth r /\ ry r <= py p <= ry r + rheight r.

(** The right edge of a rectangle. *)
Definition right_edge (r : QRectF) : R := rx r + rwidth r.

(** The keys of one row with their rectangles, left to right from [x]. *)
Fixpoint row_rects (row : list KeyData) (x y : R)
  : list (KeyData * QRectF) :=
  match row with
  | [] => []
  | key :: rest =>
      (key, {| rx := x; ry := y;
               rwidth := width key * base_key_size;
               rheight := base_key_size |})
      :: row_rects rest (x + (width key * base_key_size + gap)) y
  end.

(** All keys with their rectangles, row by row, each row centred on [cx]. *)
Fixpoint all_rects (rows : Rows) (cx y : R) : list (KeyData * QRectF) :=
  match rows with
  | [] => []
  | row :: rest =>
      row_rects row (cx - row_width row / 2) y
      ++ all_rects rest cx (y + (base_key_size + gap))
  end.

(** Storing drawn keys under their codes, in drawing order. *)
Definition store (d : Dict) (drawn : list (KeyData * QRectF)) : Dict :=
  fold_left (fun acc kr => dict_set acc (code (fst kr)) (snd kr)) drawn d.

(** The rectangle of the key drawn last under a code. *)
Definition drawn_last (k : string) (drawn : list (KeyData * QRectF))
  : option QRectF :=
  option_map snd
    (find (fun kr => String.eqb (code (fst kr)) k) (rev drawn)).

(** [b] is drawn after [a]: further right in the same row with the gap
    between them, or in a lower row. *)
Definition before (a b : KeyData * QRectF) : Prop :=
  (ry (snd b) = ry (snd a)
   /\ rx (snd a) + rwidth (snd a) + gap <= rx (snd b))
  \/ ry (snd a) + (base_key_size + gap) <= ry (snd b).

(** A drawn key at or below [y], of the standard height and of positive
    width. *)
Definition well_shaped (y : R) (kr : KeyData * QRectF) : Prop :=
  y <= ry (snd kr)
  /\ rheight (snd kr) = base_key_size
  /\ 0 < rwidth (snd kr).

(** Every key of every row is wider than nothing. *)
Definition positive_widths (rows : Rows) : Prop :=
  Forall (Forall (fun key => 0 < width key)) rows.

(** A check that no string occurs twice. *)
Fixpoint all_distinct (l : list string) : bool :=
  match l with
  | [] => true
  | x :: rest => negb (existsb (String.eqb x) rest) && all_distinct rest
  end.

(** The codes of all keys, in drawing order. *)
Definition codes (rows : Rows) : list string :=
  map code (List.concat rows).

End KeyboardDescribed.

(** Two keypad records and a widget rectangle used as examples: the record
    the state machine starts with, one that holds the five-row layout, and
    the 1000 x 400 keyboard window. *)
Module KeyboardExamples.

Import Keyboard.

Definition full_keypad : KeypadData :=
  {| active_key := None; rows := layout |}.

Definition keyboard_window : QRectF :=
  {| rx := 0; ry := 0; rwidth := 1000; rheight := 400 |}.

Definition no_key : KeyData * QRectF :=
  (mkKeyData EmptyString EmptyString 0 false,
   {| rx := 0; ry := 0; rwidth := 0; rheight := 0 |}).

End KeyboardExamples.

(* ------------------------------------------------------------------ *)
(** * commands.py                                                      *)
(* ------------------------------------------------------------------ *)

(** The [str] methods that [commands.py] uses, on ASCII text. A string is
    its sequence of characters; on text outside ASCII [str.lower] and
    [str.strip] do more than is written here, and the statements below are
    limited to ASCII text. *)
Module PyStr.

Definition is_ascii (s : string) : bool :=
  forallb (fun c => (nat_of_ascii c <? 128)%nat) (list_ascii_of_string s).

(** [c.isspace()]: tab to carriage return, the four separators, space. *)
Definition is_space (c : ascii) : bool :=
  let n := nat_of_ascii c in
  ((9 <=? n) && (n <=? 13) || (28 <=? n) && (n <=? 32))%nat.

Definition lower_char (c : ascii) : ascii :=
  let n := nat_of_ascii c in
  if ((65 <=? n) && (n <=? 90))%nat then ascii_of_nat (n + 32) else c.

(** [s.lower()] *)
Fixpoint lower (s : string) : string :=
  match s with
  | EmptyString => EmptyString
  | String c rest => String (lower_char c) (lower rest)
  end.

Fixpoint lstrip (s : string) : string :=
  match s with
  | EmptyString => EmptyString
  | String c rest => if is_space c then lstrip rest else s
  end.

Fixpoint rstrip (s : string) : string :=
  match s with
  | EmptyString => EmptyString
  | String c rest =>
      match rstrip rest with
      | EmptyString => if is_space c then EmptyString else String c EmptyString
      | String c' rest' => String c (String c' rest')
      end
  end.

(** [s.strip()] *)
Definition strip (s : string) : string := lstrip (rstrip s).

(** [s.startswith(p)] *)
Definition startswith (s p : string) : bool := String.prefix p s.

(** [s[n:]] *)
Fixpoint drop (n : nat) (s : string) : string :=
  match n, s with
  | O, _ => s
  | S n', EmptyString => EmptyString
  | S n', String _ rest => drop n' rest
  end.

(** [s.replace(old, new, 1)]: the leftmost occurrence only. *)
Fixpoint replace_first (old new s : string) {struct s} : string :=
  if String.prefix old s then (new ++ drop (String.length old) s)%string
  else match s with
       | EmptyString => EmptyString
       | String c rest => String c (replace_first old new rest)
       end.

(** [sub in s] *)
Fixpoint contains (sub s : string) {struct s} : bool :=
  if String.prefix sub s then true
  else match s with
       | EmptyString => false
       | String _ rest => contains sub rest
       end.

End PyStr.

Module Commands.

Import PyStr.

Local Open Scope string_scope.

(** The calls that leave the process. *)
Inductive Effect : Type :=
| Popen (cmd : string)
| Press (key : string)
| Sleep (seconds : R)
| Write (text : string)
| WriteSlowly (text : string) (interval : R)
| OpenBrowser (url : string).

(** What a call of [process] did: the tuple it returned, or [None] when an
    exception left it, and the outside calls it made, the one that raised
    included. *)
Record Run : Type := mkRun {
  outcome : option (string * string);
  effects : list Effect
}.

(** [self.app_map] *)
Definition app_map : list (string * string) :=
  [ ("vscode", "code");
    ("visual studio code", "code");
    ("notepad", "notepad");
    ("calculator", "calc");
    ("chrome", "chrome");
    ("edge", "msedge");
    ("explorer", "explorer");
    ("cmd", "cmd");
    ("terminal", "wt");
    ("settings", "start ms-settings:");
    ("whatsapp", "whatsapp:");
    ("spotify", "spotify:") ].

(** [m[k]] for [k in m], [None] otherwise. *)
Fixpoint lookup (m : list (string * string)) (k : string) : option string :=
  match m with
  | [] => None
  | (k', v) :: rest => if String.eqb k' k then Some v else lookup rest k
  end.

Section Processor.

(** Whether an outside call raises an [Exception]. [time.sleep] does not. *)
Variable raises : Effect -> bool.

(** The statements of a [try] block, one outside call each: the calls made
    and whether one of them raised (the later ones are then not made). *)
Fixpoint attempt (calls : list Effect) : list Effect * bool :=
  match calls with
  | [] => ([], false)
  | c :: rest =>
      if raises c then ([c], true)
      else let (made, raised) := attempt rest in (c :: made, raised)
  end.

Definition _open_app (app_name : string) : Run :=
  match lookup app_map app_name with
  | Some cmd =>
      let (made, raised) := attempt [Popen cmd] in
      if raised
      then {| outcome := Some ("error", "Failed to open " ++ app_name);
              effects := made |}
      else {| outcome := Some ("opened", "Opening " ++ app_name ++ "...");
              effects := made |}
  | None =>
      let (made, raised) :=
        attempt [Press "win"; Sleep 0.2; Write app_name; Sleep 0.5;
                 Press "enter"] in
      if raised
      then {| outcome := Some ("error", "Could not find " ++ app_name);
              effects := made |}
      else {| outcome :=
                Some ("opened", "Searching & Opening " ++ app_name ++ "...");
              effects := made |}
  end.

Definition _web_search (query : string) : Run :=
  let url := "https://www.google.com/search?q=" ++ query in
  if raises (OpenBrowser url)
  then {| outcome := None; effects := [OpenBrowser url] |}
  else {| outcome := Some ("searched", "Searching: " ++ query);
          effects := [OpenBrowser url] |}.

Definition type_text (text : string) : Run :=
  if raises (WriteSlowly text 0.01)
  then {| outcome := None; effects := [WriteSlowly text 0.01] |}
  else {| outcome := Some ("typed", "Typed: " ++ text);
          effects := [WriteSlowly text 0.01] |}.

(** [CommandProcessor.process] *)
Definition process (text : string) : Run :=
  let text := strip (lower text) in
  if startswith text "open " then
    let app_name := strip (drop 5 text) in
    _open_app app_name
  else if startswith text "search " || startswith text "google " then
    let query :=
      strip (replace_first "google " "" (replace_first "search " "" text)) in
    _web_search query
  else if startswith text "type " || startswith text "write " then
    let content :=
      replace_first "write " "" (replace_first "type " "" text) in
    type_text content
  else if contains "keypad" text then
    {| outcome := Some ("keypad", "Opening Keypad..."); effects := [] |}
  else
    {| outcome := Some ("recognized", "Heard: " ++ text); effects := [] |}.

End Processor.

End Commands.

(* ------------------------------------------------------------------ *)
(** * main.py and the mouse handler of overlay_window.py               *)
(* ------------------------------------------------------------------ *)

Module Main.

Import Commands.

Local Open Scope string_scope.

(** [OverlayWindow.start_listening], [show_keypad], [return_to_idle] and
    [update_keypad]. *)
Definition start_listening (w : Window.OverlayWindow Z)
  : Window.OverlayWindow Z := set_listening (Fin 0) w.

Definition show_keypad (active : option string) (w : Window.OverlayWindow Z)
  : Window.OverlayWindow Z := set_keypad active w.

Definition return_to_idle (w : Window.OverlayWindow Z)
  : Window.OverlayWindow Z := set_idle w.

Definition window_update_keypad (active : option string)
                                (w : Window.OverlayWindow Z)
  : Window.OverlayWindow Z := update_keypad active w.

(** [AirVoiceOverlay] with what belongs to its window: the overlay, the
    single-shot reset timer ([Some ms] while active), the outside calls
    made so far, the dictionary of key rectangles held by the keypad
    renderer, the emissions of [key_pressed], and the number of pending
    150 ms single shots that clear the highlighted key. *)
Record App : Type := mkApp {
  overlay : Window.OverlayWindow Z;
  reset_timer : option Z;
  performed : list Effect;
  _key_rects : Keyboard.Dict;
  key_pressed : list string;
  pending_clears : nat
}.

Definition with_overlay (a : App) (w : Window.OverlayWindow Z)
                        (timer : option Z) (done : list Effect) : App :=
  {| overlay := w; reset_timer := timer;
     performed := performed a ++ done;
     _key_rects := _key_rects a; key_pressed := key_pressed a;
     pending_clears := pending_clears a |}.

(** [special_map] of [_on_key_pressed]. *)
Definition special_map : list (string * option string) :=
  [ ("space", Some "space");
    ("enter", Some "enter");
    ("backspace", Some "backspace");
    ("tab", Some "tab");
    ("capslock", Some "capslock");
    ("shift", Some "shift");
    ("ctrl", Some "ctrl");
    ("win", Some "win");
    ("alt", Some "alt");
    ("fn", None) ].

Fixpoint special (m : list (string * option string)) (k : string)
  : option (option string) :=
  match m with
  | [] => None
  | (k', v) :: rest => if String.eqb k' k then Some v else special rest k
  end.

Section Handlers.

Variable raises : Effect -> bool.

(** [_on_listening_started] and [_return_to_listening] *)
Definition _on_listening_started (a : App) : App :=
  with_overlay a (start_listening (overlay a)) (reset_timer a) [].

Definition _return_to_listening (a : App) : App :=
  with_overlay a (start_listening (overlay a)) (reset_timer a) [].

(** The [timeout] of the single-shot [reset_timer]. *)
Definition reset_timer_timeout (a : App) : App :=
  match reset_timer a with
  | None => a
  | Some _ => _return_to_listening (with_overlay a (overlay a) None [])
  end.

(** [_on_text_recognized]; the second component tells whether an exception
    left the handler. *)
Definition _on_text_recognized (text : string) (a : App) : App * bool :=
  let run := process raises text in
  match outcome run with
  | None => (with_overlay a (overlay a) (reset_timer a) (effects run), true)
  | Some (action, feedback) =>
      if String.eqb action "keypad"
      then (with_overlay a (show_keypad None (overlay a)) (reset_timer a)
              (effects run), false)
      else (with_overlay a (Window.show_action feedback None (overlay a))
              (Some 3000%Z) (effects run), false)
  end.

(** [_on_key_pressed] *)
Definition _on_key_pressed (key : string) (a : App) : App * bool :=
  if String.eqb key "C"
  then (with_overlay a (return_to_idle (overlay a)) (Some 100%Z) [], false)
  else
    match special special_map key with
    | Some mapped =>
        match mapped with
        | Some (String c rest) =>
            (with_overlay a (overlay a) (reset_timer a)
               [Press (String c rest)],
             raises (Press (String c rest)))
        | _ => (with_overlay a (overlay a) (reset_timer a) [], false)
        end
    | None =>
        let run := type_text raises key in
        (with_overlay a (overlay a) (reset_timer a) (effects run),
         match outcome run with None => true | Some _ => false end)
    end.

End Handlers.

(** [OverlayWindow.mousePressEvent] for a press at [pos]; the emission of
    [key_pressed] is recorded, its slot is [_on_key_pressed]. *)
Definition mousePressEvent (pos : Keyboard.QPointF) (a : App) : App :=
  if negb (state_eqb (state (sm (overlay a))) KEYPAD) then a
  else
    match Keyboard.hit_test (_key_rects a) pos with
    | Some (String c rest) =>
        {| overlay := window_update_keypad (Some (String c rest)) (overlay a);
           reset_timer := reset_timer a;
           performed := performed a;
           _key_rects := _key_rects a;
           key_pressed := key_pressed a ++ [String c rest];
           pending_clears := S (pending_clears a) |}
    | _ => a
    end.

(** One pending [QTimer.singleShot(150, ...)] fires:
    [update_keypad(None)]. *)
Definition clear_highlight (a : App) : App :=
  match pending_clears a with
  | O => a
  | S n =>
      {| overlay := window_update_keypad None (overlay a);
         reset_timer := reset_timer a;
         performed := performed a;
         _key_rects := _key_rects a;
         key_pressed := key_pressed a;
         pending_clears := n |}
  end.

End Main.

(** Two applications used as examples: one just started, and one that
    shows the keypad after the renderer has painted the keys of the record
    the state machine starts with into the 1000 x 400 window. *)
Module MainExamples.

Import Main.

Local Open Scope string_scope.

(** The keys of the keypad that stand for a key of the real keyboard and
    not for a character. *)
Definition named_keys : list string :=
  [ "space"; "enter"; "backspace"; "tab"; "capslock";
    "shift"; "ctrl"; "win"; "alt" ].

Definition started_app : App :=
  {| overlay := Window.OverlayWindow_new Z Window.OverlayConfig_default;
     reset_timer := None;
     performed := [];
     _key_rects := [];
     key_pressed := [];
     pending_clears := 0 |}.

Definition keypad_app : App :=
  {| overlay := show_keypad None
                  (Window.OverlayWindow_new Z Window.OverlayConfig_default);
     reset_timer := None;
     performed := [];
     _key_rects :=
       Keyboard.key_rects
         (snd (Keyboard.render KeypadData_default
                 KeyboardExamples.keyboard_window));
     key_pressed := [];
     pending_clears := 0 |}.

End MainExamples.

(* ------------------------------------------------------------------ *)
(** * voice_input.py: starting and stopping the worker                 *)
(* ------------------------------------------------------------------ *)

Module Worker.

Inductive LifeSignal : Type := listening_started | listening_ended.

(** The flags of [VoiceInputWorker], the number of capture threads it has
    started, and its emissions of [listening_started] and
    [listening_ended]. What the threads do is not part of this record. *)
Record VoiceWorker : Type := mkWorker {
  _is_running : bool;
  _stop_event : bool;
  threads_started : nat;
  life : list LifeSignal
}.

(** [VoiceInputWorker.__init__] *)
Definition worker_new : VoiceWorker :=
  {| _is_running := false; _stop_event := false;
     threads_started := 0; life := [] |}.

(** [VoiceInputWorker.start] *)
Definition start (self : VoiceWorker) : VoiceWorker :=
  if _is_running self then self
  else {| _is_running := true;
          _stop_event := false;
          threads_started := S (threads_started self);
          life := life self ++ [listening_started] |}.

(** [VoiceInputWorker.stop] *)
Definition stop (self : VoiceWorker) : VoiceWorker :=
  {| _is_running := false;
     _stop_event := true;
     threads_started := threads_started self;
     life := life self ++ [listening_ended] |}.

Definition is_started (s : LifeSignal) : bool :=
  match s with
  | listening_started => true
  | listening_ended => false
  end.

Inductive Command : Type := Start | Stop.

Definition obey (self : VoiceWorker) (c : Command) : VoiceWorker :=
  match c with
  | Start => start self
  | Stop => stop self
  end.

(** A sequence of calls on a new worker. *)
Definition after (commands : list Command) : VoiceWorker :=
  fold_left obey commands worker_new.

End Worker.

(* ------------------------------------------------------------------ *)
(** * phase_renderer.py: the processing ring                           *)
(* ------------------------------------------------------------------ *)

Module Ring.

Local Open Scope R_scope.

(** [x % m] on floats: the remainder of the floored division. *)
Definition py_fmod (x m : R) : R := x - m * IZR (Int_part (x / m)).

Record ProcessingRenderer : Type := mkRing {
  _rotation : R;
  _color_phase : R
}.

(** [ProcessingRenderer.__init__] *)
Definition ring_new : ProcessingRenderer :=
  {| _rotation := 0; _color_phase := 0 |}.

(** [ProcessingRenderer.update] *)
Definition update (self : ProcessingRenderer) (delta_ms : Z)
  : ProcessingRenderer :=
  {| _rotation := py_fmod (_rotation self + IZR delta_ms * 0.1) 360;
     _color_phase := py_fmod (_color_phase self + IZR delta_ms * 0.001) 1 |}.

(** A new ring after one [update] per timer step. *)
Definition run (deltas : list Z) : ProcessingRenderer :=
  fold_left update deltas ring_new.

(** The colour [render] draws the ring in, before its alpha is set. *)
Definition current_color (self : ProcessingRenderer)
                         (color1 color2 : Animations.QColor)
  : option Animations.QColor :=
  Animations.interpolate_color color1 color2 (Fin (_color_phase self)).

End Ring.

(** Reference descriptions for the capture loop. *)
Module LoopDescribed.

Import VoiceInput.

(** The blocks of the loop as segmenter inputs, each with its own level. *)
Definition ticks_of (blocks : list (Frame * R)) : list Tick :=
  map (fun b => (fst b, rms_of (fst b), snd b)) blocks.

(** The request [_process_speech] sends for a buffer. *)
Definition request_for (rate : Z) (buffer : list Frame) : AudioData :=
  {| frame_data := tobytes (List.concat buffer);
     sample_rate := rate;
     sample_width := 2 |}.

Definition is_level (s : Signal) : bool :=
  match s with
  | audio_level_changed _ => true
  | _ => false
  end.

End LoopDescribed.

(* ------------------------------------------------------------------ *)
(** * state_machine.py: listeners that act on the machine              *)
(* ------------------------------------------------------------------ *)

(** In [StateMachine] a callback acts on a store outside the machine. Here
    a callback is any Python callable: it receives the two states and may
    do anything to the machine it is registered on, [add_listener] and
    [remove_listener] included, before it returns or raises. The loop of
    [_notify_listeners] is the [for] statement over [self._listeners]
    itself, not over a copy: its iterator holds an index into the list and
    reads the list as the callbacks have left it. The list is only ever
    changed in place, by [append] and [remove]: nothing assigns
    [_listeners] after [__init__]. *)
Module LiveMachine.

(** How a call of a listener ends: it returns; it raises an [Exception],
    whose text is [e]; or it ends in an exception that leaves the loop: a
    [BaseException] outside [Exception] such as [KeyboardInterrupt] or
    [SystemExit], which [except Exception] does not catch, or an
    [Exception] on which the handler itself fails because its text cannot
    be formatted or printed. *)
Inductive Outcome : Type :=
| Returned
| Raised (e : string)
| Uncaught.

Section Live.

Variable Landmark : Type.
Variable World : Type.

(** The attributes of [OverlayStateMachine]; a registered callback is held
    by its identity, which is what [in] and [list.remove] compare. *)
Record Machine : Type := mkLive {
  _state : OverlayState;
  _previous_state : OverlayState;
  _listeners : list nat;
  action_data : ActionData;
  gesture_data : GestureData Landmark;
  keypad_data : KeypadData;
  audio_level : pyfloat
}.

(** The machine, what else the callbacks can reach, and the output. *)
Record Store : Type := mkStore {
  machine : Machine;
  world : World;
  stdout : list string
}.

(** A callable registered as listener: the effect of one call. When the
    callback itself calls a [set_*] operation, the notifications made
    inside that call are part of its effect. *)
Definition Callback : Type :=
  OverlayState -> OverlayState -> Store -> Store * Outcome.

(** What calling the callback with a given identity does. *)
Variable callable : nat -> Callback.

(** [OverlayStateMachine.__init__] *)
Definition init : Machine :=
  {| _state := IDLE;
     _previous_state := IDLE;
     _listeners := [];
     action_data := ActionData_default;
     gesture_data := GestureData_default Landmark;
     keypad_data := KeypadData_default;
     audio_level := Fin 0 |}.

Definition with_machine (s : Store) (m : Machine) : Store :=
  {| machine := m; world := world s; stdout := stdout s |}.

Definition with_listeners (m : Machine) (ls : list nat) : Machine :=
  {| _state := _state m; _previous_state := _previous_state m;
     _listeners := ls;
     action_data := action_data m; gesture_data := gesture_data m;
     keypad_data := keypad_data m; audio_level := audio_level m |}.

(** [self._listeners.append(callback)] *)
Definition add_listener (callback : nat) (s : Store) : Store :=
  with_machine s
    (with_listeners (machine s) (_listeners (machine s) ++ [callback])).

(** [list.remove]: the first equal element goes; the list is unchanged
    when there is none, which is the case the [in] test guards. *)
Fixpoint remove_first (callback : nat) (ls : list nat) : list nat :=
  match ls with
  | [] => []
  | l :: rest =>
      if Nat.eqb l callback then rest else l :: remove_first callback rest
  end.

Definition remove_listener (callback : nat) (s : Store) : Store :=
  with_machine s
    (with_listeners (machine s)
       (remove_first callback (_listeners (machine s)))).

Definition print (line : string) (s : Store) : Store :=
  {| machine := machine s; world := world s; stdout := stdout s ++ [line] |}.

(** How a notification round ends: the loop ran to its end, an exception
    left it, or the steps allowed did not suffice (a round need not end:
    a callback may register a listener each time it is called). *)
Inductive Round : Type :=
| Completed (s : Store)
| Propagated (s : Store)
| OutOfFuel.

(** The [for] loop of [_notify_listeners] with its iterator at index [i]:
    the iterator stops when [i] is not an index of the list as it is now,
    and otherwise hands out the element at [i] and moves on. The second
    component lists the calls made, in order. *)
Fixpoint notify_from (fuel i : nat) (old_state new_state : OverlayState)
                     (s : Store) : Round * list Call :=
  match fuel with
  | O => (OutOfFuel, [])
  | S fuel' =>
      match nth_error (_listeners (machine s)) i with
      | None => (Completed s, [])
      | Some listener =>
          let invocation := (listener, old_state, new_state) in
          match callable listener old_state new_state s with
          | (s1, Returned) =>
              let (r, later) :=
                notify_from fuel' (S i) old_state new_state s1 in
              (r, invocation :: later)
          | (s1, Raised e) =>
              let (r, later) :=
                notify_from fuel' (S i) old_state new_state
                  (print ("Error in state listener: " ++ e)%string s1) in
              (r, invocation :: later)
          | (s1, Uncaught) => (Propagated s1, [invocation])
          end
      end
  end.

Definition _notify_listeners (fuel : nat) (old_state new_state : OverlayState)
                             (s : Store) : Round * list Call :=
  notify_from fuel 0 old_state new_state s.

(** The two assignments of [transition_to]. *)
Definition enter (new_state : OverlayState) (m : Machine) : Machine :=
  {| _state := new_state; _previous_state := _state m;
     _listeners := _listeners m;
     action_data := action_data m; gesture_data := gesture_data m;
     keypad_data := keypad_data m; audio_level := audio_level m |}.

Definition transition_to (fuel : nat) (new_state : OverlayState) (s : Store)
  : Round * list Call :=
  if state_eqb new_state (_state (machine s)) then (Completed s, [])
  else
    let m' := enter new_state (machine s) in
    _notify_listeners fuel (_previous_state m') (_state m')
      (with_machine s m').

Definition set_idle (fuel : nat) (s : Store) : Round * list Call :=
  transition_to fuel IDLE s.

Definition set_listening (fuel : nat) (level : pyfloat) (s : Store)
  : Round * list Call :=
  let m := machine s in
  transition_to fuel LISTENING
    (with_machine s
       {| _state := _state m; _previous_state := _previous_state m;
          _listeners := _listeners m;
          action_data := action_data m; gesture_data := gesture_data m;
          keypad_data := keypad_data m; audio_level := level |}).

Definition set_processing (fuel : nat) (s : Store) : Round * list Call :=
  transition_to fuel PROCESSING s.

Definition set_action (fuel : nat) (msg : string) (icon_arg : option string)
                      (s : Store) : Round * list Call :=
  let m := machine s in
  transition_to fuel ACTION
    (with_machine s
       {| _state := _state m; _previous_state := _previous_state m;
          _listeners := _listeners m;
          action_data := {| message := msg; icon := icon_arg |};
          gesture_data := gesture_data m;
          keypad_data := keypad_data m; audio_level := audio_level m |}).

Definition set_gesture (fuel : nat) (landmarks : option (list Landmark))
                       (finger : option Z) (hover : option string)
                       (s : Store) : Round * list Call :=
  let m := machine s in
  transition_to fuel GESTURE
    (with_machine s
       {| _state := _state m; _previous_state := _previous_state m;
          _listeners := _listeners m;
          action_data := action_data m;
          gesture_data := {| hand_landmarks := or_empty landmarks;
                             active_finger := finger;
                             hover_key := hover |};
          keypad_data := keypad_data m; audio_level := audio_level m |}).

Definition set_keypad (fuel : nat) (k : option string) (s : Store)
  : Round * list Call :=
  let m := machine s in
  transition_to fuel KEYPAD
    (with_machine s
       {| _state := _state m; _previous_state := _previous_state m;
          _listeners := _listeners m;
          action_data := action_data m; gesture_data := gesture_data m;
          keypad_data := {| active_key := k;
                            rows := rows (keypad_data m) |};
          audio_level := audio_level m |}).

(** One operation after another: an exception that left the first one
    leaves the caller's sequence too. *)
Definition and_then (first : Round * list Call)
                    (next : Store -> Round * list Call)
  : Round * list Call :=
  match first with
  | (Completed s, made) =>
      let (r, later) := next s in (r, made ++ later)
  | other => other
  end.

End Live.

End LiveMachine.

(** Reference descriptions for the notification round. *)
Module LiveDescribed.

Import LiveMachine.

Section LiveDescribed.

Variable Landmark : Type.
Variable World : Type.
Variable callable : nat -> Callback Landmark World.

(** The callback leaves the list of listeners as it finds it. *)
Definition keeps_listeners (id : nat) : Prop :=
  forall old_state new_state (s : Store Landmark World),
    _listeners (machine (fst (callable id old_state new_state s)))
    = _listeners (machine s).

(** The callback leaves the whole machine as it finds it. *)
Definition keeps_machine (id : nat) : Prop :=
  forall old_state new_state (s : Store Landmark World),
    machine (fst (callable id old_state new_state s)) = machine s.

(** The callback returns or raises an [Exception]. *)
Definition is_caught (id : nat) : Prop :=
  forall old_state new_state (s : Store Landmark World),
    snd (callable id old_state new_state s) <> Uncaught.

(** One listener called and, when it raised, the message printed. *)
Definition handled (r : Store Landmark World * Outcome)
  : Store Landmark World :=
  match snd r with
  | Raised e => print ("Error in state listener: " ++ e)%string (fst r)
  | _ => fst r
  end.

(** Every listener of a list called once, in order, raising or not. *)
Definition each_in_turn (old_state new_state : OverlayState)
                        (ls : list nat) (s : Store Landmark World)
  : Store Landmark World :=
  fold_left (fun acc id => handled (callable id old_state new_state acc))
            ls s.

(** The calls a round owes: every listener once, in registration order,
    with the same pair of states. *)
Definition owed (old_state new_state : OverlayState) (ls : list nat)
  : list Call :=
  map (fun id => (id, old_state, new_state)) ls.

(** The store when the round starts. *)
Definition entered (new_state : OverlayState) (s : Store Landmark World)
  : Store Landmark World :=
  with_machine s (enter new_state (machine s)).

(** A listener of [StateMachine] as a callable: it acts on the store
    outside the machine and on nothing else. *)
Definition outside (l : Listener World) : Callback Landmark World :=
  fun old_state new_state s =>
    let (w, raised) := call l old_state new_state (world s) in
    ({| machine := machine s; world := w; stdout := stdout s |},
     match raised with
     | Some e => Raised e
     | None => Returned
     end).

(** A system of [StateMachine] as a store, its listeners held by their
    identities. *)
Definition live_of (s : Sys Landmark World) : Store Landmark World :=
  {| machine :=
       {| _state := StateMachine._state (sm s);
          _previous_state := StateMachine._previous_state (sm s);
          _listeners := map (@listener_id World)
                            (StateMachine._listeners (sm s));
          action_data := StateMachine.action_data (sm s);
          gesture_data := StateMachine.gesture_data (sm s);
          keypad_data := StateMachine.keypad_data (sm s);
          audio_level := StateMachine.audio_level (sm s) |};
     world := StateMachine.world s;
     stdout := StateMachine.stdout s |}.

End LiveDescribed.

(** Four callbacks: 0 raises on every call, 1 counts its calls in the
    store, 2 unregisters itself when it is called, and any other is
    interrupted ([KeyboardInterrupt]) while it runs. *)
Definition example_callable (id : nat) : Callback Z nat :=
  fun _ _ s =>
    match id with
    | 0 => (s, Raised "boom")
    | 1 => ({| machine := machine s; world := S (world s);
               stdout := stdout s |}, Returned)
    | 2 => (remove_listener 2 s, Returned)
    | _ => (s, Uncaught)
    end.

Definition new_store : Store Z nat :=
  {| machine := init Z; world := 0; stdout := [] |}.

(** Scenario D: the raising listener registered before the counting one,
    then three transitions. *)
Definition live_D_start : Store Z nat :=
  add_listener 1 (add_listener 0 new_store).

Definition live_D : Round Z nat * list Call :=
  and_then
    (and_then (set_listening example_callable 3 (Fin 0) live_D_start)
              (set_processing example_callable 3))
    (set_idle example_callable 3).

(** A listener that unregisters itself, registered before the counting
    listener; and a listener that is interrupted, registered before it. *)
Definition leaving_first : Store Z nat :=
  add_listener 1 (add_listener 2 new_store).

Definition interrupted_first : Store Z nat :=
  add_listener 1 (add_listener 3 new_store).

(** The listener that unregisters itself between the raising listener and
    the counting one, with the raising listener registered once more at
    the end. *)
Definition leaving_between : Store Z nat :=
  add_listener 0
    (add_listener 1 (add_listener 2 (add_listener 0 new_store))).

End LiveDescribed.

(* ------------------------------------------------------------------ *)
(** * Reference descriptions used by the statements                    *)
(* ------------------------------------------------------------------ *)

Module Described.

Section Described.

Variable Landmark : Type.
Variable World : Type.

(** The invocations a notification owes: every listener once, in
    registration order, with the same pair of states. *)
Definition invocations (old_state new_state : OverlayState)
                       (ls : list (Listener World)) : list Call :=
  map (fun l => (listener_id l, old_state, new_state)) ls.

(** The store after every listener has run in turn, raising or not. *)
Definition stores (old_state new_state : OverlayState)
                  (ls : list (Listener World)) (w : World) : World :=
  fold_left (fun acc l => fst (call l old_state new_state acc)) ls w.

(** The lines printed: one for each listener that raised, in order. *)
Fixpoint error_lines (old_state new_state : OverlayState)
                     (ls : list (Listener World)) (w : World) : list string :=
  match ls with
  | [] => []
  | l :: rest =>
      let (w', outcome) := call l old_state new_state w in
      match outcome with
      | Some e => ("Error in state listener: " ++ e)%string
                  :: error_lines old_state new_state rest w'
      | None => error_lines old_state new_state rest w'
      end
  end.

(** What a [set_*] operation writes before it asks for the transition. *)
Definition payload_write (o : Op Landmark World)
                         (s : Sys Landmark World) : Sys Landmark World :=
  match o with
  | OpSetListening level => set_audio_level level s
  | OpSetAction msg i => set_action_data {| message := msg; icon := i |} s
  | OpSetGesture l f h =>
      set_gesture_data
        {| hand_landmarks := or_empty l; active_finger := f; hover_key := h |} s
  | OpSetKeypad k => set_active_key k s
  | _ => s
  end.

End Described.

(** Scenario D: a listener that raises on every call, registered before a
    listener that counts its calls in the store. *)
Definition raising_listener : Listener nat :=
  {| listener_id := 0; call := fun _ _ n => (n, Some "boom"%string) |}.

Definition counting_listener : Listener nat :=
  {| listener_id := 1; call := fun _ _ n => (S n, None) |}.

Definition fresh (World : Type) (w : World) : Sys Z World :=
  {| sm := init Z World; world := w; stdout := []; calls := [] |}.

Definition scenario_D_start : Sys Z nat :=
  add_listener counting_listener (add_listener raising_listener (fresh 0%nat)).

Definition scenario_D : Sys Z nat :=
  set_idle (set_processing (set_listening (Fin 0) scenario_D_start)).

(** A machine that entered Action with a first message. *)
Definition showing_toast : Sys Z unit :=
  set_action "Opening Chrome..." None (fresh tt).

(** A machine in Gesture with two landmarks, a finger and a hovered key. *)
Definition tracking_hand : Sys Z unit :=
  set_gesture (Some [1%Z; 2%Z]) (Some 1%Z) (Some "a"%string) (fresh tt).

(** A window in audio-only mode that is asked to show a toast. *)
Definition audio_only_window : Window.OverlayWindow Z :=
  Window.set_accessibility_mode Window.AUDIO_ONLY
    (Window.OverlayWindow_new Z Window.OverlayConfig_default).

(** Scenario B up to the toast: a default window that starts listening and
    then shows "Opening Chrome...". *)
Definition scenario_B : Window.OverlayWindow Z :=
  Window.show_action "Opening Chrome..." None
    (set_listening (Fin 0)
       (Window.OverlayWindow_new Z Window.OverlayConfig_default)).

(** The blocks of a stream, in order. *)
Definition frames_of (stream : list VoiceInput.Tick) : list VoiceInput.Frame :=
  map (fun tk => fst (fst tk)) stream.

Definition rms_at (tk : VoiceInput.Tick) : pyfloat := snd (fst tk).
Definition clock_at (tk : VoiceInput.Tick) : R := snd tk.

(** The root-mean-square of the samples scaled to [-1, 1], as the
    specification words it. *)
Definition rms_value (data : VoiceInput.Frame) : R :=
  sqrt (VoiceInput.sum (map (fun x => (IZR x / 32768) ^ 2)%R data) / INR (List.length data)).

(** Scenario A. Two blocks of 15625 samples (the block size is an
    argument of the worker's constructor): the root-mean-square of the
    first is 0.05 (625 samples at a quarter of full scale), that of the
    second is 0.001 (one sample at an eighth of full scale). Block [i] is
    dequeued at [i * 16 ms]; five loud blocks are followed by [n] quiet
    ones. *)
Definition loud_block : VoiceInput.Frame :=
  repeat 8192%Z (25 * 25) ++ repeat 0%Z (120 * 125).

Definition quiet_block : VoiceInput.Frame :=
  4096%Z :: repeat 0%Z (124 * 126).

Definition block_at (data : VoiceInput.Frame) (i : nat)
  : VoiceInput.Frame * R :=
  (data, (IZR (Z.of_nat i) * 0.016)%R).

Definition scenario_A (n : nat) : list (VoiceInput.Frame * R) :=
  map (block_at loud_block) (seq 0 5) ++ map (block_at quiet_block) (seq 5 n).

(** Silence that lasts exactly the three seconds of [silence_duration]:
    a loud block at 0 s, quiet blocks at 1 s and at 4 s. *)
Definition exact_silence : list (VoiceInput.Frame * R) :=
  [ (loud_block, 0%R); (quiet_block, 1%R); (quiet_block, 4%R) ].

(** A recogniser that understands everything as "hello". *)
Definition hears_hello (audio : VoiceInput.AudioData)
  : VoiceInput.Recognition :=
  VoiceInput.Returns "hello".

(** The invariant of the VAD variables: outside speech the buffer is empty
    and no silence timer is set; during speech the buffer is not empty. *)
Definition vad_invariant (st : VoiceInput.Vad) : Prop :=
  (VoiceInput.is_speaking st = false ->
     VoiceInput.speech_buffer st = [] /\ VoiceInput.silence_start_time st = None)
  /\ (VoiceInput.is_speaking st = true -> VoiceInput.speech_buffer st <> []).

End Described.
Import Described.

(* ================================================================== *)
(** * Properties of the state machine                                  *)
(* ================================================================== *)

Unset Implicit Arguments.

Module MachineFacts.

Lemma state_eqb_refl : forall a, state_eqb a a = true.
Proof.
  intros a. unfold state_eqb.
  destruct (OverlayState_eq_dec a a); congruence.
Qed.

Lemma state_eqb_neq : forall a b, a <> b -> state_eqb a b = false.
Proof.
  intros a b Hab. unfold state_eqb.
  destruct (OverlayState_eq_dec a b); congruence.
Qed.

Section Facts.

Variable Landmark : Type.
Variable World : Type.

Implicit Types (s : Sys Landmark World) (ls : list (Listener World)).

(** ** The notification loop *)

Lemma notify_sm : forall ls old new s,
  sm (fold_left (notify_one old new) ls s) = sm s.
Proof.
  induction ls as [|l rest IH]; intros old new s; simpl.
  - reflexivity.
  - rewrite IH. unfold notify_one.
    destruct (call l old new (world s)); reflexivity.
Qed.

Lemma notify_calls : forall ls old new s,
  calls (fold_left (notify_one old new) ls s)
  = calls s ++ invocations old new ls.
Proof.
  induction ls as [|l rest IH]; intros old new s; simpl.
  - now rewrite app_nil_r.
  - rewrite IH. unfold notify_one.
    destruct (call l old new (world s)); simpl.
    now rewrite <- app_assoc.
Qed.

Lemma notify_world : forall ls old new s,
  world (fold_left (notify_one old new) ls s)
  = stores old new ls (world s).
Proof.
  induction ls as [|l rest IH]; intros old new s; simpl.
  - reflexivity.
  - rewrite IH. unfold notify_one.
    destruct (call l old new (world s)); reflexivity.
Qed.

Lemma notify_stdout : forall ls old new s,
  stdout (fold_left (notify_one old new) ls s)
  = stdout s ++ error_lines old new ls (world s).
Proof.
  induction ls as [|l rest IH]; intros old new s; simpl.
  - now rewrite app_nil_r.
  - rewrite IH. unfold notify_one.
    destruct (call l old new (world s)) as [w [e|]]; simpl.
    + now rewrite <- app_assoc.
    + reflexivity.
Qed.

(** ** The two branches of [transition_to] *)

Lemma transition_to_same : forall s t,
  _state (sm s) = t -> transition_to t s = s.
Proof.
  intros s t <-. unfold transition_to.
  now rewrite state_eqb_refl.
Qed.

Lemma transition_to_sm : forall s t,
  t <> _state (sm s) ->
  sm (transition_to t s)
  = {| _state := t; _previous_state := _state (sm s);
       _listeners := _listeners (sm s);
       action_data := action_data (sm s);
       gesture_data := gesture_data (sm s);
       keypad_data := keypad_data (sm s);
       audio_level := audio_level (sm s) |}.
Proof.
  intros s t Hne. unfold transition_to.
  rewrite (state_eqb_neq _ _ Hne). unfold _notify_listeners.
  now rewrite notify_sm.
Qed.

Lemma transition_to_calls : forall s t,
  t <> _state (sm s) ->
  calls (transition_to t s)
  = calls s ++ invocations (_state (sm s)) t (_listeners (sm s)).
Proof.
  intros s t Hne. unfold transition_to.
  rewrite (state_eqb_neq _ _ Hne). unfold _notify_listeners.
  now rewrite notify_calls.
Qed.

Lemma transition_to_world : forall s t,
  t <> _state (sm s) ->
  world (transition_to t s)
  = stores (_state (sm s)) t (_listeners (sm s)) (world s).
Proof.
  intros s t Hne. unfold transition_to.
  rewrite (state_eqb_neq _ _ Hne). unfold _notify_listeners.
  now rewrite notify_world.
Qed.

Lemma transition_to_stdout : forall s t,
  t <> _state (sm s) ->
  stdout (transition_to t s)
  = stdout s ++ error_lines (_state (sm s)) t (_listeners (sm s)) (world s).
Proof.
  intros s t Hne. unfold transition_to.
  rewrite (state_eqb_neq _ _ Hne). unfold _notify_listeners.
  now rewrite notify_stdout.
Qed.

(** Whatever was asked, a transition leaves the payload records alone. *)
Lemma transition_to_payload : forall s t,
  action_data (sm (transition_to t s)) = action_data (sm s)
  /\ gesture_data (sm (transition_to t s)) = gesture_data (sm s)
  /\ keypad_data (sm (transition_to t s)) = keypad_data (sm s)
  /\ audio_level (sm (transition_to t s)) = audio_level (sm s)
  /\ _listeners (sm (transition_to t s)) = _listeners (sm s).
Proof.
  intros s t.
  destruct (OverlayState_eq_dec t (_state (sm s))) as [He|Hne].
  - rewrite transition_to_same by congruence. repeat split.
  - rewrite (transition_to_sm _ _ Hne). repeat split.
Qed.

(** ** Clamping in [update_audio_level] *)

Lemma clamp_in_unit : forall x, (0 <= clamp x 0 1 <= 1)%R.
Proof.
  intros x. unfold clamp.
  destruct (Rlt_dec x 0); [lra|].
  destruct (Rlt_dec 1 x); lra.
Qed.

Lemma py_clamp_fin : forall x,
  py_max (Fin 0) (py_min (Fin 1) (Fin x)) = Fin (clamp x 0 1).
Proof.
  intros x. unfold py_max, py_min, gtb, ltb, clamp.
  destruct (Rlt_dec x 1) as [H1|H1].
  - destruct (Rlt_dec 0 x) as [H0|H0];
      destruct (Rlt_dec x 0); destruct (Rlt_dec 1 x); try lra; try reflexivity.
    f_equal; lra.
  - destruct (Rlt_dec 0 1) as [_|H]; [|lra].
    destruct (Rlt_dec x 0); [lra|].
    destruct (Rlt_dec 1 x); [reflexivity|]. f_equal; lra.
Qed.

Lemma py_clamp_nan : py_max (Fin 0) (py_min (Fin 1) NaN) = Fin 1.
Proof.
  unfold py_max, py_min, gtb, ltb.
  destruct (Rlt_dec 0 1); [reflexivity|lra].
Qed.

Lemma update_audio_level_stores_clamp : forall s x,
  audio_level (sm (update_audio_level (Fin x) s)) = Fin (clamp x 0 1).
Proof. intros s x. unfold update_audio_level. simpl. apply py_clamp_fin. Qed.

Lemma update_audio_level_in_unit : forall s level,
  in_unit (audio_level (sm (update_audio_level level s))).
Proof.
  intros s [|x]; unfold update_audio_level; simpl.
  - rewrite py_clamp_nan. simpl. lra.
  - rewrite py_clamp_fin. simpl. apply clamp_in_unit.
Qed.

(** Reads the payload records through a pending [transition_to]. *)
Ltac through_transition :=
  unfold set_idle, set_listening, set_processing, set_action, set_gesture,
         set_keypad;
  match goal with
  | |- context [transition_to ?t ?x] =>
      let Ha := fresh in let Hg := fresh in let Hk := fresh in
      let Hv := fresh in let Hl := fresh in
      destruct (transition_to_payload x t) as (Ha & Hg & Hk & Hv & Hl);
      rewrite ?Ha, ?Hg, ?Hk, ?Hv, ?Hl
  end.

(** Every public operation except [set_listening] keeps a level that is
    already in the unit interval there. *)
Lemma exec_keeps_level_in_unit : forall (o : Op Landmark World) s,
  in_unit (audio_level (sm s)) ->
  (forall level, o = OpSetListening level -> in_unit level) ->
  in_unit (audio_level (sm (exec o s))).
Proof.
  intros o s Hs Hl.
  destruct o as [l|l| |level|level| |msg i|lm f h|lm f h|k|k]; simpl;
    try exact Hs; try (through_transition; exact Hs).
  - through_transition. simpl. now apply Hl.
  - exact (update_audio_level_in_unit s level).
Qed.

(** No public operation touches the key layout. *)
Lemma exec_keeps_rows : forall (o : Op Landmark World) s,
  rows (keypad_data (sm (exec o s))) = rows (keypad_data (sm s)).
Proof.
  intros o s.
  destruct o; simpl; try reflexivity; through_transition; reflexivity.
Qed.

End Facts.

End MachineFacts.

(* ================================================================== *)
(** * Statements about the state machine                               *)
(* ================================================================== *)

Module Machine.

Import MachineFacts.

(** C1, as the code has it. A [set_*] operation whose target state is the
    current state notifies no listener, prints nothing and leaves the
    current and the previous state alone, yet it still performs its payload
    assignment: it is exactly [payload_write] ([set_action] replaces
    [action_data], [set_listening] overwrites [audio_level], [set_gesture]
    replaces [gesture_data], [set_keypad] overwrites [active_key], and
    [set_idle] and [set_processing] change nothing). The [update_*]
    operations apply in every state. *)
Theorem same_state_set_only_writes_payload :
  (forall (Landmark World : Type) (s : Sys Landmark World)
          (o : Op Landmark World) (t : OverlayState),
      target o = Some t ->
      _state (sm s) = t ->
      exec o s = payload_write o s
      /\ calls (exec o s) = calls s
      /\ world (exec o s) = world s
      /\ stdout (exec o s) = stdout s
      /\ _state (sm (exec o s)) = _state (sm s)
      /\ _previous_state (sm (exec o s)) = _previous_state (sm s)
      /\ _listeners (sm (exec o s)) = _listeners (sm s)
      /\ rows (keypad_data (sm (exec o s))) = rows (keypad_data (sm s)))
  /\ (forall (Landmark World : Type) (s : Sys Landmark World)
             (x : R) (k : option string)
             (l : list Landmark) (f : Z) (h : string),
        audio_level (sm (update_audio_level (Fin x) s)) = Fin (clamp x 0 1)
        /\ active_key (keypad_data (sm (update_keypad k s))) = k
        /\ gesture_data (sm (update_gesture (Some l) (Some f) (Some h) s))
           = {| hand_landmarks := l; active_finger := Some f; hover_key := Some h |}
        /\ _state (sm (update_audio_level (Fin x) s)) = _state (sm s)
        /\ _state (sm (update_keypad k s)) = _state (sm s)
        /\ _state (sm (update_gesture (Some l) (Some f) (Some h) s))
           = _state (sm s)).
Proof.
  split.
  - intros Landmark World s o t Ht Hs.
    assert (Hw : exec o s = payload_write o s).
    { destruct o; simpl in Ht; try discriminate; injection Ht as <-; simpl;
        unfold set_idle, set_listening, set_processing, set_action,
               set_gesture, set_keypad;
        apply transition_to_same; simpl; exact Hs. }
    rewrite Hw.
    destruct o; simpl in Ht; try discriminate; simpl; repeat split.
  - intros Landmark World s x k l f h. repeat split.
    apply update_audio_level_stores_clamp.
Qed.

(** Witness for C1: [set_keypad] repeated while already in Keypad. *)
Lemma same_state_set_only_writes_payload_witness :
  exec (OpSetKeypad (Some "a"%string)) (set_keypad None (fresh tt))
  = payload_write (OpSetKeypad (Some "a"%string)) (set_keypad None (fresh tt))
  /\ calls (exec (OpSetKeypad (Some "a"%string)) (set_keypad None (fresh tt)))
     = calls (set_keypad None (@fresh unit tt)).
Proof.
  destruct (proj1 same_state_set_only_writes_payload Z unit
              (set_keypad None (fresh tt)) (OpSetKeypad (Some "a"%string))
              KEYPAD eq_refl eq_refl) as (H1 & H2 & _).
  split; [exact H1 | exact H2].
Defined.

(** C1 as stated fails: [set_action] issued while already in Action
    replaces the payload record. *)
Lemma same_state_set_action_replaces_payload :
  _state (sm showing_toast) = ACTION
  /\ target (@OpSetAction Z unit "Done" None) = Some ACTION
  /\ action_data (sm (exec (OpSetAction "Done" None) showing_toast))
     = {| message := "Done"; icon := None |}
  /\ action_data (sm (exec (OpSetAction "Done" None) showing_toast))
     <> action_data (sm showing_toast).
Proof.
  repeat split. simpl. discriminate.
Qed.

(** C2, evaluated on the code. [KeypadData()] keeps the two rows of the
    field's default factory: [__post_init__] installs the five-row layout
    only when [rows] is empty, and the renderer's check ([len(rows) < 2])
    does not fire on two rows either. The five-row layout exists only in
    [_init_layout]. *)
Theorem default_keypad_has_two_rows :
  List.length (rows KeypadData_default) = 2%nat
  /\ rows KeypadData_default = rows_default_factory
  /\ List.length layout = 5%nat
  /\ rows KeypadData_default <> layout
  /\ rows (Renderer.ensure_layout KeypadData_default) = rows_default_factory
  /\ (forall Landmark World : Type,
        rows (keypad_data (init Landmark World)) = rows_default_factory)
  /\ rows (KeypadData_new None (Some [])) = layout.
Proof.
  repeat split.
  intros H. apply (f_equal (@List.length _)) in H. discriminate H.
Qed.

(** C4, evaluated on the code. [set_listening] stores its argument as it
    is: on a fresh machine [set_listening(5.0)] leaves [audio_level] at 5.0,
    outside the unit interval. *)
Theorem set_listening_stores_level_unclamped :
  audio_level (sm (set_listening (Fin 5) (@fresh unit tt))) = Fin 5
  /\ ~ in_unit (audio_level (sm (set_listening (Fin 5) (@fresh unit tt)))).
Proof.
  split.
  - reflexivity.
  - simpl. lra.
Qed.

(** C9. [set_idle] called while the machine is already in Idle notifies no
    listener and leaves the current and the previous state (indeed the
    whole system) unchanged. *)
Theorem set_idle_in_idle_is_silent :
  forall (Landmark World : Type) (s : Sys Landmark World),
    _state (sm s) = IDLE ->
    calls (set_idle s) = calls s
    /\ _state (sm (set_idle s)) = _state (sm s)
    /\ _previous_state (sm (set_idle s)) = _previous_state (sm s)
    /\ set_idle s = s.
Proof.
  intros Landmark World s Hs.
  unfold set_idle. rewrite (transition_to_same _ _ s IDLE Hs).
  repeat split.
Qed.

(** Witness for C9: the end of scenario D, Idle with two listeners. *)
Lemma set_idle_in_idle_is_silent_witness :
  calls (set_idle scenario_D) = calls scenario_D
  /\ _state (sm (set_idle scenario_D)) = _state (sm scenario_D)
  /\ _previous_state (sm (set_idle scenario_D)) = _previous_state (sm scenario_D)
  /\ set_idle scenario_D = scenario_D.
Proof.
  apply (set_idle_in_idle_is_silent Z nat scenario_D). reflexivity.
Defined.

(** C10, as the code has it. An argument of [update_gesture] passed as
    [None] leaves its field at the prior value, so [active_finger] and
    [hover_key] cannot go back to [None] through [update_gesture]; an
    argument that is not [None] is stored as given in its own field,
    whichever of the three it is, the empty list and the empty string
    included. The current state, the previous state, the other records,
    the listeners and the notifications are unchanged. *)
Theorem update_gesture_none_keeps_field :
  forall (Landmark World : Type) (s : Sys Landmark World)
         (landmarks : option (list Landmark)) (finger : option Z)
         (hover : option string),
    (landmarks = None ->
       hand_landmarks (gesture_data (sm (update_gesture landmarks finger hover s)))
       = hand_landmarks (gesture_data (sm s)))
    /\ (finger = None ->
          active_finger (gesture_data (sm (update_gesture landmarks finger hover s)))
          = active_finger (gesture_data (sm s)))
    /\ (hover = None ->
          hover_key (gesture_data (sm (update_gesture landmarks finger hover s)))
          = hover_key (gesture_data (sm s)))
    /\ (forall l, landmarks = Some l ->
          hand_landmarks (gesture_data (sm (update_gesture landmarks finger hover s)))
          = l)
    /\ (forall f, finger = Some f ->
          active_finger (gesture_data (sm (update_gesture landmarks finger hover s)))
          = Some f)
    /\ (forall k, hover = Some k ->
          hover_key (gesture_data (sm (update_gesture landmarks finger hover s)))
          = Some k)
    /\ (active_finger (gesture_data (sm s)) <> None ->
          active_finger (gesture_data (sm (update_gesture landmarks finger hover s)))
          <> None)
    /\ (hover_key (gesture_data (sm s)) <> None ->
          hover_key (gesture_data (sm (update_gesture landmarks finger hover s)))
          <> None)
    /\ _state (sm (update_gesture landmarks finger hover s)) = _state (sm s)
    /\ _previous_state (sm (update_gesture landmarks finger hover s))
       = _previous_state (sm s)
    /\ action_data (sm (update_gesture landmarks finger hover s))
       = action_data (sm s)
    /\ keypad_data (sm (update_gesture landmarks finger hover s))
       = keypad_data (sm s)
    /\ audio_level (sm (update_gesture landmarks finger hover s))
       = audio_level (sm s)
    /\ _listeners (sm (update_gesture landmarks finger hover s))
       = _listeners (sm s)
    /\ world (update_gesture landmarks finger hover s) = world s
    /\ stdout (update_gesture landmarks finger hover s) = stdout s
    /\ calls (update_gesture landmarks finger hover s) = calls s.
Proof.
  intros Landmark World s landmarks finger hover.
  unfold update_gesture; simpl.
  repeat apply conj; try reflexivity.
  - intros ->. reflexivity.
  - intros ->. reflexivity.
  - intros ->. reflexivity.
  - intros l ->. reflexivity.
  - intros f ->. reflexivity.
  - intros k ->. reflexivity.
  - destruct finger; [discriminate | trivial].
  - destruct hover; [discriminate | trivial].
Qed.

(** Witness for C10: only the hovered key is passed; the landmarks and the
    finger stay, and the hovered key becomes the one passed. *)
Lemma update_gesture_none_keeps_field_witness :
  hand_landmarks
    (gesture_data (sm (update_gesture None None (Some "b"%string) tracking_hand)))
  = hand_landmarks (gesture_data (sm tracking_hand))
  /\ active_finger
       (gesture_data (sm (update_gesture None None (Some "b"%string) tracking_hand)))
     = active_finger (gesture_data (sm tracking_hand))
  /\ hover_key
       (gesture_data (sm (update_gesture None None (Some "b"%string) tracking_hand)))
     = Some "b"%string.
Proof.
  destruct (update_gesture_none_keeps_field Z unit tracking_hand
              None None (Some "b"%string)) as (H1 & H2 & _ & _ & _ & H6 & _).
  split; [exact (H1 eq_refl) | split; [exact (H2 eq_refl)|]].
  exact (H6 "b"%string eq_refl).
Defined.

(** C10 as stated fails: an explicit empty list empties [hand_landmarks],
    and an explicit empty string empties [hover_key]. *)
Lemma update_gesture_can_empty_fields :
  hand_landmarks (gesture_data (sm tracking_hand)) = [1%Z; 2%Z]
  /\ hand_landmarks
       (gesture_data (sm (update_gesture (Some []) None None tracking_hand)))
     = []
  /\ hover_key (gesture_data (sm tracking_hand)) = Some "a"%string
  /\ hover_key
       (gesture_data
          (sm (update_gesture None None (Some EmptyString) tracking_hand)))
     = Some EmptyString.
Proof. repeat split. Qed.

End Machine.

(* ================================================================== *)
(** * Notification when the callbacks can reach the machine            *)
(* ================================================================== *)

Module Notification.

Import LiveMachine LiveDescribed.

Section Rounds.

Variable Landmark : Type.
Variable World : Type.
Variable callable : nat -> Callback Landmark World.

Implicit Types (s : Store Landmark World) (ls : list nat).

Lemma print_machine : forall line s, machine (print line s) = machine s.
Proof. reflexivity. Qed.

Lemma handled_listeners : forall id old new s,
  keeps_listeners callable id ->
  _listeners (machine (handled (callable id old new s)))
  = _listeners (machine s).
Proof.
  intros id old new s Hk. unfold handled.
  destruct (snd (callable id old new s)); apply Hk.
Qed.

Lemma handled_machine : forall id old new s,
  keeps_machine callable id ->
  machine (handled (callable id old new s)) = machine s.
Proof.
  intros id old new s Hk. unfold handled.
  destruct (snd (callable id old new s)); apply Hk.
Qed.

Lemma each_in_turn_machine : forall ls old new s,
  (forall id, In id ls -> keeps_machine callable id) ->
  machine (each_in_turn callable old new ls s) = machine s.
Proof.
  induction ls as [|id rest IH]; intros old new s Hk.
  - reflexivity.
  - unfold each_in_turn. cbn [fold_left].
    fold (each_in_turn callable old new rest
            (handled (callable id old new s))).
    rewrite IH by (intros i Hi; apply Hk; now right).
    apply handled_machine. apply Hk. now left.
Qed.

Lemma each_in_turn_listeners : forall ls old new s,
  (forall id, In id ls -> keeps_listeners callable id) ->
  _listeners (machine (each_in_turn callable old new ls s))
  = _listeners (machine s).
Proof.
  induction ls as [|id rest IH]; intros old new s Hk.
  - reflexivity.
  - unfold each_in_turn. cbn [fold_left].
    fold (each_in_turn callable old new rest
            (handled (callable id old new s))).
    rewrite IH by (intros i Hi; apply Hk; now right).
    apply handled_listeners. apply Hk. now left.
Qed.

(** With the iterator behind [before] and the listeners [rest] still to
    come, none of which changes the list or raises past the handler, the
    loop calls each of them in turn and ends. *)
Lemma notify_from_rest : forall rest before s fuel old new,
  _listeners (machine s) = before ++ rest ->
  (forall id, In id rest ->
     keeps_listeners callable id /\ is_caught callable id) ->
  List.length rest < fuel ->
  notify_from callable fuel (List.length before) old new s
  = (Completed (each_in_turn callable old new rest s), owed old new rest).
Proof.
  induction rest as [|id rest IH]; intros before s fuel old new Hls Hok Hfuel.
  - destruct fuel as [|fuel]; [inversion Hfuel|].
    cbn [notify_from]. rewrite Hls, app_nil_r.
    assert (Hnone : nth_error before (List.length before) = None)
      by (apply nth_error_None; lia).
    rewrite Hnone. reflexivity.
  - destruct fuel as [|fuel]; [inversion Hfuel|].
    cbn [notify_from]. rewrite Hls.
    rewrite nth_error_app2, Nat.sub_diag by lia. cbn [nth_error].
    destruct (Hok id (or_introl eq_refl)) as [Hkeep Hcaught].
    assert (Hnext : forall s1,
              _listeners (machine s1) = _listeners (machine s) ->
              notify_from callable fuel (S (List.length before)) old new s1
              = (Completed (each_in_turn callable old new rest s1),
                 owed old new rest)).
    { intros s1 Hs1.
      replace (S (List.length before))
        with (List.length (before ++ [id]))
        by (rewrite length_app; simpl; lia).
      apply IH.
      - rewrite Hs1, Hls, <- app_assoc. reflexivity.
      - intros i Hi. apply Hok. now right.
      - simpl in Hfuel. lia. }
    unfold each_in_turn at 1. cbn [fold_left].
    fold (each_in_turn callable old new rest
            (handled (callable id old new s))).
    unfold handled.
    specialize (Hkeep old new s). specialize (Hcaught old new s).
    destruct (callable id old new s) as [s1 [|e|]]; cbn [fst snd] in *.
    + rewrite (Hnext s1 Hkeep). reflexivity.
    + rewrite (Hnext (print ("Error in state listener: " ++ e) s1))
        by (rewrite print_machine; exact Hkeep).
      reflexivity.
    + contradiction.
Qed.

(** The same for listeners in the middle of the list: the loop calls
    each of them and goes on behind them. *)
Lemma notify_from_prefix : forall mid before tail s fuel old new,
  _listeners (machine s) = before ++ mid ++ tail ->
  (forall id, In id mid ->
     keeps_listeners callable id /\ is_caught callable id) ->
  notify_from callable (List.length mid + fuel) (List.length before)
    old new s
  = (fst (notify_from callable fuel (List.length (before ++ mid)) old new
            (each_in_turn callable old new mid s)),
     owed old new mid
     ++ snd (notify_from callable fuel (List.length (before ++ mid)) old new
               (each_in_turn callable old new mid s))).
Proof.
  induction mid as [|id mid IH]; intros before tail s fuel old new Hls Hok.
  - rewrite app_nil_r. cbn [List.length Nat.add each_in_turn fold_left owed
                            map app].
    now destruct (notify_from callable fuel (List.length before) old new s).
  - cbn [List.length Nat.add notify_from]. rewrite Hls.
    rewrite nth_error_app2, Nat.sub_diag by lia. cbn [nth_error app].
    destruct (Hok id (or_introl eq_refl)) as [Hkeep Hcaught].
    assert (Hnext : forall s1,
              _listeners (machine s1) = _listeners (machine s) ->
              notify_from callable (List.length mid + fuel)
                (S (List.length before)) old new s1
              = (fst (notify_from callable fuel
                        (List.length (before ++ id :: mid)) old new
                        (each_in_turn callable old new mid s1)),
                 owed old new mid
                 ++ snd (notify_from callable fuel
                           (List.length (before ++ id :: mid)) old new
                           (each_in_turn callable old new mid s1)))).
    { intros s1 Hs1.
      replace (S (List.length before))
        with (List.length (before ++ [id]))
        by (rewrite length_app; simpl; lia).
      replace (before ++ id :: mid) with ((before ++ [id]) ++ mid)
        by (rewrite <- app_assoc; reflexivity).
      apply (IH (before ++ [id]) tail).
      - rewrite Hs1, Hls, <- app_assoc. reflexivity.
      - intros i Hi. apply Hok. now right. }
    unfold each_in_turn at 1 2. cbn [fold_left].
    fold (each_in_turn callable old new mid
            (handled (callable id old new s))).
    unfold handled.
    specialize (Hkeep old new s). specialize (Hcaught old new s).
    destruct (callable id old new s) as [s1 [|e|]]; cbn [fst snd] in *.
    + rewrite (Hnext s1 Hkeep). reflexivity.
    + rewrite (Hnext (print ("Error in state listener: " ++ e) s1))
        by (rewrite print_machine; exact Hkeep).
      reflexivity.
    + contradiction.
Qed.

Lemma live_remove_first_split : forall (before after : list nat) (a : nat),
  ~ In a before ->
  remove_first a (before ++ a :: after) = before ++ after.
Proof.
  induction before as [|x before IH]; intros after a Hnot; simpl.
  - now rewrite Nat.eqb_refl.
  - destruct (Nat.eqb_spec x a) as [E|_].
    + exfalso. apply Hnot. now left.
    + f_equal. apply IH. intros Hin. apply Hnot. now right.
Qed.

(** A listener [a] that unregisters itself, with [b] registered right
    after it: the round calls the listeners before [a], then [a], then
    those after [b]. *)
Lemma notify_from_leaving : forall before a b after s fuel old new,
  _listeners (machine s) = before ++ a :: b :: after ->
  ~ In a before ->
  (forall o n s',
     _listeners (machine (fst (callable a o n s')))
     = remove_first a (_listeners (machine s'))) ->
  is_caught callable a ->
  (forall id, In id (before ++ after) ->
     keeps_listeners callable id /\ is_caught callable id) ->
  List.length (_listeners (machine s)) < fuel ->
  exists s',
    notify_from callable fuel 0 old new s
    = (Completed s', owed old new (before ++ a :: after))
    /\ _listeners (machine s') = before ++ b :: after.
Proof.
  intros before a b after s fuel old new Hls Hnot Hleave Hcaught Hok Hfuel.
  rewrite Hls, length_app in Hfuel. cbn [List.length] in Hfuel.
  replace fuel
    with (List.length before + S (fuel - List.length before - 1)) by lia.
  assert (Hp := notify_from_prefix before [] (a :: b :: after) s
                  (S (fuel - List.length before - 1)) old new Hls).
  cbn [List.length app] in Hp.
  rewrite Hp by (intros id Hid; apply Hok; apply in_or_app; now left).
  clear Hp.
  set (s1 := each_in_turn callable old new before s).
  assert (Hs1 : _listeners (machine s1) = before ++ a :: b :: after).
  { unfold s1. rewrite each_in_turn_listeners; [exact Hls|].
    intros id Hid. apply Hok. apply in_or_app. now left. }
  cbn [notify_from]. rewrite Hs1.
  rewrite nth_error_app2, Nat.sub_diag by lia. cbn [nth_error].
  assert (Hnext : forall s2,
            _listeners (machine s2) = before ++ b :: after ->
            notify_from callable (fuel - List.length before - 1)
              (S (List.length before)) old new s2
            = (Completed (each_in_turn callable old new after s2),
               owed old new after)).
  { intros s2 Hs2.
    replace (S (List.length before))
      with (List.length (before ++ [b]))
      by (rewrite length_app; simpl; lia).
    apply notify_from_rest.
    - rewrite Hs2, <- app_assoc. reflexivity.
    - intros id Hid. apply Hok. apply in_or_app. now right.
    - lia. }
  assert (Hafter : forall s2,
            _listeners (machine s2) = before ++ b :: after ->
            _listeners (machine (each_in_turn callable old new after s2))
            = before ++ b :: after).
  { intros s2 Hs2. rewrite each_in_turn_listeners; [exact Hs2|].
    intros id Hid. apply Hok. apply in_or_app. now right. }
  specialize (Hleave old new s1). specialize (Hcaught old new s1).
  rewrite Hs1, (live_remove_first_split before (b :: after) a Hnot) in Hleave.
  destruct (callable a old new s1) as [s2 [|e|]]; cbn [fst snd] in *.
  - rewrite (Hnext s2 Hleave). cbn [fst snd].
    exists (each_in_turn callable old new after s2). split.
    + unfold owed. rewrite map_app. reflexivity.
    + exact (Hafter s2 Hleave).
  - rewrite (Hnext (print ("Error in state listener: " ++ e) s2) Hleave).
    cbn [fst snd].
    exists (each_in_turn callable old new after
              (print ("Error in state listener: " ++ e) s2)).
    split.
    + unfold owed. rewrite map_app. reflexivity.
    + exact (Hafter (print ("Error in state listener: " ++ e) s2) Hleave).
  - contradiction.
Qed.

Lemma transition_to_round : forall s new_state fuel,
  new_state <> _state (machine s) ->
  (forall id, In id (_listeners (machine s)) ->
     keeps_listeners callable id /\ is_caught callable id) ->
  List.length (_listeners (machine s)) < fuel ->
  transition_to callable fuel new_state s
  = (Completed
       (each_in_turn callable (_state (machine s)) new_state
          (_listeners (machine s)) (entered new_state s)),
     owed (_state (machine s)) new_state (_listeners (machine s))).
Proof.
  intros s new_state fuel Hne Hok Hfuel. unfold transition_to, state_eqb.
  destruct (OverlayState_eq_dec new_state (_state (machine s)));
    [contradiction|].
  unfold _notify_listeners.
  exact (notify_from_rest (_listeners (machine s)) [] (entered new_state s)
           fuel (_state (machine s)) new_state eq_refl Hok Hfuel).
Qed.

End Rounds.

Lemma example_callbacks_behave : forall id,
  In id [0; 1] ->
  keeps_listeners example_callable id /\ is_caught example_callable id.
Proof.
  intros id [<- | [<- | []]]; split; intros old new s;
    cbn; try reflexivity; discriminate.
Qed.








(** For listeners that act on the outside store only, the loop over the
    list itself does what one pass over the list as it was at the start
    does: the embedding of [StateMachine] is this special case. *)
Section Outside.

Variable Landmark : Type.
Variable World : Type.

(** The listener behind each identity. *)
Variable registered : nat -> Listener World.

Lemma outside_behaves : forall id,
  keeps_machine (fun i => @outside Landmark World (registered i)) id
  /\ is_caught (fun i => @outside Landmark World (registered i)) id.
Proof.
  intros id. split; intros old new s; unfold outside;
    destruct (call (registered id) old new (world s)) as [w [e|]];
    cbn; (reflexivity || discriminate).
Qed.

Lemma outside_each_in_turn :
  forall (ls : list (Listener World)) old new (s : Sys Landmark World),
    (forall l, In l ls -> registered (listener_id l) = l) ->
    each_in_turn (fun i => @outside Landmark World (registered i)) old new
      (map (@listener_id World) ls) (live_of s)
    = live_of (fold_left (notify_one old new) ls s).
Proof.
  induction ls as [|l rest IH]; intros old new s Hreg.
  - reflexivity.
  - cbn [map fold_left]. unfold each_in_turn. cbn [fold_left].
    fold (each_in_turn (fun i => @outside Landmark World (registered i)) old new
            (map (@listener_id World) rest)).
    rewrite (Hreg l (or_introl eq_refl)).
    assert (Hstep : handled (@outside Landmark World l old new (live_of s))
                    = live_of (notify_one old new s l)).
    { unfold handled, outside, notify_one, live_of. cbn [world].
      destruct (call l old new (StateMachine.world s)) as [w [e|]];
        reflexivity. }
    rewrite Hstep. apply IH. intros l' Hin. apply Hreg. now right.
Qed.

Lemma outside_callbacks_agree :
  forall (s : Sys Landmark World) (new_state : OverlayState) (fuel : nat),
    new_state <> StateMachine._state (sm s) ->
    (forall l, In l (StateMachine._listeners (sm s)) ->
       registered (listener_id l) = l) ->
    List.length (StateMachine._listeners (sm s)) < fuel ->
    transition_to (fun i => @outside Landmark World (registered i)) fuel new_state
      (live_of s)
    = (Completed (live_of (StateMachine.transition_to new_state s)),
       invocations (StateMachine._state (sm s)) new_state
         (StateMachine._listeners (sm s))).
Proof.
  intros s new_state fuel Hne Hreg Hfuel.
  rewrite transition_to_round.
  - f_equal.
    + f_equal. unfold StateMachine.transition_to, state_eqb.
      destruct (OverlayState_eq_dec new_state (StateMachine._state (sm s)));
        [contradiction|].
      unfold StateMachine._notify_listeners. cbn [sm StateMachine._listeners].
      exact (outside_each_in_turn (StateMachine._listeners (sm s))
               (StateMachine._state (sm s)) new_state
               (with_sm s
                  {| StateMachine._state := new_state;
                     StateMachine._previous_state :=
                       StateMachine._state (sm s);
                     StateMachine._listeners :=
                       StateMachine._listeners (sm s);
                     StateMachine.action_data :=
                       StateMachine.action_data (sm s);
                     StateMachine.gesture_data :=
                       StateMachine.gesture_data (sm s);
                     StateMachine.keypad_data :=
                       StateMachine.keypad_data (sm s);
                     StateMachine.audio_level :=
                       StateMachine.audio_level (sm s) |})
               Hreg).
    + unfold owed, invocations. cbn. now rewrite map_map.
  - exact Hne.
  - intros id _. destruct (outside_behaves id) as [Hk Hc]. split; [|exact Hc].
    intros old new s'. now rewrite Hk.
  - cbn. now rewrite length_map.
Qed.

End Outside.

End Notification.

(* ================================================================== *)
(** * Statements about the auto-hide timer                             *)
(* ================================================================== *)

Module Timer.

Import MachineFacts Window.

Lemma mode_eqb_audio_only : forall m,
  mode_eqb m AUDIO_ONLY = true <-> m = AUDIO_ONLY.
Proof. intros []; simpl; split; congruence. Qed.

Lemma on_state_changed_starts_timer : forall old_state w,
  accessibility_mode (config w) <> AUDIO_ONLY ->
  action_timer (_on_state_changed old_state ACTION w)
  = Some (toast_display_ms (config w)).
Proof.
  intros old_state w Hmode. unfold _on_state_changed.
  destruct (mode_eqb (accessibility_mode (config w)) AUDIO_ONLY) eqn:E.
  - apply mode_eqb_audio_only in E. contradiction.
  - reflexivity.
Qed.

Lemma on_state_changed_audio_only : forall old_state new_state w,
  accessibility_mode (config w) = AUDIO_ONLY ->
  action_timer (_on_state_changed old_state new_state w) = action_timer w.
Proof.
  intros old_state new_state w Hmode. unfold _on_state_changed.
  rewrite Hmode. reflexivity.
Qed.

(** C8, as the code has it. When the auto-hide timer fires, [_hide_action]
    moves the machine to Idle exactly when the current state is still
    Action, and otherwise changes nothing. The timer is started when the
    machine enters Action from another state, unless the accessibility mode
    is AUDIO_ONLY, in which case [_on_state_changed] returns before the
    timer is touched. *)
Theorem auto_hide_timer_guarded :
  forall (Landmark : Type) (self : OverlayWindow Landmark),
    (_state (sm self) = ACTION ->
       _state (sm (_hide_action self)) = IDLE
       /\ _previous_state (sm (_hide_action self)) = ACTION)
    /\ (_state (sm self) <> ACTION -> _hide_action self = self)
    /\ (_state (sm self) <> ACTION ->
          sm (action_timer_timeout self) = sm self
          /\ calls (action_timer_timeout self) = calls self
          /\ action_timer (world (action_timer_timeout self)) = None)
    /\ (forall msg icon_arg,
          _listeners (sm self) = [window_listener] ->
          _state (sm self) <> ACTION ->
          accessibility_mode (config (world self)) <> AUDIO_ONLY ->
          _state (sm (show_action msg icon_arg self)) = ACTION
          /\ action_timer (world (show_action msg icon_arg self))
             = Some (toast_display_ms (config (world self))))
    /\ (forall msg icon_arg,
          _listeners (sm self) = [window_listener] ->
          _state (sm self) <> ACTION ->
          accessibility_mode (config (world self)) = AUDIO_ONLY ->
          _state (sm (show_action msg icon_arg self)) = ACTION
          /\ action_timer (world (show_action msg icon_arg self))
             = action_timer (world self)).
Proof.
  intros Landmark self. repeat apply conj.
  - intros Hs. unfold _hide_action, state. rewrite Hs. simpl.
    unfold set_idle.
    assert (Hne : IDLE <> _state (sm self)) by (rewrite Hs; discriminate).
    rewrite (transition_to_sm _ _ self IDLE Hne). simpl. now rewrite Hs.
  - intros Hs. unfold _hide_action, state.
    now rewrite (state_eqb_neq _ _ Hs).
  - intros Hs. unfold action_timer_timeout.
    destruct (action_timer (world self)) eqn:E.
    + unfold _hide_action, state. simpl.
      rewrite (state_eqb_neq _ _ Hs). simpl. repeat split.
    + rewrite E. repeat split.
  - intros msg icon_arg Hls Hs Hmode. unfold show_action, set_action.
    set (s1 := set_action_data _ self).
    assert (Hne : ACTION <> _state (sm s1)) by (simpl; congruence).
    rewrite (transition_to_sm _ _ s1 ACTION Hne),
            (transition_to_world _ _ s1 ACTION Hne).
    simpl. rewrite Hls. simpl. split; [reflexivity|].
    now apply on_state_changed_starts_timer.
  - intros msg icon_arg Hls Hs Hmode. unfold show_action, set_action.
    set (s1 := set_action_data _ self).
    assert (Hne : ACTION <> _state (sm s1)) by (simpl; congruence).
    rewrite (transition_to_sm _ _ s1 ACTION Hne),
            (transition_to_world _ _ s1 ACTION Hne).
    simpl. rewrite Hls. simpl. split; [reflexivity|].
    now apply on_state_changed_audio_only.
Qed.

(** Witness for C8 (scenario B): the toast is showing, the timer runs for
    the configured 2000 ms, and its firing returns the machine to Idle. *)
Lemma auto_hide_timer_guarded_witness :
  _state (sm scenario_B) = ACTION
  /\ action_timer (world scenario_B) = Some 2000%Z
  /\ _state (sm (_hide_action scenario_B)) = IDLE
  /\ _previous_state (sm (_hide_action scenario_B)) = ACTION.
Proof.
  destruct (auto_hide_timer_guarded Z scenario_B) as (Hfire & _).
  destruct (Hfire eq_refl) as (H1 & H2).
  split; [reflexivity | split; [reflexivity | split; [exact H1 | exact H2]]].
Defined.

(** C8 as stated fails: in audio-only mode the machine enters Action and no
    timer is started. *)
Lemma audio_only_enters_action_without_timer :
  _state (sm audio_only_window) = IDLE
  /\ _state (sm (show_action "Done" None audio_only_window)) = ACTION
  /\ action_timer (world (show_action "Done" None audio_only_window)) = None.
Proof. repeat split. Qed.

End Timer.

(* ================================================================== *)
(** * Properties of the voice pipeline                                 *)
(* ================================================================== *)

Module VoiceFacts.

Import VoiceInput LoopDescribed.

Lemma gtb_fin_true : forall x y, (x > y)%R -> gtb (Fin x) (Fin y) = true.
Proof.
  intros x y H. unfold gtb, ltb. destruct (Rlt_dec y x); [reflexivity|lra].
Qed.

Lemma gtb_fin_false : forall x y, (x <= y)%R -> gtb (Fin x) (Fin y) = false.
Proof.
  intros x y H. unfold gtb, ltb. destruct (Rlt_dec y x); [lra|reflexivity].
Qed.

Section Segmenter.

Variable thr : R.
Variable dur : R.

(** ** One block *)

Lemma vad_step_speech : forall st data rms now,
  gtb rms (Fin thr) = true ->
  vad_step thr dur st data rms now
  = ({| speech_buffer := speech_buffer st ++ [data];
        is_speaking := true;
        silence_start_time := None |}, None).
Proof. intros st data rms now H. unfold vad_step. now rewrite H. Qed.

Lemma vad_step_ignored : forall st data rms now,
  gtb rms (Fin thr) = false ->
  is_speaking st = false ->
  vad_step thr dur st data rms now = (st, None).
Proof. intros st data rms now H Hs. unfold vad_step. now rewrite H, Hs. Qed.

Lemma vad_step_silence_starts : forall st data rms now,
  gtb rms (Fin thr) = false ->
  is_speaking st = true ->
  silence_start_time st = None ->
  vad_step thr dur st data rms now
  = ({| speech_buffer := speech_buffer st ++ [data];
        is_speaking := true;
        silence_start_time := Some now |}, None).
Proof.
  intros st data rms now H Hs Ht. unfold vad_step. now rewrite H, Hs, Ht.
Qed.

Lemma vad_step_silence_waits : forall st data rms now started,
  gtb rms (Fin thr) = false ->
  is_speaking st = true ->
  silence_start_time st = Some started ->
  (now - started <= dur)%R ->
  vad_step thr dur st data rms now
  = ({| speech_buffer := speech_buffer st ++ [data];
        is_speaking := true;
        silence_start_time := Some started |}, None).
Proof.
  intros st data rms now started H Hs Ht Hle. unfold vad_step.
  rewrite H, Hs, Ht.
  destruct (Rgt_dec (now - started) dur); [lra|reflexivity].
Qed.

Lemma vad_step_silence_fires : forall st data rms now started,
  gtb rms (Fin thr) = false ->
  is_speaking st = true ->
  silence_start_time st = Some started ->
  (now - started > dur)%R ->
  vad_step thr dur st data rms now
  = (vad_init, Some (speech_buffer st ++ [data])).
Proof.
  intros st data rms now started H Hs Ht Hgt. unfold vad_step.
  rewrite H, Hs, Ht.
  destruct (Rgt_dec (now - started) dur); [reflexivity|lra].
Qed.

(** A buffer handed to [_process_speech] ends with the block just read. *)
Lemma vad_step_hands_nonempty : forall st data rms now st' u,
  vad_step thr dur st data rms now = (st', Some u) -> u <> [].
Proof.
  intros st data rms now st' u. unfold vad_step.
  destruct (gtb rms (Fin thr)); [discriminate|].
  destruct (is_speaking st); [|discriminate].
  destruct (silence_start_time st) as [started|]; [|discriminate].
  destruct (Rgt_dec (now - started) dur); [|discriminate].
  intros H. injection H as _ <-. intros E.
  now apply app_eq_nil in E as [_ E].
Qed.

(** ** A stream of blocks *)

Lemma vad_run_app : forall a b st,
  vad_run thr dur st (a ++ b)
  = (fst (vad_run thr dur (fst (vad_run thr dur st a)) b),
     snd (vad_run thr dur st a)
     ++ snd (vad_run thr dur (fst (vad_run thr dur st a)) b)).
Proof.
  induction a as [|[[data rms] now] a IH]; intros b st; simpl.
  - now destruct (vad_run thr dur st b).
  - destruct (vad_step thr dur st data rms now) as [st1 handed].
    rewrite IH.
    destruct (vad_run thr dur st1 a) as [st2 later]; simpl.
    destruct (vad_run thr dur st2 b) as [st3 last]; simpl.
    now destruct handed.
Qed.

Lemma vad_run_hands_nonempty : forall stream st,
  Forall (fun u => u <> []) (snd (vad_run thr dur st stream)).
Proof.
  induction stream as [|[[data rms] now] rest IH]; intros st; simpl.
  - constructor.
  - destruct (vad_step thr dur st data rms now) as [st1 handed] eqn:E.
    specialize (IH st1).
    destruct (vad_run thr dur st1 rest) as [st2 later]; simpl in *.
    destruct handed as [u|]; [|exact IH].
    constructor; [|exact IH].
    exact (vad_step_hands_nonempty _ _ _ _ _ _ E).
Qed.

(** Blocks above the threshold are all buffered and nothing is handed over. *)
Lemma vad_run_speech : forall stream st,
  stream <> [] ->
  Forall (fun tk => gtb (rms_at tk) (Fin thr) = true) stream ->
  vad_run thr dur st stream
  = ({| speech_buffer := speech_buffer st ++ frames_of stream;
        is_speaking := true;
        silence_start_time := None |}, []).
Proof.
  induction stream as [|[[data rms] now] rest IH]; intros st Hne Hall.
  - congruence.
  - inversion Hall as [|? ? Hhd Htl]; subst. unfold rms_at in Hhd; simpl in Hhd.
    simpl. rewrite (vad_step_speech _ _ _ _ Hhd).
    destruct rest as [|tk rest'].
    + reflexivity.
    + rewrite IH by (congruence || assumption). simpl.
      now rewrite <- app_assoc.
Qed.

(** While the silence timer has not run out, silent blocks are buffered and
    nothing is handed over. *)
Lemma vad_run_waiting : forall stream st started,
  is_speaking st = true ->
  silence_start_time st = Some started ->
  Forall (fun tk => gtb (rms_at tk) (Fin thr) = false
                    /\ (clock_at tk - started <= dur)%R) stream ->
  vad_run thr dur st stream
  = ({| speech_buffer := speech_buffer st ++ frames_of stream;
        is_speaking := true;
        silence_start_time := Some started |}, []).
Proof.
  induction stream as [|[[data rms] now] rest IH]; intros st started Hs Ht Hall.
  - simpl. rewrite app_nil_r. destruct st; simpl in *. now subst.
  - inversion Hall as [|? ? [Hlow Hclk] Htl]; subst.
    unfold rms_at, clock_at in Hlow, Hclk; simpl in Hlow, Hclk.
    simpl. rewrite (vad_step_silence_waits _ _ _ _ _ Hlow Hs Ht Hclk).
    rewrite (IH _ started) by (reflexivity || assumption). simpl.
    now rewrite <- app_assoc.
Qed.

(** Onset, silence that outlasts the duration, hand-over. *)
Lemma vad_run_utterance : forall speech first mid last st,
  is_speaking st = false ->
  speech_buffer st = [] ->
  speech <> [] ->
  Forall (fun tk => gtb (rms_at tk) (Fin thr) = true) speech ->
  gtb (rms_at first) (Fin thr) = false ->
  Forall (fun tk => gtb (rms_at tk) (Fin thr) = false
                    /\ (clock_at tk - clock_at first <= dur)%R) mid ->
  gtb (rms_at last) (Fin thr) = false ->
  (clock_at last - clock_at first > dur)%R ->
  vad_run thr dur st (speech ++ first :: mid ++ [last])
  = (vad_init, [frames_of (speech ++ first :: mid ++ [last])]).
Proof.
  intros speech [[d1 r1] t1] mid [[d2 r2] t2] st Hs Hb Hne Hsp Hf Hmid Hl Hgt.
  unfold rms_at, clock_at in Hf, Hl, Hgt; cbn [fst snd] in Hf, Hl, Hgt.
  change (clock_at (d1, r1, t1)) with t1 in Hmid.
  rewrite vad_run_app, (vad_run_speech speech st Hne Hsp). simpl.
  rewrite vad_step_silence_starts by (reflexivity || assumption). simpl.
  rewrite vad_run_app.
  rewrite (vad_run_waiting mid _ t1) by (reflexivity || assumption). simpl.
  rewrite (vad_step_silence_fires _ _ _ _ t1) by (reflexivity || assumption).
  rewrite Hb. unfold frames_of. simpl.
  rewrite !map_app. simpl. rewrite !map_app. simpl.
  now rewrite <- !app_assoc.
Qed.

(** Onset followed by silence that has not yet outlasted the duration:
    everything is buffered and the segmenter is still speaking. *)
Lemma vad_run_still_speaking : forall speech first mid st,
  speech <> [] ->
  Forall (fun tk => gtb (rms_at tk) (Fin thr) = true) speech ->
  gtb (rms_at first) (Fin thr) = false ->
  Forall (fun tk => gtb (rms_at tk) (Fin thr) = false
                    /\ (clock_at tk - clock_at first <= dur)%R) mid ->
  vad_run thr dur st (speech ++ first :: mid)
  = ({| speech_buffer := speech_buffer st ++ frames_of (speech ++ first :: mid);
        is_speaking := true;
        silence_start_time := Some (clock_at first) |}, []).
Proof.
  intros speech [[d1 r1] t1] mid st Hne Hsp Hf Hmid.
  unfold rms_at in Hf; cbn [fst snd] in Hf.
  change (clock_at (d1, r1, t1)) with t1 in *.
  rewrite vad_run_app, (vad_run_speech speech st Hne Hsp). simpl.
  rewrite vad_step_silence_starts by (reflexivity || assumption).
  rewrite (vad_run_waiting mid _ t1) by (reflexivity || assumption). simpl.
  unfold frames_of. rewrite map_app. simpl.
  now rewrite <- !app_assoc.
Qed.

End Segmenter.

(** ** The level meter *)

Lemma sum_squares_bounds : forall data,
  Forall int16 data ->
  (0 <= sum (map (fun f => f ^ 2) (floats data)) <= INR (List.length data))%R.
Proof.
  induction data as [|x data IH]; intros Hall.
  - simpl. lra.
  - inversion Hall as [|? ? [Hlo Hhi] Htl]; subst.
    specialize (IH Htl).
    change (List.length (x :: data)) with (S (List.length data)).
    rewrite S_INR.
    change (sum (map (fun f => f ^ 2) (floats (x :: data))))%R
      with ((IZR x / 32768) ^ 2 + sum (map (fun f => f ^ 2) (floats data)))%R.
    apply IZR_le in Hlo, Hhi.
    assert (Hx : (-1 <= IZR x / 32768 <= 1)%R) by lra.
    assert (Hq : (0 <= (IZR x / 32768) ^ 2 <= 1)%R) by (simpl; nra).
    lra.
Qed.

Lemma sum_squares_nonneg : forall data,
  (0 <= sum (map (fun f => f ^ 2) (floats data)))%R.
Proof.
  induction data as [|x data IH].
  - simpl. lra.
  - change (sum (map (fun f => f ^ 2) (floats (x :: data))))%R
      with ((IZR x / 32768) ^ 2 + sum (map (fun f => f ^ 2) (floats data)))%R.
    assert (H := pow2_ge_0 (IZR x / 32768)). lra.
Qed.

Lemma floats_squares : forall data,
  map (fun f => (f ^ 2)%R) (floats data)
  = map (fun x => ((IZR x / 32768) ^ 2)%R) data.
Proof. intros data. unfold floats. now rewrite map_map. Qed.

Lemma rms_of_nonempty : forall data,
  data <> [] -> rms_of data = Fin (rms_value data).
Proof.
  intros data Hne. unfold rms_of, rms_value, np_mean.
  destruct (map (fun f => (f ^ 2)%R) (floats data)) as [|y ys] eqn:E.
  - destruct data; [congruence | discriminate].
  - rewrite <- E. unfold np_sqrt.
    assert (Hlen : List.length (map (fun f => (f ^ 2)%R) (floats data))
                   = List.length data)
      by (unfold floats; now rewrite !length_map).
    rewrite Hlen.
    assert (Hpos : (0 < INR (List.length data))%R).
    { apply lt_0_INR. destruct data; [congruence | simpl; lia]. }
    assert (Hs := sum_squares_nonneg data).
    assert (Hq : (0 <= sum (map (fun f => (f ^ 2)%R) (floats data))
                      / INR (List.length data))%R).
    { apply Rmult_le_pos; [exact Hs|].
      left. now apply Rinv_0_lt_compat. }
    destruct (Rlt_dec _ 0); [lra|].
    now rewrite floats_squares.
Qed.

Lemma rms_value_bounds : forall data,
  data <> [] -> Forall int16 data -> (0 <= rms_value data <= 1)%R.
Proof.
  intros data Hne Hall. unfold rms_value. rewrite <- floats_squares.
  destruct (sum_squares_bounds data Hall) as [Hlo Hhi].
  assert (Hpos : (0 < INR (List.length data))%R).
  { apply lt_0_INR. destruct data; [congruence | simpl; lia]. }
  split; [apply sqrt_pos|].
  rewrite <- sqrt_1. apply sqrt_le_1_alt.
  apply Rmult_le_reg_r with (INR (List.length data)); [exact Hpos|].
  unfold Rdiv. rewrite Rmult_assoc, Rinv_l by lra. lra.
Qed.

(** ** The capture loop and the segmenter *)

Lemma process_speech_no_level : forall rate recognize buffer,
  filter is_level (signals (_process_speech rate recognize buffer)) = [].
Proof.
  intros rate recognize [|f buffer]; simpl.
  - reflexivity.
  - destruct (recognize _) as [[|c text]| |e|e]; reflexivity.
Qed.

Lemma process_speech_request : forall rate recognize buffer,
  buffer <> [] ->
  attempts (_process_speech rate recognize buffer)
  = [request_for rate buffer].
Proof.
  intros rate recognize [|f buffer] Hne; [congruence | reflexivity].
Qed.

Lemma run_loop_cons : forall rate recognize st data now rest,
  _run_loop rate recognize st ((data, now) :: rest)
  = (fst (fst (_run_loop rate recognize
                 (fst (fst (loop_body rate recognize st data now))) rest)),
     snd (fst (loop_body rate recognize st data now))
     ++ snd (fst (_run_loop rate recognize
                 (fst (fst (loop_body rate recognize st data now))) rest)),
     snd (loop_body rate recognize st data now)
     ++ snd (_run_loop rate recognize
                 (fst (fst (loop_body rate recognize st data now))) rest)).
Proof.
  intros. cbn [_run_loop].
  destruct (loop_body rate recognize st data now) as [[st1 s1] r1].
  cbn [fst snd].
  now destruct (_run_loop rate recognize st1 rest) as [[st2 s2] r2].
Qed.

Lemma vad_run_cons : forall thr dur st data rms now rest,
  vad_run thr dur st ((data, rms, now) :: rest)
  = (fst (vad_run thr dur (fst (vad_step thr dur st data rms now)) rest),
     match snd (vad_step thr dur st data rms now) with
     | Some u => [u]
     | None => []
     end ++ snd (vad_run thr dur (fst (vad_step thr dur st data rms now)) rest)).
Proof.
  intros. cbn [vad_run].
  destruct (vad_step thr dur st data rms now) as [st1 handed].
  cbn [fst snd].
  destruct (vad_run thr dur st1 rest) as [st2 later].
  now destruct handed.
Qed.

Lemma loop_body_eq : forall rate recognize st data now,
  loop_body rate recognize st data now
  = (fst (vad_step silence_threshold silence_duration st data
            (rms_of data) now),
     audio_level_changed (level_of data)
     :: match snd (vad_step silence_threshold silence_duration st data
                     (rms_of data) now) with
        | Some buffer => signals (_process_speech rate recognize buffer)
        | None => []
        end,
     match snd (vad_step silence_threshold silence_duration st data
                  (rms_of data) now) with
     | Some buffer => attempts (_process_speech rate recognize buffer)
     | None => []
     end).
Proof.
  intros. unfold loop_body, level_of.
  destruct (vad_step silence_threshold silence_duration st data
              (rms_of data) now) as [st1 [buffer|]]; reflexivity.
Qed.

Lemma frames_of_ticks_of : forall blocks : list (Frame * R),
  frames_of (ticks_of blocks) = map fst blocks.
Proof.
  intros blocks. unfold frames_of, ticks_of. rewrite map_map. reflexivity.
Qed.

Lemma ticks_of_loud : forall blocks : list (Frame * R),
  Forall (fun b => gtb (rms_of (fst b)) (Fin silence_threshold) = true)
         blocks ->
  Forall (fun tk => gtb (rms_at tk) (Fin silence_threshold) = true)
         (ticks_of blocks).
Proof.
  intros blocks H. unfold ticks_of. apply Forall_map.
  eapply Forall_impl; [|exact H]. intros b Hb. exact Hb.
Qed.

Lemma ticks_of_quiet : forall (blocks : list (Frame * R)) (started : R),
  Forall (fun b => gtb (rms_of (fst b)) (Fin silence_threshold) = false
                   /\ (snd b - started <= silence_duration)%R) blocks ->
  Forall (fun tk => gtb (rms_at tk) (Fin silence_threshold) = false
                    /\ (clock_at tk - started <= silence_duration)%R)
         (ticks_of blocks).
Proof.
  intros blocks started H. unfold ticks_of. apply Forall_map.
  eapply Forall_impl; [|exact H]. intros b Hb. exact Hb.
Qed.

(** The loop's VAD variables and its requests are those of the segmenter
    run with the two constants of [_run_loop] on the blocks' own levels. *)
Lemma run_loop_follows_segmenter :
  forall rate recognize st (blocks : list (Frame * R)),
    fst (fst (_run_loop rate recognize st blocks))
    = fst (vad_run silence_threshold silence_duration st (ticks_of blocks))
    /\ snd (_run_loop rate recognize st blocks)
       = map (request_for rate)
             (snd (vad_run silence_threshold silence_duration st
                     (ticks_of blocks))).
Proof.
  intros rate recognize st blocks. revert st.
  induction blocks as [|[data now] rest IH]; intros st.
  - split; reflexivity.
  - change (ticks_of ((data, now) :: rest))
      with ((data, rms_of data, now) :: ticks_of rest).
    rewrite run_loop_cons, vad_run_cons, loop_body_eq. cbn [fst snd].
    destruct (vad_step silence_threshold silence_duration st data
                (rms_of data) now) as [st1 handed] eqn:E.
    cbn [fst snd]. destruct (IH st1) as (H1 & H2).
    split; [exact H1|].
    rewrite map_app, <- H2. f_equal.
    destruct handed as [buffer|]; [|reflexivity].
    apply process_speech_request.
    exact (vad_step_hands_nonempty _ _ _ _ _ _ _ _ E).
Qed.

(** While the segmenter hands nothing over, the loop emits the levels and
    nothing else. *)
Lemma run_loop_levels_only :
  forall rate recognize (blocks : list (Frame * R)) st,
    snd (vad_run silence_threshold silence_duration st (ticks_of blocks)) = [] ->
    snd (fst (_run_loop rate recognize st blocks))
    = map (fun b => audio_level_changed (level_of (fst b))) blocks.
Proof.
  intros rate recognize.
  induction blocks as [|[data now] rest IH]; intros st Hnone.
  - reflexivity.
  - change (ticks_of ((data, now) :: rest))
      with ((data, rms_of data, now) :: ticks_of rest) in Hnone.
    rewrite vad_run_cons in Hnone. cbn [snd] in Hnone.
    rewrite run_loop_cons, loop_body_eq. cbn [fst snd map].
    destruct (vad_step silence_threshold silence_duration st data
                (rms_of data) now) as [st1 handed].
    cbn [fst snd] in *.
    destruct handed as [buffer|]; [discriminate Hnone|].
    cbn [app] in *. now rewrite (IH st1 Hnone).
Qed.

(** Onset, silence that outlasts [silence_duration], hand-over: on the
    blocks themselves. *)
Lemma blocks_utterance :
  forall (speech : list (Frame * R)) first mid last st,
    is_speaking st = false ->
    speech_buffer st = [] ->
    speech <> [] ->
    Forall (fun b => gtb (rms_of (fst b)) (Fin silence_threshold) = true)
           speech ->
    gtb (rms_of (fst first)) (Fin silence_threshold) = false ->
    Forall (fun b => gtb (rms_of (fst b)) (Fin silence_threshold) = false
                     /\ (snd b - snd first <= silence_duration)%R) mid ->
    gtb (rms_of (fst last)) (Fin silence_threshold) = false ->
    (snd last - snd first > silence_duration)%R ->
    vad_run silence_threshold silence_duration st
      (ticks_of (speech ++ first :: mid ++ [last]))
    = (vad_init, [map fst (speech ++ first :: mid ++ [last])]).
Proof.
  intros speech first mid last st Hs Hb Hne Hsp Hf Hmid Hl Hgt.
  rewrite <- frames_of_ticks_of.
  unfold ticks_of. rewrite map_app. cbn [map]. rewrite map_app. cbn [map].
  fold (ticks_of speech). fold (ticks_of mid).
  apply vad_run_utterance; try assumption.
  - destruct speech; [congruence | discriminate].
  - now apply ticks_of_loud.
  - now apply ticks_of_quiet.
Qed.

(** Onset followed by silence that has not outlasted [silence_duration]. *)
Lemma blocks_still_speaking :
  forall (speech : list (Frame * R)) first mid st,
    speech <> [] ->
    Forall (fun b => gtb (rms_of (fst b)) (Fin silence_threshold) = true)
           speech ->
    gtb (rms_of (fst first)) (Fin silence_threshold) = false ->
    Forall (fun b => gtb (rms_of (fst b)) (Fin silence_threshold) = false
                     /\ (snd b - snd first <= silence_duration)%R) mid ->
    vad_run silence_threshold silence_duration st
      (ticks_of (speech ++ first :: mid))
    = ({| speech_buffer :=
            speech_buffer st ++ map fst (speech ++ first :: mid);
          is_speaking := true;
          silence_start_time := Some (snd first) |}, []).
Proof.
  intros speech first mid st Hne Hsp Hf Hmid.
  rewrite <- frames_of_ticks_of.
  unfold ticks_of. rewrite map_app. cbn [map].
  fold (ticks_of speech). fold (ticks_of mid).
  apply (vad_run_still_speaking silence_threshold silence_duration
           (ticks_of speech) (fst first, rms_of (fst first), snd first)
           (ticks_of mid) st).
  - destruct speech; [congruence | discriminate].
  - now apply ticks_of_loud.
  - exact Hf.
  - now apply ticks_of_quiet.
Qed.

(** ** Scenario A *)

Lemma sum_app : forall xs ys : list R, sum (xs ++ ys) = (sum xs + sum ys)%R.
Proof.
  induction xs as [|x xs IH]; intros ys; simpl.
  - lra.
  - rewrite IH. lra.
Qed.

Lemma sum_squares_repeat : forall (c : Z) (n : nat),
  sum (map (fun x => ((IZR x / 32768) ^ 2)%R) (repeat c n))
  = (INR n * (IZR c / 32768) ^ 2)%R.
Proof.
  intros c. induction n as [|n IH].
  - simpl. lra.
  - rewrite S_INR. cbn [repeat map sum fold_right].
    fold (sum (map (fun x => ((IZR x / 32768) ^ 2)%R) (repeat c n))).
    rewrite IH. lra.
Qed.

Lemma loud_block_nonempty : loud_block <> [].
Proof.
  intros H. apply (f_equal (@List.length Z)) in H. unfold loud_block in H.
  rewrite length_app, !repeat_length in H. discriminate H.
Qed.

Lemma quiet_block_nonempty : quiet_block <> [].
Proof. unfold quiet_block. discriminate. Qed.

Lemma rms_of_loud_block : rms_of loud_block = Fin 0.05.
Proof.
  rewrite (rms_of_nonempty loud_block loud_block_nonempty). f_equal.
  unfold rms_value, loud_block.
  rewrite map_app, sum_app, !sum_squares_repeat, length_app, !repeat_length.
  rewrite plus_INR, !mult_INR.
  replace (INR 25) with 25%R by (rewrite INR_IZR_INZ; reflexivity).
  replace (INR 120) with 120%R by (rewrite INR_IZR_INZ; reflexivity).
  replace (INR 125) with 125%R by (rewrite INR_IZR_INZ; reflexivity).
  replace ((25 * 25 * (8192 / 32768) ^ 2 + 120 * 125 * (0 / 32768) ^ 2)
           / (25 * 25 + 120 * 125))%R with (0.05 * 0.05)%R by lra.
  apply sqrt_lem_1; lra.
Qed.

Lemma rms_of_quiet_block : rms_of quiet_block = Fin 0.001.
Proof.
  rewrite (rms_of_nonempty quiet_block quiet_block_nonempty). f_equal.
  unfold rms_value, quiet_block.
  cbn [map sum fold_right List.length].
  fold (sum (map (fun x => ((IZR x / 32768) ^ 2)%R)
               (repeat 0%Z (124 * 126)))).
  rewrite sum_squares_repeat, S_INR, repeat_length, !mult_INR.
  replace (INR 124) with 124%R by (rewrite INR_IZR_INZ; reflexivity).
  replace (INR 126) with 126%R by (rewrite INR_IZR_INZ; reflexivity).
  replace (((4096 / 32768) ^ 2 + 124 * 126 * (0 / 32768) ^ 2)
           / (124 * 126 + 1))%R with (0.001 * 0.001)%R by lra.
  apply sqrt_lem_1; lra.
Qed.

Lemma loud_block_is_speech :
  gtb (rms_of loud_block) (Fin silence_threshold) = true.
Proof.
  rewrite rms_of_loud_block. apply gtb_fin_true.
  unfold silence_threshold. lra.
Qed.

Lemma quiet_block_is_silence :
  gtb (rms_of quiet_block) (Fin silence_threshold) = false.
Proof.
  rewrite rms_of_quiet_block. apply gtb_fin_false.
  unfold silence_threshold. lra.
Qed.

Lemma scenario_A_speech :
  Forall (fun b => gtb (rms_of (fst b)) (Fin silence_threshold) = true)
         (map (block_at loud_block) (seq 0 5)).
Proof.
  apply Forall_forall. intros b Hin.
  apply in_map_iff in Hin as (i & <- & _). exact loud_block_is_speech.
Qed.

(** The quiet blocks up to the 188th are read at most 3.0 s after the
    first one. *)
Lemma scenario_A_waiting : forall n,
  (n <= 187)%nat ->
  Forall (fun b => gtb (rms_of (fst b)) (Fin silence_threshold) = false
                   /\ (snd b - snd (block_at quiet_block 5)
                       <= silence_duration)%R)
         (map (block_at quiet_block) (seq 6 n)).
Proof.
  intros n Hn. apply Forall_forall. intros b Hin.
  apply in_map_iff in Hin as (i & <- & Hi). apply in_seq in Hi.
  split; [exact quiet_block_is_silence|].
  unfold block_at, silence_duration; cbn [fst snd].
  assert (Hb : (IZR (Z.of_nat i) <= 192)%R) by (apply IZR_le; lia).
  change (IZR (Z.of_nat 5)) with 5%R. lra.
Qed.

Lemma scenario_A_split_last : forall n,
  scenario_A (S (S n))
  = map (block_at loud_block) (seq 0 5)
    ++ block_at quiet_block 5
       :: map (block_at quiet_block) (seq 6 n)
          ++ [block_at quiet_block (6 + n)].
Proof.
  intros n. unfold scenario_A. f_equal.
  change (seq 5 (S (S n))) with (5%nat :: seq 6 (S n)).
  rewrite seq_S, map_cons, map_app. reflexivity.
Qed.

Lemma scenario_A_split : forall n,
  scenario_A (S n)
  = map (block_at loud_block) (seq 0 5)
    ++ block_at quiet_block 5 :: map (block_at quiet_block) (seq 6 n).
Proof. intros n. reflexivity. Qed.

End VoiceFacts.

(* ================================================================== *)
(** * Statements about the voice pipeline                              *)
(* ================================================================== *)

Module Voice.

Import VoiceInput LoopDescribed VoiceFacts MachineFacts.




(** C5, as the code has it. For a non-empty block of [int16] samples the
    level emitted by the capture loop is the root-mean-square of the
    samples scaled to [-1, 1], times the gain 10, and is not clamped: it
    lies in [0, 10]. It is emitted for every block, whatever the segmenter
    state. The clamp to [0, 1] is applied when the value is stored by
    [update_audio_level]. *)
Theorem level_is_scaled_rms_clamped_when_stored :
  forall data : Frame,
    data <> [] ->
    Forall int16 data ->
    level_of data = Fin (rms_value data * 10)
    /\ (0 <= rms_value data <= 1)%R
    /\ (0 <= rms_value data * 10 <= 10)%R
    /\ (forall (rate : Z) (recognize : AudioData -> Recognition)
               (st : Vad) (now : R),
          exists rest,
            snd (fst (loop_body rate recognize st data now))
            = audio_level_changed (level_of data) :: rest)
    /\ (forall (Landmark World : Type) (s : Sys Landmark World),
          audio_level (sm (update_audio_level (level_of data) s))
          = Fin (clamp (rms_value data * 10) 0 1)).
Proof.
  intros data Hne Hall.
  assert (Hl : level_of data = Fin (rms_value data * 10)).
  { unfold level_of. now rewrite (rms_of_nonempty data Hne). }
  assert (Hb := rms_value_bounds data Hne Hall).
  repeat apply conj; try lra.
  - exact Hl.
  - intros rate recognize st now. unfold loop_body.
    destruct (vad_step silence_threshold silence_duration st data
                (rms_of data) now) as [st' [buffer|]]; simpl; eauto.
  - intros Landmark World s. rewrite Hl.
    apply update_audio_level_stores_clamp.
Qed.

(** Witness for C5: a block of two half-scale samples. *)
Lemma level_is_scaled_rms_witness :
  level_of [16384%Z; (-16384)%Z] = Fin (rms_value [16384%Z; (-16384)%Z] * 10)
  /\ (0 <= rms_value [16384%Z; (-16384)%Z] <= 1)%R.
Proof.
  assert (Hne : [16384%Z; (-16384)%Z] <> []) by discriminate.
  assert (Hall : Forall int16 [16384%Z; (-16384)%Z])
    by (repeat constructor; unfold int16; simpl; lia).
  destruct (level_is_scaled_rms_clamped_when_stored
              [16384%Z; (-16384)%Z] Hne Hall) as (H1 & H2 & _).
  split; [exact H1 | exact H2].
Defined.

Lemma rms_value_half_scale : rms_value [16384%Z] = 0.5%R.
Proof.
  unfold rms_value. simpl.
  apply sqrt_lem_1; lra.
Qed.

(** C5 as stated fails: the emitted level is not clamped. One half-scale
    sample gives level 5.0, not 1.0. *)
Lemma emitted_level_exceeds_one :
  level_of [16384%Z] = Fin 5
  /\ ~ in_unit (level_of [16384%Z])
  /\ level_of [16384%Z] <> Fin (clamp (rms_value [16384%Z] * 10) 0 1).
Proof.
  assert (Hl : level_of [16384%Z] = Fin 5).
  { unfold level_of. rewrite rms_of_nonempty by discriminate.
    rewrite rms_value_half_scale. simpl. f_equal. lra. }
  rewrite Hl, rms_value_half_scale. repeat apply conj.
  - reflexivity.
  - simpl. lra.
  - unfold clamp.
    destruct (Rlt_dec (0.5 * 10) 0); [lra|].
    destruct (Rlt_dec 1 (0.5 * 10)); [|lra].
    intros H. injection H as H. lra.
Qed.

(** An empty block has no level 0.0 in the code: the mean of no samples is
    NaN, the block counts as silence, and the stored level becomes 1.0. *)
Lemma empty_frame_level_is_nan :
  level_of [] = NaN
  /\ gtb (rms_of []) (Fin silence_threshold) = false
  /\ (forall (Landmark World : Type) (s : Sys Landmark World),
        audio_level (sm (update_audio_level (level_of []) s)) = Fin 1).
Proof.
  repeat split. intros Landmark World s.
  unfold update_audio_level. simpl. apply py_clamp_nan.
Qed.

(** C6, as the code has it. [_process_speech] validates nothing but
    emptiness of the list: every non-empty list of blocks, zero-length
    blocks included, leads to exactly one request to the recogniser on the
    concatenated samples, and an "unrecognizable" answer emits nothing. On
    the empty list it returns at once, with no request and no signal. The
    capture loop never hands over an empty list. *)
Theorem nonempty_buffer_always_attempted :
  forall (rate : Z) (recognize : AudioData -> Recognition),
    (forall frames : list Frame,
        frames <> [] ->
        attempts (_process_speech rate recognize frames)
        = [ {| frame_data := tobytes (List.concat frames);
               sample_rate := rate;
               sample_width := 2 |} ]
        /\ (recognize {| frame_data := tobytes (List.concat frames);
                         sample_rate := rate;
                         sample_width := 2 |} = UnknownValueError ->
            signals (_process_speech rate recognize frames) = []))
    /\ attempts (_process_speech rate recognize []) = []
    /\ signals (_process_speech rate recognize []) = []
    /\ (forall (thr dur : R) (st : Vad) (stream : list Tick),
          Forall (fun u => u <> []) (snd (vad_run thr dur st stream))).
Proof.
  intros rate recognize. repeat apply conj.
  - intros frames Hne. destruct frames as [|f frames]; [congruence|].
    split; [reflexivity|].
    intros Hr. unfold _process_speech. cbn [signals]. now rewrite Hr.
  - reflexivity.
  - reflexivity.
  - intros thr dur st stream. apply vad_run_hands_nonempty.
Qed.

(** Witness for C6: an utterance made of one zero-length block. *)
Lemma nonempty_buffer_always_attempted_witness :
  attempts (_process_speech 16000 (fun _ => UnknownValueError) [ [] ])
  = [ {| frame_data := []; sample_rate := 16000; sample_width := 2 |} ]
  /\ signals (_process_speech 16000 (fun _ => UnknownValueError) [ [] ]) = [].
Proof.
  assert (Hne : [ @nil Z ] <> []) by discriminate.
  destruct (proj1 (nonempty_buffer_always_attempted
                     16000 (fun _ => UnknownValueError)) [ [] ] Hne)
    as (Ha & Hs).
  split; [exact Ha | exact (Hs eq_refl)].
Defined.

(** C6 as stated fails: the empty list leads to no transcription attempt. *)
Lemma empty_buffer_is_not_attempted :
  attempts (_process_speech 16000 (fun _ => Returns "hello") []) = []
  /\ signals (_process_speech 16000 (fun _ => Returns "hello") []) = [].
Proof. split; reflexivity. Qed.

End Voice.

(* ================================================================== *)
(** * Further properties                                               *)
(* ================================================================== *)

Module Further.

Import VoiceInput VoiceFacts MachineFacts.

(** X1. [update_audio_level] stores the clamp of its argument to [0, 1] in
    every state, and neither changes the state nor notifies anyone; a NaN
    argument is stored as 1.0. *)
Theorem update_audio_level_clamps_in_every_state :
  forall (Landmark World : Type) (s : Sys Landmark World) (x : R),
    audio_level (sm (update_audio_level (Fin x) s)) = Fin (clamp x 0 1)
    /\ (0 <= clamp x 0 1 <= 1)%R
    /\ audio_level (sm (update_audio_level NaN s)) = Fin 1
    /\ _state (sm (update_audio_level (Fin x) s)) = _state (sm s)
    /\ _previous_state (sm (update_audio_level (Fin x) s))
       = _previous_state (sm s)
    /\ calls (update_audio_level (Fin x) s) = calls s.
Proof.
  intros Landmark World s x.
  split; [|split; [|split; [|repeat split]]].
  - unfold update_audio_level. simpl. apply py_clamp_fin.
  - apply clamp_in_unit.
  - unfold update_audio_level. simpl. apply py_clamp_nan.
Qed.

(** X2. From any state other than Keypad, [set_keypad] followed by any
    number of [update_keypad] calls makes exactly one transition: the
    listeners are notified once, for (old state, Keypad), the state is
    Keypad after every step, the key layout is untouched and [active_key]
    is the argument of the last call. *)
Theorem keypad_feedback_makes_one_transition :
  forall (Landmark World : Type) (s : Sys Landmark World)
         (first : option string) (later : list (option string)),
    _state (sm s) <> KEYPAD ->
    _state (sm (fold_left (fun acc k => update_keypad k acc) later
                  (set_keypad first s))) = KEYPAD
    /\ _previous_state
         (sm (fold_left (fun acc k => update_keypad k acc) later
                (set_keypad first s))) = _state (sm s)
    /\ calls (fold_left (fun acc k => update_keypad k acc) later
                (set_keypad first s))
       = calls s ++ invocations (_state (sm s)) KEYPAD (_listeners (sm s))
    /\ active_key
         (keypad_data
            (sm (fold_left (fun acc k => update_keypad k acc) later
                   (set_keypad first s))))
       = last later first
    /\ rows (keypad_data
               (sm (fold_left (fun acc k => update_keypad k acc) later
                      (set_keypad first s))))
       = rows (keypad_data (sm s)).
Proof.
  intros Landmark World s first later Hne.
  assert (Hne' : KEYPAD <> _state (sm (set_active_key first s)))
    by (simpl; congruence).
  assert (Hbase :
    _state (sm (set_keypad first s)) = KEYPAD
    /\ _previous_state (sm (set_keypad first s)) = _state (sm s)
    /\ calls (set_keypad first s)
       = calls s ++ invocations (_state (sm s)) KEYPAD (_listeners (sm s))
    /\ active_key (keypad_data (sm (set_keypad first s))) = first
    /\ rows (keypad_data (sm (set_keypad first s)))
       = rows (keypad_data (sm s))).
  { unfold set_keypad.
    rewrite (transition_to_sm _ _ _ KEYPAD Hne'),
            (transition_to_calls _ _ _ KEYPAD Hne').
    simpl. repeat split. }
  clear Hne'. revert Hbase. generalize (set_keypad first s) as s1.
  revert first.
  induction later as [|k later IH]; intros first s1 Hbase.
  - exact Hbase.
  - cbn [fold_left].
    destruct Hbase as (H1 & H2 & H3 & H4 & H5).
    assert (Hd : forall (l : list (option string)) x d d',
               last (x :: l) d = last (x :: l) d').
    { clear. induction l as [|y l IHl]; intros x d d'.
      - reflexivity.
      - exact (IHl y d d'). }
    assert (Hl : last (k :: later) first = last later k).
    { destruct later as [|x l]; [reflexivity|]. exact (Hd l x first k). }
    rewrite Hl. apply IH. simpl. now repeat split.
Qed.

(** Witness for X2 (scenario C): [set_keypad()], [update_keypad("a")],
    [update_keypad(None)] on a fresh machine with one listener. *)
Lemma keypad_feedback_witness :
  _state (sm (update_keypad None
                (update_keypad (Some "a"%string)
                   (set_keypad None
                      (add_listener counting_listener (fresh 0%nat))))))
  = KEYPAD
  /\ calls (update_keypad None
              (update_keypad (Some "a"%string)
                 (set_keypad None
                    (add_listener counting_listener (fresh 0%nat)))))
     = [ (1%nat, IDLE, KEYPAD) ].
Proof.
  assert (Hne : _state (sm (add_listener counting_listener (fresh 0%nat)))
                <> KEYPAD) by (simpl; discriminate).
  destruct (keypad_feedback_makes_one_transition Z nat
              (add_listener counting_listener (fresh 0%nat))
              None [Some "a"%string; None] Hne) as (H1 & _ & H3 & _).
  split; [exact H1 | exact H3].
Defined.

Lemma vad_step_invariant : forall thr dur st data rms now,
  vad_invariant st ->
  vad_invariant (fst (vad_step thr dur st data rms now)).
Proof.
  intros thr dur st data rms now [Hsil Hsp]. unfold vad_step.
  destruct (gtb rms (Fin thr)).
  - split; simpl; [discriminate|].
    intros _ E. now apply app_eq_nil in E as [_ E].
  - destruct (is_speaking st) eqn:Es.
    + destruct (silence_start_time st) as [started|].
      * destruct (Rgt_dec (now - started) dur); split; simpl;
          try discriminate; try (intros _; now split);
          intros _ E; now apply app_eq_nil in E as [_ E].
      * split; simpl; [discriminate|].
        intros _ E. now apply app_eq_nil in E as [_ E].
    + simpl. split; [intros _; now apply Hsil | rewrite Es; discriminate].
Qed.

(** X3. Whatever stream has been processed since the loop started, the VAD
    variables satisfy the invariant: the silence timer is set only while
    speaking, the buffer is empty while silent and non-empty while
    speaking. *)
Theorem vad_variables_stay_consistent :
  forall (thr dur : R) (stream : list Tick),
    vad_invariant (fst (vad_run thr dur vad_init stream))
    /\ (silence_start_time (fst (vad_run thr dur vad_init stream)) <> None ->
        is_speaking (fst (vad_run thr dur vad_init stream)) = true).
Proof.
  intros thr dur stream.
  assert (Hgen : forall st, vad_invariant st ->
                   vad_invariant (fst (vad_run thr dur st stream))).
  { induction stream as [|[[data rms] now] rest IH]; intros st Hst; simpl.
    - exact Hst.
    - assert (H1 := vad_step_invariant thr dur st data rms now Hst).
      destruct (vad_step thr dur st data rms now) as [st1 handed].
      specialize (IH st1 H1).
      now destruct (vad_run thr dur st1 rest). }
  assert (Hinit : vad_invariant vad_init).
  { split; simpl; [now split | discriminate]. }
  assert (H := Hgen vad_init Hinit).
  split; [exact H|].
  destruct H as [Hsil _].
  destruct (is_speaking (fst (vad_run thr dur vad_init stream)));
    [reflexivity|].
  intros Hne. destruct (Hsil eq_refl) as [_ Hnone]. contradiction.
Qed.

(** X4. Speech onset: in Silent (not speaking, empty buffer), a block
    whose level is above the threshold switches to Speaking, becomes the
    first element of the buffer, clears the silence timer, and nothing is
    handed over. A block at or below the threshold is discarded. *)
Theorem onset_starts_buffer_with_the_block :
  forall (thr dur : R) (st : Vad) (data : Frame) (rms : pyfloat) (now : R),
    is_speaking st = false ->
    speech_buffer st = [] ->
    (gtb rms (Fin thr) = true ->
       vad_step thr dur st data rms now
       = ({| speech_buffer := [data];
             is_speaking := true;
             silence_start_time := None |}, None))
    /\ (gtb rms (Fin thr) = false ->
          vad_step thr dur st data rms now = (st, None)).
Proof.
  intros thr dur st data rms now Hs Hb. split; intros Hr.
  - rewrite (vad_step_speech thr dur st data rms now Hr). now rewrite Hb.
  - exact (vad_step_ignored thr dur st data rms now Hr Hs).
Qed.

(** Witness for X4: the first loud block of the day. *)
Lemma onset_starts_buffer_witness :
  vad_step 0.01 3 vad_init [1200%Z] (Fin 0.05) 0
  = ({| speech_buffer := [ [1200%Z] ];
        is_speaking := true;
        silence_start_time := None |}, None).
Proof.
  apply (proj1 (onset_starts_buffer_with_the_block
                  0.01%R 3%R vad_init [1200%Z] (Fin 0.05) 0%R
                  eq_refl eq_refl)).
  apply gtb_fin_true. lra.
Defined.

End Further.

(* ================================================================== *)
(** * Placement of the overlay on the screen                           *)
(* ================================================================== *)

Module Placing.

Import Config.

(** X5. When the screen has room for the indicator and its margin on both
    sides, every one of the seven positions puts the whole indicator on the
    screen. *)
Theorem indicator_stays_on_screen :
  forall (cfg : Placement) (screen_width screen_height : Z),
    (0 <= margin cfg)%Z ->
    (0 <= indicator_size cfg)%Z ->
    (indicator_size cfg + 2 * margin cfg <= screen_width)%Z ->
    (indicator_size cfg + 2 * margin cfg <= screen_height)%Z ->
    (0 <= fst (get_screen_position cfg screen_width screen_height)
     /\ fst (get_screen_position cfg screen_width screen_height)
        + indicator_size cfg <= screen_width
     /\ 0 <= snd (get_screen_position cfg screen_width screen_height)
     /\ snd (get_screen_position cfg screen_width screen_height)
        + indicator_size cfg <= screen_height)%Z.
Proof.
  intros [p size m] W H Hm Hs HW HH.
  cbn [margin indicator_size position] in *.
  assert (Hx := Z.div_mod (W - size) 2 ltac:(lia)).
  assert (Hx' := Z.mod_pos_bound (W - size) 2 ltac:(lia)).
  assert (Hy := Z.div_mod (H - size) 2 ltac:(lia)).
  assert (Hy' := Z.mod_pos_bound (H - size) 2 ltac:(lia)).
  destruct p; unfold get_screen_position;
    cbn [margin indicator_size position fst snd]; lia.
Qed.

(** Witness for X5: the default indicator on a 1920 x 1080 screen. *)
Lemma indicator_stays_on_screen_witness :
  (0 <= fst (get_screen_position Placement_default 1920 1080)
   /\ fst (get_screen_position Placement_default 1920 1080)
      + indicator_size Placement_default <= 1920
   /\ 0 <= snd (get_screen_position Placement_default 1920 1080)
   /\ snd (get_screen_position Placement_default 1920 1080)
      + indicator_size Placement_default <= 1080)%Z.
Proof.
  apply (indicator_stays_on_screen Placement_default 1920 1080);
    simpl; lia.
Defined.

(** X6. The two centred coordinates are centred to the pixel: the free
    space on the far side exceeds the free space on the near side by 0 or
    1, whatever the sizes (also when the indicator is larger than the
    screen). [FOLLOW_HAND] is placed exactly like [BOTTOM_RIGHT]. *)
Theorem centre_positions_are_centred :
  forall (cfg : Placement) (screen_width screen_height : Z),
    (position cfg = CENTER \/ position cfg = BOTTOM_CENTER ->
       0 <= (screen_width
             - (fst (get_screen_position cfg screen_width screen_height)
                + indicator_size cfg))
            - fst (get_screen_position cfg screen_width screen_height) <= 1)%Z
    /\ (position cfg = CENTER ->
          0 <= (screen_height
                - (snd (get_screen_position cfg screen_width screen_height)
                   + indicator_size cfg))
               - snd (get_screen_position cfg screen_width screen_height)
          <= 1)%Z
    /\ (position cfg = FOLLOW_HAND ->
          get_screen_position cfg screen_width screen_height
          = get_screen_position
              {| position := BOTTOM_RIGHT;
                 indicator_size := indicator_size cfg;
                 margin := margin cfg |} screen_width screen_height).
Proof.
  intros [p size m] W H. cbn [margin indicator_size position].
  assert (Hx := Z.div_mod (W - size) 2 ltac:(lia)).
  assert (Hx' := Z.mod_pos_bound (W - size) 2 ltac:(lia)).
  assert (Hy := Z.div_mod (H - size) 2 ltac:(lia)).
  assert (Hy' := Z.mod_pos_bound (H - size) 2 ltac:(lia)).
  repeat apply conj.
  - intros [-> | ->]; unfold get_screen_position;
      cbn [margin indicator_size position fst snd]; lia.
  - intros ->; unfold get_screen_position;
      cbn [margin indicator_size position fst snd]; lia.
  - intros ->. reflexivity.
Qed.

(** Witness for X6: an odd amount of free space, 1921 - 80 pixels. *)
Lemma centre_positions_are_centred_witness :
  (0 <= (1921
         - (fst (get_screen_position Placement_default 1921 1080)
            + indicator_size Placement_default))
        - fst (get_screen_position Placement_default 1921 1080) <= 1)%Z.
Proof.
  exact (proj1 (centre_positions_are_centred Placement_default 1921 1080)
               (or_introl eq_refl)).
Defined.

(** X7. With a screen present, [_update_geometry] makes the window a square
    of four indicator sizes that covers the indicator square returned by
    [get_screen_position], with the two squares' centres at the same pixel;
    without a screen it changes nothing. *)
Theorem window_covers_indicator :
  forall (cfg : Placement) (screen_width screen_height : Z)
         (g : WindowGeometry),
    (0 <= indicator_size cfg)%Z ->
    (win_width (_update_geometry cfg (Some (screen_width, screen_height)) g)
     = 4 * indicator_size cfg
     /\ win_height (_update_geometry cfg (Some (screen_width, screen_height)) g)
        = 4 * indicator_size cfg
     /\ win_x (_update_geometry cfg (Some (screen_width, screen_height)) g)
        <= fst (get_screen_position cfg screen_width screen_height)
     /\ fst (get_screen_position cfg screen_width screen_height)
        + indicator_size cfg
        <= win_x (_update_geometry cfg (Some (screen_width, screen_height)) g)
           + 4 * indicator_size cfg
     /\ win_y (_update_geometry cfg (Some (screen_width, screen_height)) g)
        <= snd (get_screen_position cfg screen_width screen_height)
     /\ snd (get_screen_position cfg screen_width screen_height)
        + indicator_size cfg
        <= win_y (_update_geometry cfg (Some (screen_width, screen_height)) g)
           + 4 * indicator_size cfg
     /\ win_x (_update_geometry cfg (Some (screen_width, screen_height)) g)
        + (4 * indicator_size cfg) / 2
        = fst (get_screen_position cfg screen_width screen_height)
          + indicator_size cfg / 2
     /\ win_y (_update_geometry cfg (Some (screen_width, screen_height)) g)
        + (4 * indicator_size cfg) / 2
        = snd (get_screen_position cfg screen_width screen_height)
          + indicator_size cfg / 2)%Z
    /\ _update_geometry cfg None g = g.
Proof.
  intros cfg W H g Hs. unfold _update_geometry.
  destruct (get_screen_position cfg W H) as [x y].
  cbn [win_x win_y win_width win_height fst snd].
  assert (H4 : (indicator_size cfg * 4 / 2 = 2 * indicator_size cfg)%Z).
  { replace (indicator_size cfg * 4)%Z with ((2 * indicator_size cfg) * 2)%Z
      by lia. apply Z.div_mul. lia. }
  assert (H4' : (4 * indicator_size cfg / 2 = 2 * indicator_size cfg)%Z).
  { replace (4 * indicator_size cfg)%Z with ((2 * indicator_size cfg) * 2)%Z
      by lia. apply Z.div_mul. lia. }
  assert (Hh := Z.div_mod (indicator_size cfg) 2 ltac:(lia)).
  assert (Hh' := Z.mod_pos_bound (indicator_size cfg) 2 ltac:(lia)).
  rewrite ?H4, ?H4'. repeat split; lia.
Qed.

(** Witness for X7: the default configuration on a 1920 x 1080 screen. *)
Lemma window_covers_indicator_witness :
  (win_x (_update_geometry Placement_default (Some (1920, 1080))
            (mkGeometry 0 0 0 0))
   <= fst (get_screen_position Placement_default 1920 1080))%Z.
Proof.
  assert (Hs : (0 <= indicator_size Placement_default)%Z) by (simpl; lia).
  destruct (window_covers_indicator Placement_default 1920 1080
              (mkGeometry 0 0 0 0) Hs) as ((_ & _ & Hx & _) & _).
  exact Hx.
Defined.

(** X8. The keyboard window of [_expand_for_keypad] is 1000 x 400 and
    centred to the pixel; it lies on the screen exactly when the screen is
    at least 1000 x 400, and otherwise starts left of or above it. *)
Theorem keypad_window_is_centred :
  forall (screen_width screen_height : Z) (g : WindowGeometry),
    (win_width (_expand_for_keypad (Some (screen_width, screen_height)) g)
     = 1000
     /\ win_height (_expand_for_keypad (Some (screen_width, screen_height)) g)
        = 400
     /\ 0 <= (screen_width
              - (win_x (_expand_for_keypad
                          (Some (screen_width, screen_height)) g) + 1000))
             - win_x (_expand_for_keypad
                        (Some (screen_width, screen_height)) g) <= 1
     /\ 0 <= (screen_height
              - (win_y (_expand_for_keypad
                          (Some (screen_width, screen_height)) g) + 400))
             - win_y (_expand_for_keypad
                        (Some (screen_width, screen_height)) g) <= 1
     /\ (0 <= win_x (_expand_for_keypad
                       (Some (screen_width, screen_height)) g)
         <-> 1000 <= screen_width)
     /\ (0 <= win_y (_expand_for_keypad
                       (Some (screen_width, screen_height)) g)
         <-> 400 <= screen_height))%Z.
Proof.
  intros W H g. unfold _expand_for_keypad.
  cbn [win_x win_y win_width win_height].
  assert (Hx := Z.div_mod (W - 1000) 2 ltac:(lia)).
  assert (Hx' := Z.mod_pos_bound (W - 1000) 2 ltac:(lia)).
  assert (Hy := Z.div_mod (H - 400) 2 ltac:(lia)).
  assert (Hy' := Z.mod_pos_bound (H - 400) 2 ltac:(lia)).
  repeat split; lia.
Qed.

End Placing.

(* ================================================================== *)
(** * Registration of listeners                                        *)
(* ================================================================== *)

Module Listeners.

Import MachineFacts.

Section Registration.

Variable Landmark : Type.
Variable World : Type.

Implicit Types (s : Sys Landmark World) (ls : list (Listener World)).

Lemma remove_first_absent : forall ls i,
  (forall l, In l ls -> listener_id l <> i) -> remove_first i ls = ls.
Proof.
  induction ls as [|l rest IH]; intros i Habs; simpl.
  - reflexivity.
  - destruct (Nat.eqb_spec (listener_id l) i) as [E|_].
    + exfalso. apply (Habs l); [now left | exact E].
    + f_equal. apply IH. intros l' Hin. apply Habs. now right.
Qed.

Lemma remove_first_split :
  forall (before after : list (Listener World)) (l0 : Listener World) i,
  listener_id l0 = i ->
  (forall l', In l' before -> listener_id l' <> i) ->
  remove_first i (before ++ l0 :: after) = before ++ after.
Proof.
  induction before as [|l rest IH]; intros after l0 i Hid Habs; simpl.
  - rewrite Hid, Nat.eqb_refl. reflexivity.
  - destruct (Nat.eqb_spec (listener_id l) i) as [E|_].
    + exfalso. apply (Habs l); [now left | exact E].
    + f_equal. apply IH; [exact Hid|].
      intros l' Hin. apply Habs. now right.
Qed.

Lemma remove_first_count : forall ls i,
  count_occ Nat.eq_dec (map (@listener_id World) (remove_first i ls)) i
  = pred (count_occ Nat.eq_dec (map (@listener_id World) ls) i).
Proof.
  induction ls as [|l rest IH]; intros i; simpl.
  - reflexivity.
  - destruct (Nat.eqb_spec (listener_id l) i) as [E|N].
    + destruct (Nat.eq_dec (listener_id l) i); [reflexivity | contradiction].
    + simpl. destruct (Nat.eq_dec (listener_id l) i); [contradiction|].
      apply IH.
Qed.

Lemma remove_first_others : forall ls i,
  filter (fun l => negb (Nat.eqb (listener_id l) i)) (remove_first i ls)
  = filter (fun l => negb (Nat.eqb (listener_id l) i)) ls.
Proof.
  induction ls as [|l rest IH]; intros i; simpl.
  - reflexivity.
  - destruct (Nat.eqb (listener_id l) i) eqn:E; simpl.
    + reflexivity.
    + rewrite E. simpl. f_equal. apply IH.
Qed.

Lemma remove_first_app_present : forall ls i l,
  (exists l0, In l0 ls /\ listener_id l0 = i) ->
  remove_first i (ls ++ [l]) = remove_first i ls ++ [l].
Proof.
  induction ls as [|l1 rest IH]; intros i l (l0 & Hin & Hid); simpl.
  - destruct Hin.
  - destruct (Nat.eqb_spec (listener_id l1) i) as [E|N].
    + reflexivity.
    + simpl. f_equal. apply IH. destruct Hin as [->|Hin]; [contradiction|].
      now exists l0.
Qed.

Lemma remove_first_app_absent : forall ls l,
  (forall l0, In l0 ls -> listener_id l0 <> listener_id l) ->
  remove_first (listener_id l) (ls ++ [l]) = ls.
Proof.
  induction ls as [|l1 rest IH]; intros l Habs; simpl.
  - now rewrite Nat.eqb_refl.
  - destruct (Nat.eqb_spec (listener_id l1) (listener_id l)) as [E|N].
    + exfalso. apply (Habs l1); [now left | exact E].
    + f_equal. apply IH. intros l0 Hin. apply Habs. now right.
Qed.

Lemma invocations_count : forall ls old new i,
  count_occ Nat.eq_dec
    (map (fun c : Call => fst (fst c)) (invocations old new ls)) i
  = count_occ Nat.eq_dec (map (@listener_id World) ls) i.
Proof.
  intros ls old new i. unfold invocations. rewrite map_map. reflexivity.
Qed.

(** X9. [remove_listener] takes out the first registration of the callback
    and nothing else: when the list is [before], the callback, [after],
    with no registration of the callback in [before], the list becomes
    [before] followed by [after]; the number of its registrations drops by
    one, the other listeners keep their order, the machine's states and
    the notification log are untouched; for a callback that is not
    registered the call changes nothing (and does not raise). *)
Theorem remove_listener_takes_first_registration :
  forall s (l : Listener World),
    (forall (before after : list (Listener World)) (l0 : Listener World),
        _listeners (sm s) = before ++ l0 :: after ->
        listener_id l0 = listener_id l ->
        (forall l', In l' before -> listener_id l' <> listener_id l) ->
        _listeners (sm (remove_listener l s)) = before ++ after)
    /\ count_occ Nat.eq_dec
      (map (@listener_id World) (_listeners (sm (remove_listener l s))))
      (listener_id l)
    = pred (count_occ Nat.eq_dec
              (map (@listener_id World) (_listeners (sm s))) (listener_id l))
    /\ filter (fun l' => negb (Nat.eqb (listener_id l') (listener_id l)))
              (_listeners (sm (remove_listener l s)))
       = filter (fun l' => negb (Nat.eqb (listener_id l') (listener_id l)))
                (_listeners (sm s))
    /\ _state (sm (remove_listener l s)) = _state (sm s)
    /\ _previous_state (sm (remove_listener l s)) = _previous_state (sm s)
    /\ calls (remove_listener l s) = calls s
    /\ ((forall l', In l' (_listeners (sm s)) ->
           listener_id l' <> listener_id l) ->
        remove_listener l s = s).
Proof.
  intros s l. unfold remove_listener, with_sm. simpl.
  repeat apply conj; try reflexivity.
  - intros before after l0 Hls Hid Habs. rewrite Hls.
    now apply remove_first_split.
  - apply remove_first_count.
  - apply remove_first_others.
  - intros Habs. rewrite (remove_first_absent _ _ Habs).
    destruct s as [m w o c]. destruct m. reflexivity.
Qed.

(** X10. Registering a callback and removing it again gives back the
    listener list when the callback was not registered before; when it
    was, the older registration is the one removed, so the callback ends
    up last in the order of notification. *)
Theorem add_then_remove_listener :
  forall s (l : Listener World),
    ((forall l0, In l0 (_listeners (sm s)) ->
        listener_id l0 <> listener_id l) ->
     remove_listener l (add_listener l s) = s)
    /\ ((exists l0, In l0 (_listeners (sm s))
                    /\ listener_id l0 = listener_id l) ->
        _listeners (sm (remove_listener l (add_listener l s)))
        = remove_first (listener_id l) (_listeners (sm s)) ++ [l]).
Proof.
  intros s l. unfold remove_listener, add_listener, with_sm. simpl. split.
  - intros Habs. rewrite (remove_first_app_absent _ _ Habs).
    destruct s as [m w o c]. destruct m. reflexivity.
  - intros Hpre. now apply remove_first_app_present.
Qed.

End Registration.

(** Witness for X9: the raising listener registered before and after the
    counting listener; removing it leaves the counting listener first. *)
Lemma remove_listener_witness :
  _listeners
    (sm (remove_listener raising_listener
           (add_listener raising_listener scenario_D_start)))
  = [] ++ [counting_listener; raising_listener].
Proof.
  apply (proj1 (remove_listener_takes_first_registration Z nat
                  (add_listener raising_listener scenario_D_start)
                  raising_listener)
           [] [counting_listener; raising_listener] raising_listener).
  - reflexivity.
  - reflexivity.
  - intros l' [].
Defined.

(** Witness for X10: the raising listener of scenario D, registered a
    second time and removed once, ends up behind the counting listener. *)
Lemma add_then_remove_listener_witness :
  _listeners (sm (remove_listener raising_listener
                    (add_listener raising_listener scenario_D_start)))
  = [counting_listener; raising_listener].
Proof.
  apply (proj2 (add_then_remove_listener Z nat scenario_D_start
                  raising_listener)).
  exists raising_listener. split; [now left | reflexivity].
Defined.

End Listeners.

(* ================================================================== *)
(** * The animation calculators                                        *)
(* ================================================================== *)

Module Animating.

Import Animations.

Lemma py_clamp_range : forall (a b : R) (x : pyfloat),
  (a <= b)%R ->
  exists r, py_max (Fin a) (py_min (Fin b) x) = Fin r /\ (a <= r <= b)%R.
Proof.
  intros a b x Hab. unfold py_max, py_min, gtb, ltb.
  destruct x as [|v].
  - destruct (Rlt_dec a b); [exists b | exists a]; split;
      (reflexivity || lra).
  - destruct (Rlt_dec v b).
    + destruct (Rlt_dec a v); [exists v | exists a]; split;
        (reflexivity || lra).
    + destruct (Rlt_dec a b); [exists b | exists a]; split;
        (reflexivity || lra).
Qed.

Lemma py_int_between : forall (a b : Z) (x : R),
  (IZR a <= x <= IZR b)%R -> (a <= py_int x <= b)%Z.
Proof.
  intros a b x [Hlo Hhi]. unfold py_int.
  destruct (Rle_dec 0 x) as [Hx|Hx].
  - destruct (base_Int_part x) as [H1 H2]. split.
    + assert (H : (IZR (a - 1) < IZR (Int_part x))%R)
        by (rewrite minus_IZR; lra).
      apply lt_IZR in H. lia.
    + apply le_IZR. lra.
  - destruct (base_Int_part (- x)) as [H1 H2]. split.
    + apply le_IZR. rewrite opp_IZR. lra.
    + assert (H : (IZR (- Int_part (- x)) < IZR (b + 1))%R)
        by (rewrite opp_IZR, plus_IZR; lra).
      apply lt_IZR in H. lia.
Qed.

Lemma py_int_IZR : forall c : Z, py_int (IZR c) = c.
Proof.
  intros c.
  assert (H : (c <= py_int (IZR c) <= c)%Z)
    by (apply py_int_between; lra).
  lia.
Qed.

Lemma mix_between : forall (c1 c2 : Z) (t : R),
  (0 <= t <= 1)%R ->
  (Z.min c1 c2 <= mix c1 c2 t <= Z.max c1 c2)%Z.
Proof.
  intros c1 c2 t Ht. unfold mix. apply py_int_between.
  destruct (Z.le_ge_cases c1 c2) as [H|H].
  - rewrite Z.min_l, Z.max_r by lia. apply IZR_le in H. nra.
  - rewrite Z.min_r, Z.max_l by lia. apply IZR_le in H. nra.
Qed.

(** X12. On [0, 1] the easing curve [ease_in_out_quad] starts at 0, ends
    at 1, stays within [0, 1], never decreases, and is point-symmetric
    about (1/2, 1/2). *)
Theorem ease_in_out_quad_shape :
  forall t : R,
    (0 <= t <= 1)%R ->
    (0 <= ease_in_out_quad t <= 1)%R
    /\ ease_in_out_quad (1 - t) = (1 - ease_in_out_quad t)%R
    /\ (forall u : R, (t <= u <= 1)%R ->
          (ease_in_out_quad t <= ease_in_out_quad u)%R)
    /\ ease_in_out_quad 0 = 0%R
    /\ ease_in_out_quad 1 = 1%R.
Proof.
  intros t Ht. unfold ease_in_out_quad. repeat apply conj.
  - destruct (Rlt_dec t 0.5); simpl; nra.
  - destruct (Rlt_dec t 0.5); simpl; nra.
  - destruct (Rlt_dec t 0.5); destruct (Rlt_dec (1 - t) 0.5); simpl;
      try nra.
  - intros u Hu.
    destruct (Rlt_dec t 0.5); destruct (Rlt_dec u 0.5); simpl; nra.
  - destruct (Rlt_dec 0 0.5); simpl; lra.
  - destruct (Rlt_dec 1 0.5); simpl; lra.
Qed.

(** Witness for X12: a quarter of the way. *)
Lemma ease_in_out_quad_shape_witness :
  (0 <= ease_in_out_quad 0.25 <= 1)%R.
Proof.
  assert (H : (0 <= 0.25 <= 1)%R) by lra.
  exact (proj1 (ease_in_out_quad_shape 0.25%R H)).
Defined.

Lemma breathing_update_returns : forall self delta_ms,
  duration_ms self <> 0%Z ->
  breathing_update self delta_ms
  = Returns
      ({| min_value := min_value self; max_value := max_value self;
          duration_ms := duration_ms self;
          _elapsed := ((_elapsed self + delta_ms) mod duration_ms self)%Z |},
       (min_value self
        + (sin (IZR ((_elapsed self + delta_ms) mod duration_ms self)
                / IZR (duration_ms self) * 2 * PI) * 0.5 + 0.5)
          * (max_value self - min_value self))%R).
Proof.
  intros self delta_ms Hd. unfold breathing_update.
  destruct (Z.eqb_spec (duration_ms self) 0) as [E|_]; [contradiction|].
  reflexivity.
Qed.



(** X14. [WaveformAnimation.update] returns one height per bar (none for
    a bar count of 0 or less), and every height is a number between 0.1
    and 1.0, whatever the audio level (NaN and values outside [0, 1]
    included) and whatever the random jitter. *)
Theorem waveform_heights_are_clamped :
  forall (self : WaveformAnimation) (delta_ms : Z) (audio_level : pyfloat)
         (jitter : Z -> R),
    List.length (snd (waveform_update self delta_ms audio_level jitter))
    = Z.to_nat (num_bars self)
    /\ Forall (fun h => exists r, h = Fin r /\ (0.1 <= r <= 1)%R)
              (snd (waveform_update self delta_ms audio_level jitter))
    /\ num_bars (fst (waveform_update self delta_ms audio_level jitter))
       = num_bars self.
Proof.
  intros self delta_ms audio_level jitter. unfold waveform_update.
  cbn [fst snd num_bars]. repeat apply conj.
  - unfold range. now rewrite !length_map, length_seq.
  - apply Forall_forall. intros h Hin.
    apply in_map_iff in Hin as (i & <- & _).
    unfold bar_height. apply py_clamp_range. lra.
  - reflexivity.
Qed.

(** X15. [interpolate_color] never fails, not even on NaN. Each channel of
    the result lies between the two colours' channels; a factor of 0 or
    less gives the first colour, a factor of 1 or more, and NaN, give the
    second. *)
Theorem interpolated_colour_is_between :
  forall (color1 color2 : QColor) (t : pyfloat),
    exists c : QColor,
      interpolate_color color1 color2 t = Some c
      /\ (Z.min (red color1) (red color2) <= red c
          <= Z.max (red color1) (red color2))%Z
      /\ (Z.min (green color1) (green color2) <= green c
          <= Z.max (green color1) (green color2))%Z
      /\ (Z.min (blue color1) (blue color2) <= blue c
          <= Z.max (blue color1) (blue color2))%Z
      /\ (Z.min (alpha color1) (alpha color2) <= alpha c
          <= Z.max (alpha color1) (alpha color2))%Z
      /\ (forall x, t = Fin x -> (x <= 0)%R -> c = color1)
      /\ (forall x, t = Fin x -> (1 <= x)%R -> c = color2)
      /\ (t = NaN -> c = color2).
Proof.
  intros color1 color2 t. unfold interpolate_color.
  assert (H01 : (0 <= 1)%R) by lra.
  destruct (py_clamp_range 0 1 t H01) as (r & Hr & Hrange).
  rewrite Hr. eexists. split; [reflexivity|].
  cbn [red green blue alpha].
  repeat apply conj; try (apply mix_between; exact Hrange).
  - intros x -> Hx.
    assert (E : r = 0%R).
    { rewrite MachineFacts.py_clamp_fin in Hr. injection Hr as <-.
      unfold clamp. destruct (Rlt_dec x 0); [reflexivity|].
      destruct (Rlt_dec 1 x); lra. }
    subst r. unfold mix. rewrite !Rmult_0_r, !Rplus_0_r, !py_int_IZR.
    now destruct color1.
  - intros x -> Hx.
    assert (E : r = 1%R).
    { rewrite MachineFacts.py_clamp_fin in Hr. injection Hr as <-.
      unfold clamp. destruct (Rlt_dec x 0); [lra|].
      destruct (Rlt_dec 1 x); lra. }
    subst r. unfold mix.
    replace (IZR (red color1) + (IZR (red color2) - IZR (red color1)) * 1)%R
      with (IZR (red color2)) by lra.
    replace (IZR (green color1)
             + (IZR (green color2) - IZR (green color1)) * 1)%R
      with (IZR (green color2)) by lra.
    replace (IZR (blue color1) + (IZR (blue color2) - IZR (blue color1)) * 1)%R
      with (IZR (blue color2)) by lra.
    replace (IZR (alpha color1)
             + (IZR (alpha color2) - IZR (alpha color1)) * 1)%R
      with (IZR (alpha color2)) by lra.
    rewrite !py_int_IZR. now destruct color2.
  - intros ->.
    assert (E : r = 1%R).
    { rewrite MachineFacts.py_clamp_nan in Hr. now injection Hr as <-. }
    subst r. unfold mix.
    replace (IZR (red color1) + (IZR (red color2) - IZR (red color1)) * 1)%R
      with (IZR (red color2)) by lra.
    replace (IZR (green color1)
             + (IZR (green color2) - IZR (green color1)) * 1)%R
      with (IZR (green color2)) by lra.
    replace (IZR (blue color1) + (IZR (blue color2) - IZR (blue color1)) * 1)%R
      with (IZR (blue color2)) by lra.
    replace (IZR (alpha color1)
             + (IZR (alpha color2) - IZR (alpha color1)) * 1)%R
      with (IZR (alpha color2)) by lra.
    rewrite !py_int_IZR. now destruct color2.
Qed.

End Animating.

(* ================================================================== *)
(** * Key rectangles and hit testing                                   *)
(* ================================================================== *)

Module KeyboardFacts.

Import Keyboard KeyboardDescribed.

Local Open Scope R_scope.

(** ** The dictionary *)

Lemma dict_get_set_eq : forall d k v, dict_get (dict_set d k v) k = Some v.
Proof.
  induction d as [|[k' v'] rest IH]; intros k v; simpl.
  - now rewrite String.eqb_refl.
  - destruct (String.eqb k' k) eqn:E; simpl.
    + now rewrite String.eqb_refl.
    + now rewrite E.
Qed.

Lemma dict_get_set_ne : forall d k v k',
  k <> k' -> dict_get (dict_set d k v) k' = dict_get d k'.
Proof.
  induction d as [|[k0 v0] rest IH]; intros k v k' Hne; simpl.
  - destruct (String.eqb_spec k k'); [contradiction | reflexivity].
  - destruct (String.eqb_spec k0 k) as [->|N]; simpl.
    + destruct (String.eqb_spec k k'); [contradiction | reflexivity].
    + destruct (String.eqb_spec k0 k'); [reflexivity | now apply IH].
Qed.

Lemma dict_set_keys_absent : forall d k v,
  ~ In k (map fst d) -> dict_set d k v = d ++ [(k, v)].
Proof.
  induction d as [|[k' v'] rest IH]; intros k v Hn; simpl.
  - reflexivity.
  - destruct (String.eqb_spec k' k) as [->|N].
    + exfalso. apply Hn. now left.
    + f_equal. apply IH. intros Hin. apply Hn. now right.
Qed.

Lemma dict_set_keys : forall d k v k',
  In k' (map fst (dict_set d k v)) <-> k' = k \/ In k' (map fst d).
Proof.
  induction d as [|[k0 v0] rest IH]; intros k v k'; simpl.
  - intuition.
  - destruct (String.eqb_spec k0 k) as [->|N]; simpl.
    + intuition.
    + rewrite IH. intuition.
Qed.

Lemma dict_set_nodup : forall d k v,
  NoDup (map fst d) -> NoDup (map fst (dict_set d k v)).
Proof.
  induction d as [|[k0 v0] rest IH]; intros k v Hnd; simpl.
  - constructor; [intros [] | constructor].
  - inversion Hnd as [|? ? Hn Hrest]; subst.
    destruct (String.eqb_spec k0 k) as [->|N]; simpl.
    + now constructor.
    + constructor; [|now apply IH].
      rewrite dict_set_keys. intros [E|Hin]; [congruence | contradiction].
Qed.

Lemma store_snoc : forall d drawn kr,
  store d (drawn ++ [kr]) = dict_set (store d drawn) (code (fst kr)) (snd kr).
Proof. intros d drawn kr. unfold store. now rewrite fold_left_app. Qed.

Lemma store_nodup : forall drawn d,
  NoDup (map fst d) -> NoDup (map fst (store d drawn)).
Proof.
  induction drawn as [|kr rest IH]; intros d Hnd; simpl.
  - exact Hnd.
  - apply IH. now apply dict_set_nodup.
Qed.

Lemma store_get : forall drawn d k,
  dict_get (store d drawn) k
  = match drawn_last k drawn with
    | Some r => Some r
    | None => dict_get d k
    end.
Proof.
  induction drawn as [|kr rest IH] using rev_ind; intros d k.
  - reflexivity.
  - rewrite store_snoc. unfold drawn_last. rewrite rev_app_distr. simpl.
    destruct (String.eqb_spec (code (fst kr)) k) as [<-|N]; simpl.
    + apply dict_get_set_eq.
    + rewrite dict_get_set_ne by exact N. apply IH.
Qed.

Lemma store_distinct : forall drawn d,
  NoDup (map fst d ++ map (fun kr => code (fst kr)) drawn) ->
  store d drawn = d ++ map (fun kr => (code (fst kr), snd kr)) drawn.
Proof.
  induction drawn as [|kr rest IH]; intros d Hnd; simpl.
  - now rewrite app_nil_r.
  - rewrite dict_set_keys_absent.
    + rewrite IH.
      * now rewrite <- app_assoc.
      * rewrite map_app. simpl. rewrite <- app_assoc. exact Hnd.
    + simpl in Hnd. apply NoDup_remove_2 in Hnd.
      intros Hin. apply Hnd. apply in_or_app. now left.
Qed.

(** ** The two loops *)

Lemma place_row_described : forall row x y acc,
  place_row row x y acc
  = {| key_rects := store (key_rects acc) (row_rects row x y);
       painted := painted acc ++ row_rects row x y |}.
Proof.
  induction row as [|key rest IH]; intros x y acc; simpl.
  - rewrite app_nil_r. now destruct acc.
  - rewrite IH. simpl. now rewrite <- app_assoc.
Qed.

Lemma place_rows_described : forall (rs : Rows) cx y acc,
  place_rows rs cx y acc
  = {| key_rects := store (key_rects acc) (all_rects rs cx y);
       painted := painted acc ++ all_rects rs cx y |}.
Proof.
  induction rs as [|row rest IH]; intros cx y acc; simpl.
  - rewrite app_nil_r. now destruct acc.
  - rewrite IH, place_row_described. simpl.
    unfold store. rewrite fold_left_app. now rewrite <- app_assoc.
Qed.

Lemma row_rects_keys : forall row x y,
  map fst (row_rects row x y) = row.
Proof.
  induction row as [|key rest IH]; intros x y; simpl.
  - reflexivity.
  - now rewrite IH.
Qed.

Lemma all_rects_keys : forall (rs : Rows) cx y,
  map fst (all_rects rs cx y) = List.concat rs.
Proof.
  induction rs as [|row rest IH]; intros cx y; simpl.
  - reflexivity.
  - now rewrite map_app, row_rects_keys, IH.
Qed.

(** ** Rectangles *)

Lemma contains_inside : forall r p,
  0 < rwidth r -> 0 < rheight r ->
  (contains r p = true <-> inside r p).
Proof.
  intros r p Hw Hh. unfold contains, inside.
  destruct (Rlt_dec (rwidth r) 0); [lra|].
  destruct (Rlt_dec (rheight r) 0); [lra|].
  destruct (Req_dec_T (rx r) (rx r + rwidth r)); [lra|].
  destruct (Rlt_dec (px p) (rx r)); [split; [discriminate | lra]|].
  destruct (Rlt_dec (rx r + rwidth r) (px p)); [split; [discriminate | lra]|].
  destruct (Req_dec_T (ry r) (ry r + rheight r)); [lra|].
  destruct (Rlt_dec (py p) (ry r)); [split; [discriminate | lra]|].
  destruct (Rlt_dec (ry r + rheight r) (py p));
    [split; [discriminate | lra]|].
  split; [lra | reflexivity].
Qed.

Lemma inside_center : forall r,
  0 <= rwidth r -> 0 <= rheight r -> inside r (center r).
Proof. intros r Hw Hh. unfold inside, center. simpl. lra. Qed.

Lemma row_rects_shape : forall row x y,
  Forall (fun key => 0 < width key) row ->
  Forall (fun kr => x <= rx (snd kr) /\ ry (snd kr) = y
                    /\ rheight (snd kr) = base_key_size
                    /\ 0 < rwidth (snd kr))
         (row_rects row x y).
Proof.
  induction row as [|key rest IH]; intros x y Hpos; simpl.
  - constructor.
  - inversion Hpos as [|? ? Hk Hrest]; subst.
    unfold base_key_size, gap in *.
    constructor.
    + simpl. repeat split; lra.
    + eapply Forall_impl; [|apply IH; exact Hrest].
      intros kr (H1 & H2 & H3 & H4). repeat split; try assumption. lra.
Qed.

Lemma ordered_app : forall (l1 l2 : list (KeyData * QRectF)),
  ForallOrdPairs before l1 ->
  ForallOrdPairs before l2 ->
  (forall a b, In a l1 -> In b l2 -> before a b) ->
  ForallOrdPairs before (l1 ++ l2).
Proof.
  induction l1 as [|a l1 IH]; intros l2 H1 H2 Hc; simpl.
  - exact H2.
  - inversion H1 as [|? ? Ha Hl1]; subst. constructor.
    + apply Forall_app. split; [exact Ha|].
      apply Forall_forall. intros b Hb. apply Hc; [now left | exact Hb].
    + apply IH; try assumption. intros x y Hx Hy. apply Hc; [now right|].
      exact Hy.
Qed.

Lemma ordered_split : forall (pre post : list (KeyData * QRectF)) a,
  ForallOrdPairs before (pre ++ a :: post) -> Forall (before a) post.
Proof.
  induction pre as [|x pre IH]; intros post a H; simpl in H.
  - now inversion H.
  - inversion H; subst. now apply IH.
Qed.

Lemma row_rects_ordered : forall row x y,
  Forall (fun key => 0 < width key) row ->
  ForallOrdPairs before (row_rects row x y).
Proof.
  induction row as [|key rest IH]; intros x y Hpos; simpl.
  - constructor.
  - inversion Hpos as [|? ? Hk Hrest]; subst. constructor.
    + eapply Forall_impl;
        [|apply (row_rects_shape rest
                   (x + (width key * base_key_size + gap)) y Hrest)].
      intros kr (H1 & H2 & _). left. simpl. split; [exact H2 | lra].
    + now apply IH.
Qed.

Lemma all_rects_shape : forall (rs : Rows) cx y,
  positive_widths rs ->
  Forall (well_shaped y) (all_rects rs cx y).
Proof.
  induction rs as [|row rest IH]; intros cx y Hpos; simpl.
  - constructor.
  - inversion Hpos as [|? ? Hrow Hrest]; subst.
    apply Forall_app. split.
    + eapply Forall_impl; [|apply (row_rects_shape _ _ y Hrow)].
      intros kr (_ & H2 & H3 & H4). unfold well_shaped.
      repeat split; try assumption. lra.
    + eapply Forall_impl; [|apply (IH cx _ Hrest)].
      intros kr (H1 & H2 & H3). unfold well_shaped, base_key_size, gap in *.
      repeat split; try assumption. lra.
Qed.

Lemma all_rects_ordered : forall (rs : Rows) cx y,
  positive_widths rs ->
  ForallOrdPairs before (all_rects rs cx y).
Proof.
  induction rs as [|row rest IH]; intros cx y Hpos; simpl.
  - constructor.
  - inversion Hpos as [|? ? Hrow Hrest]; subst.
    apply ordered_app.
    + now apply row_rects_ordered.
    + now apply IH.
    + intros a b Ha Hb.
      assert (Hsa := row_rects_shape _ (cx - row_width row / 2) y Hrow).
      rewrite Forall_forall in Hsa. destruct (Hsa a Ha) as (_ & Hya & _).
      assert (Hsb := all_rects_shape rest cx
                       (y + (base_key_size + gap)) Hrest).
      rewrite Forall_forall in Hsb. destruct (Hsb b Hb) as (Hyb & _).
      right. lra.
Qed.

Lemma before_disjoint : forall a b p,
  rheight (snd a) = base_key_size ->
  before a b -> inside (snd a) p -> inside (snd b) p -> False.
Proof.
  intros a b p Hh [[Hy Hx]|Hy] [Hax Hay] [Hbx Hby];
    unfold base_key_size, gap in *; lra.
Qed.

(** Two drawn keys whose rectangles share a point are the same key. *)
Lemma drawn_keys_do_not_overlap : forall (rs : Rows) cx y a b p,
  positive_widths rs ->
  In a (all_rects rs cx y) -> In b (all_rects rs cx y) ->
  inside (snd a) p -> inside (snd b) p -> a = b.
Proof.
  intros rs cx y a b p Hpos Ha Hb Hpa Hpb.
  assert (Hs := all_rects_shape rs cx y Hpos). rewrite Forall_forall in Hs.
  destruct (ForallOrdPairs_In (all_rects_ordered rs cx y Hpos) a b Ha Hb)
    as [E|[Hab|Hba]].
  - exact E.
  - exfalso. destruct (Hs a Ha) as (_ & Hh & _).
    exact (before_disjoint a b p Hh Hab Hpa Hpb).
  - exfalso. destruct (Hs b Hb) as (_ & Hh & _).
    exact (before_disjoint b a p Hh Hba Hpb Hpa).
Qed.

(** ** Hit testing *)

Lemma hit_test_some : forall d p c,
  hit_test d p = Some c -> exists r, In (c, r) d /\ contains r p = true.
Proof.
  induction d as [|[c0 r0] rest IH]; intros p c H; simpl in H.
  - discriminate.
  - destruct (contains r0 p) eqn:E.
    + injection H as <-. exists r0. split; [now left | exact E].
    + destruct (IH p c H) as (r & Hin & Hc). exists r.
      split; [now right | exact Hc].
Qed.

Lemma hit_test_none : forall d p,
  hit_test d p = None -> forall c r, In (c, r) d -> contains r p = false.
Proof.
  induction d as [|[c0 r0] rest IH]; intros p H c r Hin; simpl in H.
  - destruct Hin.
  - destruct (contains r0 p) eqn:E; [discriminate|].
    destruct Hin as [Heq|Hin].
    + injection Heq as <- <-. exact E.
    + exact (IH p H c r Hin).
Qed.

Lemma hit_test_unique : forall d p c r,
  In (c, r) d -> contains r p = true ->
  (forall c' r', In (c', r') d -> contains r' p = true -> c' = c) ->
  hit_test d p = Some c.
Proof.
  induction d as [|[c0 r0] rest IH]; intros p c r Hin Hc Huniq; simpl.
  - destruct Hin.
  - destruct (contains r0 p) eqn:E.
    + f_equal. apply (Huniq c0 r0); [now left | exact E].
    + destruct Hin as [Heq|Hin].
      * injection Heq as <- <-. congruence.
      * apply (IH p c r Hin Hc). intros c' r' Hin' Hc'.
        apply (Huniq c' r'); [now right | exact Hc'].
Qed.

Lemma dict_get_in : forall d k v,
  NoDup (map fst d) -> In (k, v) d -> dict_get d k = Some v.
Proof.
  induction d as [|[k0 v0] rest IH]; intros k v Hnd Hin; simpl.
  - destruct Hin.
  - inversion Hnd as [|? ? Hn Hrest]; subst.
    destruct Hin as [Heq|Hin].
    + injection Heq as <- <-. now rewrite String.eqb_refl.
    + destruct (String.eqb_spec k0 k) as [->|N].
      * exfalso. apply Hn. apply in_map_iff. now exists (k, v).
      * now apply IH.
Qed.

Lemma drawn_last_in : forall k drawn r,
  drawn_last k drawn = Some r ->
  exists key, In (key, r) drawn /\ code key = k.
Proof.
  intros k drawn r H. unfold drawn_last in H.
  destruct (find _ (rev drawn)) as [[key r0]|] eqn:E; [|discriminate].
  simpl in H. injection H as <-.
  apply find_some in E as [Hin Hk]. apply in_rev in Hin.
  exists key. split; [exact Hin|]. simpl in Hk.
  now apply String.eqb_eq.
Qed.

Lemma drawn_last_later : forall k pre a post,
  (exists b, In b post /\ code (fst b) = k) ->
  exists b, In b post /\ code (fst b) = k
            /\ drawn_last k (pre ++ a :: post) = Some (snd b).
Proof.
  intros k pre a post (b & Hb & Hk). unfold drawn_last.
  rewrite rev_app_distr. simpl. rewrite <- app_assoc.
  assert (Hf : exists b', find (fun kr => String.eqb (code (fst kr)) k)
                               (rev post) = Some b').
  { destruct (find (fun kr => String.eqb (code (fst kr)) k) (rev post))
      as [b'|] eqn:E; [now exists b'|].
    exfalso. assert (Hb' : In b (rev post)) by (now apply in_rev in Hb).
    assert (Hfalse := find_none _ _ E b Hb'). simpl in Hfalse.
    rewrite Hk, String.eqb_refl in Hfalse. discriminate. }
  destruct Hf as (b' & Hf).
  assert (Hf' : find (fun kr => String.eqb (code (fst kr)) k)
                     (rev post ++ [a] ++ rev pre) = Some b').
  { clear - Hf. induction (rev post) as [|x l IH]; simpl in *.
    - discriminate.
    - destruct (String.eqb (code (fst x)) k); [exact Hf | now apply IH]. }
  rewrite Hf'. apply find_some in Hf as [Hin Hc]. apply in_rev in Hin.
  exists b'. repeat split; try assumption. now apply String.eqb_eq.
Qed.

End KeyboardFacts.

Module Keys.

Import Keyboard KeyboardDescribed KeyboardFacts KeyboardExamples.

Local Open Scope R_scope.

Lemma render_described : forall kd rect,
  painted (snd (render kd rect))
  = all_rects (rows (fst (render kd rect))) (px (center rect))
      (py (center rect)
       - (INR (List.length (rows (fst (render kd rect))))
          * (base_key_size + gap) - gap) / 2)
  /\ key_rects (snd (render kd rect))
     = store [] (painted (snd (render kd rect))).
Proof.
  intros kd rect. unfold render. cbn [fst snd].
  rewrite place_rows_described. cbn [painted key_rects app]. now split.
Qed.

Lemma py_sum_from : forall xs a, fold_left Rplus xs a = a + py_sum xs.
Proof.
  unfold py_sum. induction xs as [|x xs IH]; intros a; simpl.
  - lra.
  - rewrite IH, (IH (0 + x)). lra.
Qed.

Lemma row_rects_consecutive : forall row x y pre a b post,
  row_rects row x y = pre ++ a :: b :: post ->
  rx (snd b) = right_edge (snd a) + gap.
Proof.
  induction row as [|key rest IH]; intros x y pre a b post H; simpl in H.
  - destruct pre; discriminate.
  - destruct pre as [|p0 pre]; simpl in H.
    + injection H as Ha Hb. subst a.
      destruct rest as [|k2 rest']; simpl in Hb; [discriminate|].
      injection Hb as Hb _. subst b. unfold right_edge. simpl. lra.
    + injection H as _ H. exact (IH _ _ _ _ _ _ H).
Qed.

Lemma row_rects_span : forall row x y d,
  row <> [] ->
  right_edge (snd (last (row_rects row x y) d)) = x + row_width row.
Proof.
  induction row as [|key rest IH]; intros x y d Hne.
  - congruence.
  - destruct rest as [|k2 rest'].
    + unfold right_edge, row_width, py_sum. simpl.
      unfold base_key_size, gap. lra.
    + change (row_rects (key :: k2 :: rest') x y)
        with ((key, {| rx := x; ry := y;
                       rwidth := width key * base_key_size;
                       rheight := base_key_size |})
              :: row_rects (k2 :: rest')
                   (x + (width key * base_key_size + gap)) y).
      change (last (?h :: row_rects (k2 :: rest') ?x' y) d)
        with (last (row_rects (k2 :: rest') x' y) d).
      rewrite IH by discriminate.
      unfold row_width, py_sum.
      change (List.length (key :: k2 :: rest'))
        with (S (List.length (k2 :: rest'))).
      rewrite S_INR.
      change (map (fun key0 => width key0 * base_key_size)
                  (key :: k2 :: rest'))
        with (width key * base_key_size
              :: map (fun key0 => width key0 * base_key_size) (k2 :: rest')).
      cbn [fold_left].
      rewrite (py_sum_from _ (0 + width key * base_key_size)).
      unfold py_sum. lra.
Qed.

Lemma hit_test_complete :
  forall (kd : KeypadData) (rect : QRectF) (key : KeyData) (r : QRectF)
         (p : QPointF),
    positive_widths (rows (fst (render kd rect))) ->
    NoDup (codes (rows (fst (render kd rect)))) ->
    In (key, r) (painted (snd (render kd rect))) ->
    inside r p ->
    hit_test (key_rects (snd (render kd rect))) p = Some (code key).
Proof.
  intros kd rect key r p Hpos Hnd Hin Hp.
  destruct (render_described kd rect) as [HP HD].
  rewrite HD. rewrite HP in *.
  set (A := all_rects _ _ _) in *.
  assert (Hshape : Forall (well_shaped
                    (py (center rect)
                     - (INR (List.length (rows (fst (render kd rect))))
                        * (base_key_size + gap) - gap) / 2)) A)
    by (apply all_rects_shape; exact Hpos).
  rewrite Forall_forall in Hshape.
  assert (Hstore : store [] A = map (fun kr => (code (fst kr), snd kr)) A).
  { rewrite store_distinct; [reflexivity|]. simpl.
    unfold codes in Hnd. unfold A.
    rewrite <- (all_rects_keys _ (px (center rect))
                  (py (center rect)
                   - (INR (List.length (rows (fst (render kd rect))))
                      * (base_key_size + gap) - gap) / 2)) in Hnd.
    now rewrite map_map in Hnd. }
  rewrite Hstore.
  apply (hit_test_unique _ p (code key) r).
  - apply in_map_iff. now exists (key, r).
  - destruct (Hshape _ Hin) as (_ & Hh & Hw).
    apply contains_inside; [exact Hw | | exact Hp].
    simpl in Hh. rewrite Hh. unfold base_key_size. lra.
  - intros c' r' Hin' Hc'.
    apply in_map_iff in Hin' as ([key' r0] & Heq & Hin').
    simpl in Heq. injection Heq as <- <-.
    destruct (Hshape _ Hin') as (_ & Hh & Hw).
    assert (Hp' : inside r0 p).
    { apply contains_inside; [exact Hw | | exact Hc'].
      simpl in Hh. rewrite Hh. unfold base_key_size. lra. }
    assert (E : (key', r0) = (key, r)).
    { apply (drawn_keys_do_not_overlap _ _ _ _ _ p Hpos Hin' Hin);
        assumption. }
    now injection E as -> _.
Qed.

Lemma render_keys_nodup : forall kd rect,
  NoDup (map fst (key_rects (snd (render kd rect)))).
Proof.
  intros kd rect. destruct (render_described kd rect) as [_ HD].
  rewrite HD. apply store_nodup. constructor.
Qed.

Lemma render_get : forall kd rect k,
  dict_get (key_rects (snd (render kd rect))) k
  = drawn_last k (painted (snd (render kd rect))).
Proof.
  intros kd rect k. destruct (render_described kd rect) as [_ HD].
  rewrite HD, store_get.
  destruct (drawn_last k (painted (snd (render kd rect)))); reflexivity.
Qed.

Lemma render_shape : forall kd rect kr,
  positive_widths (rows (fst (render kd rect))) ->
  In kr (painted (snd (render kd rect))) ->
  0 < rwidth (snd kr) /\ 0 < rheight (snd kr)
  /\ rheight (snd kr) = base_key_size.
Proof.
  intros kd rect kr Hpos Hin.
  destruct (render_described kd rect) as [HP _].
  assert (Hshape := all_rects_shape (rows (fst (render kd rect)))
                      (px (center rect))
                      (py (center rect)
                       - (INR (List.length (rows (fst (render kd rect))))
                          * (base_key_size + gap) - gap) / 2) Hpos).
  rewrite <- HP, Forall_forall in Hshape.
  destruct (Hshape _ Hin) as (_ & Hh & Hw).
  repeat split; try assumption. rewrite Hh. unfold base_key_size. lra.
Qed.

Lemma hit_test_sound : forall kd rect p c,
  positive_widths (rows (fst (render kd rect))) ->
  hit_test (key_rects (snd (render kd rect))) p = Some c ->
  exists (key : KeyData) (r : QRectF),
    In (key, r) (painted (snd (render kd rect)))
    /\ code key = c
    /\ inside r p
    /\ drawn_last c (painted (snd (render kd rect))) = Some r.
Proof.
  intros kd rect p c Hpos Hhit.
  destruct (hit_test_some _ _ _ Hhit) as (r & Hin & Hc).
  assert (Hlast := dict_get_in _ _ _ (render_keys_nodup kd rect) Hin).
  rewrite render_get in Hlast.
  destruct (drawn_last_in _ _ _ Hlast) as (key & Hk & Hcode).
  exists key, r.
  split; [exact Hk | split; [exact Hcode | split; [|exact Hlast]]].
  destruct (render_shape kd rect (key, r) Hpos Hk) as (Hw & Hh & _).
  exact (proj1 (contains_inside r p Hw Hh) Hc).
Qed.

(** X16. When the key codes of the layout are pairwise distinct and every
    key has a positive width, a point in the rectangle a key was drawn in
    is resolved by [hit_test] to that key's code, and to no other. *)
Theorem hit_test_finds_the_key_under_the_point :
  forall (kd : KeypadData) (rect : QRectF) (key : KeyData) (r : QRectF)
         (p : QPointF),
    positive_widths (rows (fst (render kd rect))) ->
    NoDup (codes (rows (fst (render kd rect)))) ->
    In (key, r) (painted (snd (render kd rect))) ->
    inside r p ->
    hit_test (key_rects (snd (render kd rect))) p = Some (code key)
    /\ (forall (key' : KeyData) (r' : QRectF),
          In (key', r') (painted (snd (render kd rect))) ->
          inside r' p -> (key', r') = (key, r)).
Proof.
  intros kd rect key r p Hpos Hnd Hin Hp. split.
  - exact (hit_test_complete kd rect key r p Hpos Hnd Hin Hp).
  - intros key' r' Hin' Hp'.
    destruct (render_described kd rect) as [HP _]. rewrite HP in Hin, Hin'.
    exact (drawn_keys_do_not_overlap _ _ _ _ _ p Hpos Hin' Hin Hp' Hp).
Qed.

Lemma all_distinct_sound : forall l, all_distinct l = true -> NoDup l.
Proof.
  induction l as [|x rest IH]; simpl; intros H.
  - constructor.
  - apply andb_prop in H as [Hx Hrest]. constructor; [|now apply IH].
    intros Hin. apply negb_true_iff in Hx.
    assert (Hex : existsb (String.eqb x) rest = true).
    { apply existsb_exists. exists x. split; [exact Hin|].
      apply String.eqb_refl. }
    congruence.
Qed.

Lemma painted_length : forall kd rect,
  List.length (painted (snd (render kd rect)))
  = List.length (List.concat (rows (fst (render kd rect)))).
Proof.
  intros kd rect. destruct (render_described kd rect) as [HP _].
  now rewrite HP, <- (length_map fst), all_rects_keys.
Qed.

Lemma split_at : forall (A : Type) (n : nat) (l : list A) (d : A),
  (n < List.length l)%nat ->
  l = firstn n l ++ nth n l d :: skipn (S n) l.
Proof.
  induction n as [|n IH]; intros [|x l] d Hn; simpl in *; try lia.
  - reflexivity.
  - f_equal. apply IH. lia.
Qed.

Lemma nth_in_skipn : forall (A : Type) (n m : nat) (l : list A) (d : A),
  (n <= m < List.length l)%nat -> In (nth m l d) (skipn n l).
Proof.
  induction n as [|n IH]; intros m l d Hm.
  - simpl. apply nth_In. lia.
  - destruct l as [|x l]; simpl in *; [lia|].
    destruct m as [|m]; [lia|]. apply IH. lia.
Qed.

(** Witness for X16: the first key of the record the state machine starts
    with, hit at the centre of its rectangle. *)
Lemma hit_test_finds_the_key_witness :
  hit_test (key_rects (snd (render KeypadData_default keyboard_window)))
    (center (snd (nth 0 (painted (snd (render KeypadData_default
                                         keyboard_window))) no_key)))
  = Some "`"%string.
Proof.
  assert (Hpos : positive_widths
                   (rows (fst (render KeypadData_default keyboard_window)))).
  { repeat constructor; simpl; lra. }
  assert (Hnd : NoDup (codes (rows (fst (render KeypadData_default
                                           keyboard_window))))).
  { apply all_distinct_sound. reflexivity. }
  assert (Hin : In (nth 0 (painted (snd (render KeypadData_default
                                           keyboard_window))) no_key)
                   (painted (snd (render KeypadData_default
                                    keyboard_window)))).
  { apply nth_In. rewrite painted_length. simpl. lia. }
  destruct (render_shape _ _ _ Hpos Hin) as (Hw & Hh & _).
  rewrite (surjective_pairing (nth 0 _ no_key)) in Hin.
  exact (proj1 (hit_test_finds_the_key_under_the_point
                  KeypadData_default keyboard_window _ _ _ Hpos Hnd Hin
                  (inside_center _ (Rlt_le _ _ Hw) (Rlt_le _ _ Hh)))).
Defined.

(** X17. Whatever the layout, the dictionary built by [render] has one
    entry per code, holding the rectangle of the key drawn last under that
    code. With positive widths, a code reported by [hit_test] is the code
    of a drawn key whose rectangle contains the point, and when [hit_test]
    reports nothing, no rectangle kept in the dictionary contains it. *)
Theorem hit_test_reports_a_drawn_key :
  forall (kd : KeypadData) (rect : QRectF),
    NoDup (map fst (key_rects (snd (render kd rect))))
    /\ (forall k : string,
          dict_get (key_rects (snd (render kd rect))) k
          = drawn_last k (painted (snd (render kd rect))))
    /\ (forall (p : QPointF) (c : string),
          positive_widths (rows (fst (render kd rect))) ->
          hit_test (key_rects (snd (render kd rect))) p = Some c ->
          exists (key : KeyData) (r : QRectF),
            In (key, r) (painted (snd (render kd rect)))
            /\ code key = c
            /\ inside r p
            /\ drawn_last c (painted (snd (render kd rect))) = Some r)
    /\ (forall (p : QPointF) (c : string) (r : QRectF),
          hit_test (key_rects (snd (render kd rect))) p = None ->
          dict_get (key_rects (snd (render kd rect))) c = Some r ->
          contains r p = false).
Proof.
  intros kd rect. repeat apply conj.
  - apply render_keys_nodup.
  - apply render_get.
  - apply hit_test_sound.
  - intros p c r Hnone Hget.
    apply (hit_test_none _ _ Hnone c r).
    clear Hnone. induction (key_rects (snd (render kd rect)))
      as [|[k0 v0] rest IH]; simpl in Hget; [discriminate|].
    destruct (String.eqb_spec k0 c) as [->|N].
    + injection Hget as <-. now left.
    + right. now apply IH.
Qed.

(** X18. A key whose code is used again by a key drawn later cannot be
    hit: its rectangle is overwritten in the dictionary, so a point in
    the rectangle it was drawn in resolves to no key at all. *)
Theorem overwritten_key_cannot_be_hit :
  forall (kd : KeypadData) (rect : QRectF)
         (pre : list (KeyData * QRectF)) (key : KeyData) (r : QRectF)
         (post : list (KeyData * QRectF)) (p : QPointF),
    positive_widths (rows (fst (render kd rect))) ->
    painted (snd (render kd rect)) = pre ++ (key, r) :: post ->
    (exists later, In later post /\ code (fst later) = code key) ->
    inside r p ->
    hit_test (key_rects (snd (render kd rect))) p = None.
Proof.
  intros kd rect pre key r post p Hpos Hsplit Hlater Hp.
  destruct (hit_test (key_rects (snd (render kd rect))) p) as [c|] eqn:Hhit;
    [exfalso | reflexivity].
  destruct (hit_test_sound kd rect p c Hpos Hhit)
    as (key' & r' & Hin' & Hcode & Hp' & Hlast).
  destruct (render_described kd rect) as [HP _].
  assert (Hin : In (key, r) (painted (snd (render kd rect)))).
  { rewrite Hsplit. apply in_or_app. right. now left. }
  assert (E : (key', r') = (key, r)).
  { rewrite HP in Hin, Hin'.
    apply (drawn_keys_do_not_overlap _ _ _ _ _ p Hpos Hin' Hin);
      assumption. }
  injection E as -> ->. subst c.
  destruct (drawn_last_later (code key) pre (key, r) post Hlater)
    as (b & Hb & Hbk & Hbl).
  rewrite <- Hsplit, Hlast in Hbl. injection Hbl as Hr.
  assert (Hord := all_rects_ordered (rows (fst (render kd rect)))
                    (px (center rect))
                    (py (center rect)
                     - (INR (List.length (rows (fst (render kd rect))))
                        * (base_key_size + gap) - gap) / 2) Hpos).
  rewrite <- HP, Hsplit in Hord. apply ordered_split in Hord.
  rewrite Forall_forall in Hord. specialize (Hord b Hb).
  assert (Hshape := all_rects_shape (rows (fst (render kd rect)))
                      (px (center rect))
                      (py (center rect)
                       - (INR (List.length (rows (fst (render kd rect))))
                          * (base_key_size + gap) - gap) / 2) Hpos).
  rewrite <- HP, Forall_forall in Hshape.
  destruct (Hshape _ Hin) as (_ & Hh & _).
  apply (before_disjoint (key, r) b p Hh Hord Hp). now rewrite <- Hr.
Qed.

(** Witness for X18: in the five-row layout the left Shift key (drawn
    42nd) shares its code with the right Shift key (drawn 53rd); a click in
    the middle of the left one hits nothing. *)
Lemma overwritten_key_witness :
  code (fst (nth 41 (painted (snd (render full_keypad keyboard_window)))
               no_key)) = "shift"%string
  /\ hit_test (key_rects (snd (render full_keypad keyboard_window)))
       (center (snd (nth 41 (painted (snd (render full_keypad
                                             keyboard_window))) no_key)))
     = None.
Proof.
  split; [reflexivity|].
  assert (Hpos : positive_widths
                   (rows (fst (render full_keypad keyboard_window)))).
  { repeat constructor; simpl; lra. }
  assert (Hlen : List.length (painted (snd (render full_keypad
                                              keyboard_window))) = 60%nat).
  { rewrite painted_length. reflexivity. }
  assert (Hin : In (nth 41 (painted (snd (render full_keypad
                                            keyboard_window))) no_key)
                   (painted (snd (render full_keypad keyboard_window)))).
  { apply nth_In. rewrite Hlen. lia. }
  destruct (render_shape _ _ _ Hpos Hin) as (Hw & Hh & _).
  assert (Hsplit := split_at _ 41 (painted (snd (render full_keypad
                                                   keyboard_window)))
                      no_key ltac:(rewrite Hlen; lia)).
  rewrite (surjective_pairing (nth 41 _ no_key)) in Hsplit.
  apply (overwritten_key_cannot_be_hit full_keypad keyboard_window
           _ _ _ _ _ Hpos Hsplit).
  - exists (nth 52 (painted (snd (render full_keypad keyboard_window)))
              no_key).
    split; [|reflexivity].
    apply nth_in_skipn. rewrite Hlen. lia.
  - exact (inside_center _ (Rlt_le _ _ Hw) (Rlt_le _ _ Hh)).
Defined.

(** X19. The keys of a row are drawn left to right at the row's height,
    each as wide as its width factor times 50 and 50 high, each starting 6
    after the previous one ends, and the row as a whole is centred on the
    centre the renderer was given. *)
Theorem row_keys_tile_and_are_centred :
  forall (row : list KeyData) (cx y : R) (acc : Drawn),
    exists P : list (KeyData * QRectF),
      painted (place_row row (cx - row_width row / 2) y acc)
      = painted acc ++ P
      /\ map fst P = row
      /\ Forall (fun kr => ry (snd kr) = y
                           /\ rheight (snd kr) = 50
                           /\ rwidth (snd kr) = width (fst kr) * 50) P
      /\ (forall pre a b post,
            P = pre ++ a :: b :: post ->
            rx (snd b) = right_edge (snd a) + 6)
      /\ (forall first rest,
            P = first :: rest ->
            rx (snd first) + right_edge (snd (last rest first)) = 2 * cx).
Proof.
  intros row cx y acc.
  exists (row_rects row (cx - row_width row / 2) y).
  rewrite place_row_described. cbn [painted].
  repeat apply conj.
  - reflexivity.
  - apply row_rects_keys.
  - generalize (cx - row_width row / 2). induction row as [|k rest IH];
      intros x; simpl; constructor.
    + simpl. unfold base_key_size. repeat split.
    + apply IH.
  - intros pre a b post H.
    rewrite (row_rects_consecutive _ _ _ _ _ _ _ H). reflexivity.
  - intros first rest H.
    destruct row as [|k row']; [discriminate|].
    assert (Hspan := row_rects_span (k :: row') (cx - row_width (k :: row') / 2)
                       y first ltac:(discriminate)).
    rewrite H in Hspan.
    assert (Hfirst : rx (snd first) = cx - row_width (k :: row') / 2).
    { simpl in H. injection H as <- _. reflexivity. }
    assert (Hlast : last (first :: rest) first = last rest first).
    { destruct rest; reflexivity. }
    rewrite Hlast in Hspan. rewrite Hspan, Hfirst. lra.
Qed.

End Keys.

(* ================================================================== *)
(** * Text commands                                                    *)
(* ================================================================== *)

Module Commanding.

Import PyStr Commands.

Local Open Scope string_scope.

(** ** Strings *)

Lemma lower_char_idem : forall c, lower_char (lower_char c) = lower_char c.
Proof. intros [[] [] [] [] [] [] [] []]; reflexivity. Qed.

Lemma is_space_lower_char : forall c, is_space (lower_char c) = is_space c.
Proof. intros [[] [] [] [] [] [] [] []]; reflexivity. Qed.

Lemma lower_idem : forall s, lower (lower s) = lower s.
Proof.
  induction s as [|c s IH]; simpl.
  - reflexivity.
  - now rewrite lower_char_idem, IH.
Qed.

Lemma lower_lstrip : forall s, lower (lstrip s) = lstrip (lower s).
Proof.
  induction s as [|c s IH]; simpl.
  - reflexivity.
  - rewrite is_space_lower_char. destruct (is_space c); [exact IH|].
    reflexivity.
Qed.

Lemma lower_rstrip : forall s, lower (rstrip s) = rstrip (lower s).
Proof.
  induction s as [|c s IH]; simpl.
  - reflexivity.
  - rewrite <- IH. destruct (rstrip s) as [|c' r]; simpl.
    + rewrite is_space_lower_char. now destruct (is_space c).
    + reflexivity.
Qed.

Lemma lstrip_idem : forall s, lstrip (lstrip s) = lstrip s.
Proof.
  induction s as [|c s IH]; simpl.
  - reflexivity.
  - destruct (is_space c) eqn:E; [exact IH|]. simpl. now rewrite E.
Qed.

Lemma rstrip_idem : forall s, rstrip (rstrip s) = rstrip s.
Proof.
  induction s as [|c s IH]; simpl.
  - reflexivity.
  - destruct (rstrip s) as [|c' r] eqn:E.
    + destruct (is_space c) eqn:Ec; simpl; [reflexivity|]. now rewrite Ec.
    + change (rstrip (String c (String c' r)))
        with (match rstrip (String c' r) with
              | EmptyString =>
                  if is_space c then EmptyString else String c EmptyString
              | String c0 r0 => String c (String c0 r0)
              end).
      now rewrite IH.
Qed.

Lemma lstrip_rstrip : forall s, lstrip (rstrip s) = rstrip (lstrip s).
Proof.
  induction s as [|c s IH]; simpl.
  - reflexivity.
  - destruct (is_space c) eqn:Ec.
    + rewrite <- IH. destruct (rstrip s) as [|c' r]; simpl;
        rewrite ?Ec; reflexivity.
    + simpl. destruct (rstrip s) as [|c' r]; simpl;
        rewrite ?Ec; reflexivity.
Qed.

Lemma strip_idem : forall s, strip (strip s) = strip s.
Proof.
  intros s. unfold strip.
  rewrite (lstrip_rstrip (lstrip (rstrip s))), lstrip_idem.
  now rewrite <- lstrip_rstrip, rstrip_idem.
Qed.

Lemma normalise_idem : forall s,
  strip (lower (strip (lower s))) = strip (lower s).
Proof.
  intros s. unfold strip at 2.
  rewrite lower_lstrip, lower_rstrip, lower_idem.
  apply strip_idem.
Qed.

Lemma prefix_nil : forall s, String.prefix EmptyString s = true.
Proof. intros [|c s]; reflexivity. Qed.

Lemma contains_eq : forall sub s,
  contains sub s
  = if String.prefix sub s then true
    else match s with
         | EmptyString => false
         | String _ rest => contains sub rest
         end.
Proof. intros sub [|c s]; reflexivity. Qed.

Lemma replace_first_eq : forall old new s,
  replace_first old new s
  = if String.prefix old s then new ++ drop (String.length old) s
    else match s with
         | EmptyString => EmptyString
         | String c rest => String c (replace_first old new rest)
         end.
Proof. intros old new [|c s]; reflexivity. Qed.

Lemma contains_false_replace : forall old new s,
  contains old s = false -> replace_first old new s = s.
Proof.
  induction s as [|c s IH]; intros H;
    rewrite contains_eq in H; rewrite replace_first_eq.
  - destruct (String.prefix old EmptyString); [discriminate H | reflexivity].
  - destruct (String.prefix old (String c s)); [discriminate H|].
    now rewrite IH.
Qed.

(** X20. [process] sees its text only through [text.lower().strip()], and
    that normal form is stable: a text that is already lower-cased and
    stripped is processed exactly like any differently cased or padded
    spelling of it. *)
Theorem process_ignores_case_and_padding :
  forall (raises : Effect -> bool) (text : string),
    is_ascii text = true ->
    process raises (strip (lower text)) = process raises text
    /\ strip (lower (strip (lower text))) = strip (lower text).
Proof.
  intros raises text _. split.
  - unfold process. now rewrite normalise_idem.
  - apply normalise_idem.
Qed.

(** Witness for X20: a shouted, padded request. *)
Lemma process_ignores_case_witness :
  process (fun _ => false) (strip (lower "  OPEN Notepad "))
  = process (fun _ => false) "  OPEN Notepad ".
Proof.
  exact (proj1 (process_ignores_case_and_padding
                  (fun _ => false) "  OPEN Notepad " eq_refl)).
Defined.

(** X21. The action "keypad" is returned exactly when the normalised text
    contains "keypad" and starts with none of the five command words; it
    comes with no outside call. A text such as "open keypad" is therefore
    an application request, not the keypad command. *)
Theorem keypad_action_dispatch :
  forall (raises : Effect -> bool) (text : string),
    is_ascii text = true ->
    ((exists message,
        outcome (process raises text) = Some ("keypad", message))
     <-> (contains "keypad" (strip (lower text)) = true
          /\ startswith (strip (lower text)) "open " = false
          /\ startswith (strip (lower text)) "search " = false
          /\ startswith (strip (lower text)) "google " = false
          /\ startswith (strip (lower text)) "type " = false
          /\ startswith (strip (lower text)) "write " = false))
    /\ ((exists message,
           outcome (process raises text) = Some ("keypad", message)) ->
        process raises text
        = {| outcome := Some ("keypad", "Opening Keypad...");
             effects := [] |}).
Proof.
  intros raises text _. unfold process.
  set (t := strip (lower text)).
  destruct (startswith t "open ") eqn:Eo.
  { unfold _open_app.
    destruct (lookup app_map (strip (drop 5 t)));
      destruct (attempt raises _) as [made [|]]; simpl;
      (split; [split; [intros [m H]; discriminate H
                      | intros (_ & H & _); discriminate H]
              | intros [m H]; discriminate H]). }
  destruct (startswith t "search ") eqn:Es.
  { simpl. unfold _web_search.
    destruct (raises _); simpl;
      (split; [split; [intros [m H]; discriminate H
                      | intros (_ & _ & H & _); discriminate H]
              | intros [m H]; discriminate H]). }
  destruct (startswith t "google ") eqn:Eg.
  { simpl. unfold _web_search.
    destruct (raises _); simpl;
      (split; [split; [intros [m H]; discriminate H
                      | intros (_ & _ & _ & H & _); discriminate H]
              | intros [m H]; discriminate H]). }
  destruct (startswith t "type ") eqn:Et.
  { simpl. unfold type_text.
    destruct (raises _); simpl;
      (split; [split; [intros [m H]; discriminate H
                      | intros (_ & _ & _ & _ & H & _); discriminate H]
              | intros [m H]; discriminate H]). }
  destruct (startswith t "write ") eqn:Ew.
  { simpl. unfold type_text.
    destruct (raises _); simpl;
      (split; [split; [intros [m H]; discriminate H
                      | intros (_ & _ & _ & _ & _ & H); discriminate H]
              | intros [m H]; discriminate H]). }
  simpl. destruct (contains "keypad" t) eqn:Ek; simpl.
  - split; [split|]; [intros _; now repeat split | intros _; eauto
                      | reflexivity].
  - split; [split|]; [intros [m H]; discriminate H
                      | intros (H & _); discriminate H
                      | intros [m H]; discriminate H].
Qed.

(** Witness for X21: "Show the KEYPAD please". *)
Lemma keypad_action_witness :
  process (fun _ => false) "Show the KEYPAD please"
  = {| outcome := Some ("keypad", "Opening Keypad..."); effects := [] |}.
Proof.
  apply (proj2 (keypad_action_dispatch (fun _ => false)
                  "Show the KEYPAD please" eq_refl)).
  exists "Opening Keypad...". reflexivity.
Defined.

(** X22. The search query is what remains of the normalised text after
    the leftmost "search " and then the leftmost "google " are removed: a
    request "search <rest>" is answered with the query [rest] from which a
    first "google " has also been cut, and a request "google <rest>" whose
    rest holds no "search " with the stripped rest. *)
Theorem search_query_loses_both_keywords :
  forall (raises : Effect -> bool) (text rest : string),
    is_ascii text = true ->
    (strip (lower text) = "search " ++ rest ->
       process raises text
       = _web_search raises (strip (replace_first "google " "" rest)))
    /\ (strip (lower text) = "google " ++ rest ->
        contains "search " rest = false ->
        process raises text = _web_search raises (strip rest)).
Proof.
  intros raises text rest _. split.
  - intros E. unfold process. rewrite E. simpl.
    unfold startswith. rewrite !prefix_nil. reflexivity.
  - intros E Hc. unfold process. rewrite E.
    assert (H : replace_first "search " "" ("google " ++ rest)
                = "google " ++ rest).
    { apply contains_false_replace. simpl. exact Hc. }
    rewrite H. simpl. unfold startswith. rewrite !prefix_nil. reflexivity.
Qed.

(** Witness for X22: "search google maps" searches for "maps". *)
Lemma search_query_witness :
  process (fun _ => false) "Search Google Maps"
  = {| outcome := Some ("searched", "Searching: maps");
       effects := [OpenBrowser "https://www.google.com/search?q=maps"] |}.
Proof.
  exact (proj1 (search_query_loses_both_keywords
                  (fun _ => false) "Search Google Maps" "google maps"
                  eq_refl) eq_refl).
Defined.

End Commanding.

(* ================================================================== *)
(** * The application handlers                                         *)
(* ================================================================== *)

Module Application.

Import PyStr Commands Main MachineFacts.

Local Open Scope string_scope.

Lemma transition_to_state :
  forall (Landmark World : Type) (s : Sys Landmark World) (t : OverlayState),
    _state (sm (transition_to t s)) = t.
Proof.
  intros Landmark World s t.
  destruct (OverlayState_eq_dec t (_state (sm s))) as [E|N].
  - rewrite transition_to_same; congruence.
  - now rewrite (transition_to_sm _ _ s t N).
Qed.

Lemma key_codes_are_handled :
  forall c : string,
    In c (map code (List.concat layout
                    ++ List.concat rows_default_factory)%list) ->
    c <> "C"
    /\ (special special_map c = Some (Some c)
        \/ (c = "fn" /\ special special_map c = Some None)
        \/ (String.length c = 1%nat /\ special special_map c = None)).
Proof.
  intros c Hin. simpl in Hin.
  repeat (destruct Hin as [<- | Hin];
          [split; [discriminate
                  | first [left; reflexivity
                          | right; left; split; reflexivity
                          | right; right; split; reflexivity]] | ]).
  destruct Hin.
Qed.

(** X23. [_on_text_recognized] forwards the outside calls of [process]
    and then drives the overlay by the action alone: "keypad" opens the
    keypad with no key highlighted and leaves the reset timer alone; every
    other action shows the status message as the toast and arms the reset
    timer with 3000 ms; when [process] is left by an exception the overlay
    and the timer stay as they were. When the reset timer then fires, the
    machine is in Listening with level 0 and the timer is inactive. *)
Theorem recognized_text_drives_overlay :
  forall (raises : Effect -> bool) (text : string) (a : App),
    is_ascii text = true ->
    performed (fst (_on_text_recognized raises text a))
    = (performed a ++ effects (process raises text))%list
    /\ match outcome (process raises text) with
       | None =>
           snd (_on_text_recognized raises text a) = true
           /\ overlay (fst (_on_text_recognized raises text a)) = overlay a
           /\ reset_timer (fst (_on_text_recognized raises text a))
              = reset_timer a
       | Some (action, feedback) =>
           snd (_on_text_recognized raises text a) = false
           /\ (action = "keypad" ->
               _state (sm (overlay (fst (_on_text_recognized raises text a))))
               = KEYPAD
               /\ active_key
                    (keypad_data
                       (sm (overlay (fst (_on_text_recognized raises text a)))))
                  = None
               /\ reset_timer (fst (_on_text_recognized raises text a))
                  = reset_timer a)
           /\ (action <> "keypad" ->
               _state (sm (overlay (fst (_on_text_recognized raises text a))))
               = ACTION
               /\ action_data
                    (sm (overlay (fst (_on_text_recognized raises text a))))
                  = {| message := feedback; icon := None |}
               /\ reset_timer (fst (_on_text_recognized raises text a))
                  = Some 3000%Z)
       end
    /\ (forall a' : App,
          reset_timer a' <> None ->
          _state (sm (overlay (reset_timer_timeout a'))) = LISTENING
          /\ audio_level (sm (overlay (reset_timer_timeout a'))) = Fin 0
          /\ reset_timer (reset_timer_timeout a') = None).
Proof.
  intros raises text a _. unfold _on_text_recognized.
  destruct (outcome (process raises text)) as [[action feedback]|] eqn:E.
  - destruct (String.eqb_spec action "keypad") as [->|N];
      cbn [fst snd performed overlay reset_timer with_overlay].
    + split; [reflexivity|]. split.
      * split; [reflexivity|]. split; [|congruence].
        intros _. unfold show_keypad, set_keypad.
        rewrite transition_to_state.
        destruct (transition_to_payload _ _
                    (set_active_key None (overlay a)) KEYPAD)
          as (_ & _ & Hk & _).
        rewrite Hk. now repeat split.
      * intros a' Ha'. unfold reset_timer_timeout.
        destruct (reset_timer a'); [|congruence].
        cbn [overlay reset_timer _return_to_listening with_overlay].
        unfold start_listening, set_listening.
        rewrite transition_to_state.
        destruct (transition_to_payload _ _
                    (set_audio_level (Fin 0) (overlay a')) LISTENING)
          as (_ & _ & _ & Hv & _).
        rewrite Hv. now repeat split.
    + split; [reflexivity|]. split.
      * split; [reflexivity|]. split; [congruence|].
        intros _. unfold Window.show_action, set_action.
        rewrite transition_to_state.
        destruct (transition_to_payload _ _
                    (set_action_data {| message := feedback; icon := None |}
                       (overlay a)) ACTION)
          as (Ha & _).
        rewrite Ha. now repeat split.
      * intros a' Ha'. unfold reset_timer_timeout.
        destruct (reset_timer a'); [|congruence].
        cbn [overlay reset_timer _return_to_listening with_overlay].
        unfold start_listening, set_listening.
        rewrite transition_to_state.
        destruct (transition_to_payload _ _
                    (set_audio_level (Fin 0) (overlay a')) LISTENING)
          as (_ & _ & _ & Hv & _).
        rewrite Hv. now repeat split.
  - cbn [fst snd performed overlay reset_timer with_overlay].
    split; [reflexivity|]. split; [now repeat split|].
    intros a' Ha'. unfold reset_timer_timeout.
    destruct (reset_timer a'); [|congruence].
    cbn [overlay reset_timer _return_to_listening with_overlay].
    unfold start_listening, set_listening.
    rewrite transition_to_state.
    destruct (transition_to_payload _ _
                (set_audio_level (Fin 0) (overlay a')) LISTENING)
      as (_ & _ & _ & Hv & _).
    rewrite Hv. now repeat split.
Qed.

(** Witness for X23: "Open Notepad" on a freshly started application. *)
Lemma recognized_text_witness :
  _state (sm (overlay (fst (_on_text_recognized (fun _ => false)
                              "Open Notepad" MainExamples.started_app))))
  = ACTION
  /\ action_data
       (sm (overlay (fst (_on_text_recognized (fun _ => false)
                            "Open Notepad" MainExamples.started_app))))
     = {| message := "Opening notepad..."; icon := None |}
  /\ reset_timer (fst (_on_text_recognized (fun _ => false)
                         "Open Notepad" MainExamples.started_app))
     = Some 3000%Z.
Proof.
  destruct (recognized_text_drives_overlay (fun _ => false) "Open Notepad"
              MainExamples.started_app eq_refl) as (_ & H & _).
  simpl in H. destruct H as (_ & _ & H).
  apply H. discriminate.
Defined.

Lemma special_map_cases : forall c : string,
  (In c MainExamples.named_keys -> special special_map c = Some (Some c))
  /\ (c = "fn" -> special special_map c = Some None)
  /\ (~ In c MainExamples.named_keys -> c <> "fn" ->
      special special_map c = None).
Proof.
  intros c. repeat apply conj.
  - intros Hin. simpl in Hin.
    repeat (destruct Hin as [<- | Hin]; [reflexivity|]).
    destruct Hin.
  - intros ->. reflexivity.
  - intros Hn Hfn. unfold special, special_map.
    repeat match goal with
    | |- context [String.eqb ?k c] =>
        destruct (String.eqb_spec k c) as [E|_];
        [exfalso; subst c;
         first [apply Hfn; reflexivity | apply Hn; simpl; tauto] |]
    end.
    reflexivity.
Qed.

Lemma named_keys_not_empty : forall c : string,
  In c MainExamples.named_keys -> c <> "C" /\ exists ch rest, c = String ch rest.
Proof.
  intros c Hin. simpl in Hin.
  repeat (destruct Hin as [<- | Hin];
          [split; [discriminate | eexists; eexists; reflexivity]|]).
  destruct Hin.
Qed.

(** X24. [_on_key_pressed] handles every key of the five-row layout and of
    the two default rows without touching the overlay or the reset timer,
    and what it does is decided by the key's code: one of the nine named
    keys (space, enter, backspace, tab, capslock, shift, ctrl, win, alt) is
    pressed under its own name and typed as nothing; "fn" causes no outside
    call at all; every other key has a code of one character, which is
    typed and not pressed. None of the keys is the closing key "C". The
    handler is left by an exception exactly when the outside call raises. *)
Theorem every_keypad_key_is_handled :
  forall (raises : Effect -> bool) (key : KeyData) (a : App),
    In key (List.concat layout ++ List.concat rows_default_factory)%list ->
    overlay (fst (_on_key_pressed raises (code key) a)) = overlay a
    /\ reset_timer (fst (_on_key_pressed raises (code key) a))
       = reset_timer a
    /\ code key <> "C"
    /\ (In (code key) MainExamples.named_keys ->
        performed (fst (_on_key_pressed raises (code key) a))
        = (performed a ++ [Press (code key)])%list
        /\ snd (_on_key_pressed raises (code key) a)
           = raises (Press (code key)))
    /\ (code key = "fn" ->
        performed (fst (_on_key_pressed raises (code key) a))
        = (performed a ++ [])%list
        /\ snd (_on_key_pressed raises (code key) a) = false)
    /\ (~ In (code key) MainExamples.named_keys ->
        code key <> "fn" ->
        String.length (code key) = 1%nat
        /\ performed (fst (_on_key_pressed raises (code key) a))
           = (performed a ++ [WriteSlowly (code key) 0.01])%list
        /\ snd (_on_key_pressed raises (code key) a)
           = raises (WriteSlowly (code key) 0.01)).
Proof.
  intros raises key a Hin.
  assert (Hc : In (code key)
                  (map code (List.concat layout
                             ++ List.concat rows_default_factory)%list))
    by (apply in_map; exact Hin).
  destruct (key_codes_are_handled (code key) Hc) as (HC & Hcases).
  destruct (special_map_cases (code key)) as (Hnamed & Hfn & Hother).
  assert (Hsame :
    overlay (fst (_on_key_pressed raises (code key) a)) = overlay a
    /\ reset_timer (fst (_on_key_pressed raises (code key) a))
       = reset_timer a).
  { unfold _on_key_pressed.
    destruct (String.eqb_spec (code key) "C") as [E|_]; [contradiction|].
    destruct Hcases as [H | [(_ & H) | (_ & H)]]; rewrite H.
    - destruct (code key); split; reflexivity.
    - split; reflexivity.
    - split; reflexivity. }
  destruct Hsame as [Ho Ht].
  split; [exact Ho | split; [exact Ht | split; [exact HC|]]].
  unfold _on_key_pressed.
  destruct (String.eqb_spec (code key) "C") as [E|_]; [contradiction|].
  repeat apply conj.
  - intros Hn. rewrite (Hnamed Hn).
    destruct (named_keys_not_empty (code key) Hn) as (_ & ch & rest & ->).
    split; reflexivity.
  - intros E. rewrite (Hfn E). split; reflexivity.
  - intros Hn Hf. rewrite (Hother Hn Hf).
    destruct Hcases as [H | [(E & _) | (Hlen & _)]].
    + rewrite (Hother Hn Hf) in H. discriminate H.
    + contradiction.
    + unfold type_text.
      destruct (raises (WriteSlowly (code key) 0.01)); repeat split;
        exact Hlen.
Qed.

(** Witness for X24: the Enter key of the five-row layout. *)
Lemma every_keypad_key_witness :
  performed (fst (_on_key_pressed (fun _ => false) "enter"
                    MainExamples.started_app))
  = [Press "enter"].
Proof.
  assert (Hin : In (mkKeyData "Enter" "enter" 2.2 true)
                   (List.concat layout
                    ++ List.concat rows_default_factory)%list).
  { apply in_or_app. left. simpl.
    do 40 right. left. reflexivity. }
  destruct (every_keypad_key_is_handled (fun _ => false)
              (mkKeyData "Enter" "enter" 2.2 true)
              MainExamples.started_app Hin)
    as (_ & _ & _ & H & _).
  apply H. simpl. tauto.
Defined.

(** X25. In Keypad state, with pairwise distinct key codes and positive
    widths, a press inside the rectangle a key was drawn in highlights
    that key, emits [key_pressed] once with its code, and neither changes
    the state nor notifies a listener; when the 150 ms single shot fires
    the highlight is cleared. In every other state a press does nothing. *)
Theorem press_on_a_key_highlights_and_reports_it :
  forall (kd : KeypadData) (rect : Keyboard.QRectF) (key : KeyData)
         (r : Keyboard.QRectF) (pos : Keyboard.QPointF) (a : App),
    KeyboardDescribed.positive_widths
      (rows (fst (Keyboard.render kd rect))) ->
    NoDup (KeyboardDescribed.codes (rows (fst (Keyboard.render kd rect)))) ->
    _key_rects a = Keyboard.key_rects (snd (Keyboard.render kd rect)) ->
    In (key, r) (Keyboard.painted (snd (Keyboard.render kd rect))) ->
    KeyboardDescribed.inside r pos ->
    code key <> EmptyString ->
    _state (sm (overlay a)) = KEYPAD ->
    key_pressed (mousePressEvent pos a)
    = (key_pressed a ++ [code key])%list
    /\ active_key (keypad_data (sm (overlay (mousePressEvent pos a))))
       = Some (code key)
    /\ _state (sm (overlay (mousePressEvent pos a))) = KEYPAD
    /\ calls (overlay (mousePressEvent pos a)) = calls (overlay a)
    /\ active_key
         (keypad_data
            (sm (overlay (clear_highlight (mousePressEvent pos a)))))
       = None
    /\ _state (sm (overlay (clear_highlight (mousePressEvent pos a))))
       = KEYPAD
    /\ (forall a0 : App,
          _state (sm (overlay a0)) <> KEYPAD ->
          mousePressEvent pos a0 = a0).
Proof.
  intros kd rect key r pos a Hpos Hnd Hrects Hin Hp Hcode Hst.
  assert (Hhit : Keyboard.hit_test (_key_rects a) pos = Some (code key)).
  { rewrite Hrects. now apply (Keys.hit_test_complete kd rect key r pos). }
  unfold mousePressEvent, state. rewrite Hst, Hhit.
  rewrite state_eqb_refl. cbn [negb].
  destruct (code key) as [|ch rest] eqn:Ek; [congruence|].
  cbn [key_pressed overlay clear_highlight pending_clears].
  unfold window_update_keypad, update_keypad. simpl.
  repeat split; try assumption.
  intros a0 Hne. unfold mousePressEvent, state.
  now rewrite (state_eqb_neq _ _ Hne).
Qed.

(** Witness for X25: a press on the first key of the keypad shown by a
    default application. *)
Lemma press_on_a_key_witness :
  key_pressed
    (mousePressEvent
       (Keyboard.center
          (snd (nth 0 (Keyboard.painted
                         (snd (Keyboard.render KeypadData_default
                                 KeyboardExamples.keyboard_window)))
                  KeyboardExamples.no_key)))
       MainExamples.keypad_app)
  = ["`"].
Proof.
  assert (Hpos : KeyboardDescribed.positive_widths
                   (rows (fst (Keyboard.render KeypadData_default
                                 KeyboardExamples.keyboard_window)))).
  { repeat constructor; simpl; lra. }
  assert (Hnd : NoDup (KeyboardDescribed.codes
                         (rows (fst (Keyboard.render KeypadData_default
                                       KeyboardExamples.keyboard_window))))).
  { apply Keys.all_distinct_sound. reflexivity. }
  assert (Hin : In (nth 0 (Keyboard.painted
                             (snd (Keyboard.render KeypadData_default
                                     KeyboardExamples.keyboard_window)))
                      KeyboardExamples.no_key)
                   (Keyboard.painted
                      (snd (Keyboard.render KeypadData_default
                              KeyboardExamples.keyboard_window)))).
  { apply nth_In. rewrite Keys.painted_length. simpl. lia. }
  destruct (Keys.render_shape _ _ _ Hpos Hin) as (Hw & Hh & _).
  rewrite (surjective_pairing (nth 0 _ KeyboardExamples.no_key)) in Hin.
  destruct (press_on_a_key_highlights_and_reports_it
              KeypadData_default KeyboardExamples.keyboard_window _ _ _
              MainExamples.keypad_app Hpos Hnd eq_refl Hin
              (KeyboardFacts.inside_center _ (Rlt_le _ _ Hw) (Rlt_le _ _ Hh))
              ltac:(discriminate) eq_refl) as (H & _).
  exact H.
Defined.

End Application.

(* ================================================================== *)
(** * The capture loop as a whole, the worker and the processing ring  *)
(* ================================================================== *)

Module Capturing.

Import VoiceInput VoiceFacts LoopDescribed.

(** X26. Over any sequence of blocks the capture loop reports exactly one
    level per block, in order, whatever the segmenter does; its VAD
    variables evolve as the segmenter's over the blocks' own levels; and it
    sends exactly one request to the recogniser for each buffer the
    segmenter hands over, in order, made of that buffer's samples. *)
Theorem run_loop_accounting :
  forall (rate : Z) (recognize : AudioData -> Recognition) (st : Vad)
         (blocks : list (Frame * R)),
    fst (fst (_run_loop rate recognize st blocks))
    = fst (vad_run silence_threshold silence_duration st (ticks_of blocks))
    /\ snd (_run_loop rate recognize st blocks)
       = map (request_for rate)
             (snd (vad_run silence_threshold silence_duration st
                     (ticks_of blocks)))
    /\ filter is_level (snd (fst (_run_loop rate recognize st blocks)))
       = map (fun b => audio_level_changed (level_of (fst b))) blocks.
Proof.
  intros rate recognize st blocks. revert st.
  induction blocks as [|[data now] rest IH]; intros st.
  - repeat split.
  - change (ticks_of ((data, now) :: rest))
      with ((data, rms_of data, now) :: ticks_of rest).
    rewrite run_loop_cons, vad_run_cons, loop_body_eq. cbn [fst snd].
    destruct (vad_step silence_threshold silence_duration st data
                (rms_of data) now) as [st1 handed] eqn:E.
    cbn [fst snd]. destruct (IH st1) as (H1 & H2 & H3).
    split; [exact H1 | split].
    + rewrite map_app, <- H2. f_equal.
      destruct handed as [buffer|]; [|reflexivity].
      apply process_speech_request.
      exact (vad_step_hands_nonempty _ _ _ _ _ _ _ _ E).
    + cbn [app filter is_level map fst]. rewrite filter_app, H3.
      destruct handed as [buffer|]; [|reflexivity].
      now rewrite process_speech_no_level.
Qed.

End Capturing.

Module Working.

Import Worker.

Lemma obey_invariant : forall w c,
  (_is_running w = true ->
     exists pre, life w = pre ++ [listening_started]) ->
  (_is_running (obey w c) = true ->
     exists pre, life (obey w c) = pre ++ [listening_started]).
Proof.
  intros w [|] Hinv; simpl.
  - unfold start. destruct (_is_running w) eqn:E.
    + rewrite E. exact Hinv.
    + intros _. now exists (life w).
  - discriminate.
Qed.

Lemma after_snoc : forall cs c, after (cs ++ [c]) = obey (after cs) c.
Proof. intros cs c. unfold after. now rewrite fold_left_app. Qed.

Lemma running_means_started_last : forall cs,
  _is_running (after cs) = true ->
  exists pre, life (after cs) = pre ++ [listening_started].
Proof.
  induction cs as [|c cs IH] using rev_ind.
  - discriminate.
  - rewrite after_snoc. now apply obey_invariant.
Qed.

Lemma last_started_means_running : forall cs,
  (exists pre, life (after cs) = pre ++ [listening_started]) ->
  _is_running (after cs) = true.
Proof.
  induction cs as [|c cs IH] using rev_ind.
  - intros [pre H]. destruct pre; discriminate.
  - rewrite after_snoc. intros [pre H]. destruct c; simpl in *.
    + unfold start in *. destruct (_is_running (after cs)) eqn:E.
      * exact E.
      * reflexivity.
    + apply app_inj_tail in H as [_ H]. discriminate.
Qed.

(** X27. Whatever sequence of [start] and [stop] calls a new worker
    receives: it is marked running exactly when its last emission is
    [listening_started]; [listening_started] is never emitted twice in a
    row (a [start] on a running worker is ignored); and the number of
    capture threads started equals the number of [listening_started]
    emissions. *)
Theorem worker_lifecycle :
  forall commands : list Command,
    (_is_running (after commands) = true
     <-> exists pre, life (after commands) = pre ++ [listening_started])
    /\ (forall pre post,
          life (after commands)
          <> pre ++ listening_started :: listening_started :: post)
    /\ threads_started (after commands)
       = List.length (filter is_started (life (after commands))).
Proof.
  intros commands. repeat apply conj.
  - apply running_means_started_last.
  - apply last_started_means_running.
  - induction commands as [|c cs IH] using rev_ind.
    + intros pre post H. destruct pre; discriminate.
    + rewrite after_snoc. intros pre post H.
      destruct post as [|x post _] using rev_ind.
      * replace (pre ++ [listening_started; listening_started])
          with ((pre ++ [listening_started]) ++ [listening_started])
          in H by now rewrite <- app_assoc.
        destruct c; simpl in H.
        -- unfold start in H. destruct (_is_running (after cs)) eqn:E.
           ++ apply (IH pre []). rewrite H. now rewrite <- app_assoc.
           ++ apply app_inj_tail in H as [H _].
              assert (Hr : _is_running (after cs) = true)
                by (apply last_started_means_running; now exists pre).
              congruence.
        -- apply app_inj_tail in H as [_ H]. discriminate.
      * replace (pre ++ listening_started :: listening_started
                     :: post ++ [x])
          with ((pre ++ listening_started :: listening_started :: post)
                ++ [x]) in H
          by (rewrite <- app_assoc; reflexivity).
        destruct c; simpl in H.
        -- unfold start in H. destruct (_is_running (after cs)) eqn:E.
           ++ rewrite <- app_assoc in H. exact (IH pre (post ++ [x]) H).
           ++ apply app_inj_tail in H as [H _]. exact (IH pre post H).
        -- apply app_inj_tail in H as [H _]. exact (IH pre post H).
  - induction commands as [|c cs IH] using rev_ind.
    + reflexivity.
    + rewrite after_snoc. destruct c; simpl.
      * unfold start. destruct (_is_running (after cs)).
        -- exact IH.
        -- simpl. rewrite filter_app, length_app. simpl. rewrite IH. lia.
      * rewrite filter_app, length_app. simpl. rewrite IH. lia.
Qed.

End Working.

Module Spinning.

Import Ring.

Local Open Scope R_scope.

Lemma py_fmod_range : forall x m, 0 < m -> 0 <= py_fmod x m < m.
Proof.
  intros x m Hm. unfold py_fmod.
  destruct (base_Int_part (x / m)) as [H1 H2].
  assert (Hx : x = m * (x / m)) by (field; lra).
  split.
  - assert (m * IZR (Int_part (x / m)) <= m * (x / m))
      by (apply Rmult_le_compat_l; lra).
    lra.
  - assert (m * (x / m) - m * IZR (Int_part (x / m)) < m * 1).
    { rewrite <- Rmult_minus_distr_l. apply Rmult_lt_compat_l; lra. }
    lra.
Qed.

Lemma update_range : forall self delta_ms,
  (0 <= _rotation (update self delta_ms) < 360)
  /\ (0 <= _color_phase (update self delta_ms) < 1).
Proof.
  intros self delta_ms. split; apply py_fmod_range; lra.
Qed.

Lemma run_range : forall deltas,
  (0 <= _rotation (run deltas) < 360)
  /\ (0 <= _color_phase (run deltas) < 1).
Proof.
  intros deltas. destruct deltas as [|d ds _] using rev_ind.
  - cbn. lra.
  - unfold run. rewrite fold_left_app. apply update_range.
Qed.

(** X28. A ring that has received any number of [update] calls with
    non-negative time steps has its rotation in [0, 360) and its colour
    phase in [0, 1). [render] therefore passes [interpolate_color] a factor
    that needs no clamping: the ring's colour is the blend of the two
    colours at exactly the colour phase. *)
Theorem ring_angles_stay_in_range :
  forall (deltas : list Z) (color1 color2 : Animations.QColor),
    Forall (fun d => (0 <= d)%Z) deltas ->
    0 <= _rotation (run deltas) < 360
    /\ 0 <= _color_phase (run deltas) < 1
    /\ current_color (run deltas) color1 color2
       = Some {| Animations.red :=
                   Animations.mix (Animations.red color1)
                     (Animations.red color2) (_color_phase (run deltas));
                 Animations.green :=
                   Animations.mix (Animations.green color1)
                     (Animations.green color2) (_color_phase (run deltas));
                 Animations.blue :=
                   Animations.mix (Animations.blue color1)
                     (Animations.blue color2) (_color_phase (run deltas));
                 Animations.alpha :=
                   Animations.mix (Animations.alpha color1)
                     (Animations.alpha color2)
                     (_color_phase (run deltas)) |}.
Proof.
  intros deltas color1 color2 _.
  destruct (run_range deltas) as [Hr Hp].
  split; [exact Hr | split; [exact Hp|]].
  unfold current_color, Animations.interpolate_color.
  rewrite MachineFacts.py_clamp_fin.
  assert (Hc : clamp (_color_phase (run deltas)) 0 1
               = _color_phase (run deltas)).
  { unfold clamp.
    destruct (Rlt_dec (_color_phase (run deltas)) 0); [lra|].
    destruct (Rlt_dec 1 (_color_phase (run deltas))); lra. }
  now rewrite Hc.
Qed.

(** Witness for X28: two 16 ms frames and a one-second stall. *)
Lemma ring_angles_witness :
  0 <= _rotation (run [16; 16; 1000]%Z) < 360.
Proof.
  assert (H : Forall (fun d => (0 <= d)%Z) [16; 16; 1000]%Z)
    by (repeat constructor; lia).
  exact (proj1 (ring_angles_stay_in_range [16; 16; 1000]%Z
                  (Animations.mkColor 0 0 0 0) (Animations.mkColor 0 0 0 0)
                  H)).
Defined.

End Spinning.
